(** * vMix / EmberPlus bridge: a shallow embedding of [bridge.js]

    The bridge is a single-threaded, event-driven Node.js program.  Every
    callback it registers (socket [connect], [data], [error], [close], the
    reconnect timer, and the EmberPlus server callbacks [onInvocation] and
    [onSetValue]) runs to completion, so each one is embedded as a function
    on an explicit program state.  The state holds the module-level
    variables ([vmixConnection], [reconnectScheduled]), the closure
    variables of every [connectToVMix] activation ([delayIndex],
    [dataBuffer]), the values of the EmberPlus tree, the pending timers, and
    the observable output (socket writes, [s.update] calls, console lines).

    [onMatrixOperation] only hands the connections of the example matrix
    back to the server and is left out.

    Part I holds the embedding, Part II the properties. *)

From Stdlib Require Import NArith String Ascii.
From Stdlib.Strings Require Byte.
From stdpp Require Import base option list functions gmap.

(** * Part I: the program *)

(** ** JavaScript strings

    A JavaScript string is a sequence of UTF-16 code units. *)

Module JS.

Abbreviation jsstring := (list N).

(** A literal of the source, spelled with an ASCII Rocq string. *)
Fixpoint lit (s : string) : jsstring :=
  match s with
  | EmptyString => []
  | String a r => N_of_ascii a :: lit r
  end.

(** The device line terminator, ["\r\n"]. *)
Definition CRLF : jsstring := [13; 10]%N.

(** [s.startsWith(p)] *)
Fixpoint startsWith (p s : jsstring) : bool :=
  match p, s with
  | [], _ => true
  | _ :: _, [] => false
  | a :: p', b :: s' => if decide (a = b) then startsWith p' s' else false
  end.

(** [s.indexOf(p)], with [None] for [-1]. *)
Fixpoint indexOf (p s : jsstring) : option nat :=
  if startsWith p s then Some 0
  else match s with
       | [] => None
       | _ :: s' => S <$> indexOf p s'
       end.

(** [s.substring(i, j)] for [i <= j], and [s.substring(i)]. *)
Definition substring (i j : nat) (s : jsstring) : jsstring := take (j - i) (drop i s).
Definition substring_from (i : nat) (s : jsstring) : jsstring := drop i s.

(** [s.charAt(i)]: the empty string when [i] is out of range. *)
Definition charAt (i : nat) (s : jsstring) : jsstring :=
  match s !! i with Some c => [c] | None => [] end.

(** The code units [String.prototype.trim] removes: ECMAScript WhiteSpace
    and LineTerminator. *)
Definition isWhiteSpace (c : N) : bool :=
  ((9 <=? c) && (c <=? 13) || (c =? 32) || (c =? 160) || (c =? 5760)
   || (8192 <=? c) && (c <=? 8202) || (c =? 8232) || (c =? 8233)
   || (c =? 8239) || (c =? 8287) || (c =? 12288) || (c =? 65279))%N.

Fixpoint trimStart (s : jsstring) : jsstring :=
  match s with
  | c :: s' => if isWhiteSpace c then trimStart s' else s
  | [] => []
  end.

Definition trim (s : jsstring) : jsstring := rev (trimStart (rev (trimStart s))).

(** [s.split(sep)] for a one-unit separator: never empty, [""] splits
    into [[""]]. *)
Fixpoint split (sep : N) (s : jsstring) : list jsstring :=
  match s with
  | [] => [[]]
  | c :: s' =>
      if decide (c = sep) then [] :: split sep s'
      else match split sep s' with
           | h :: t => (c :: h) :: t
           | [] => [[c]]
           end
  end.

(** *** Property access on plain objects

    [obj[key]] on an object literal finds the object's own properties and,
    failing that, the members every plain object inherits from
    [Object.prototype]. *)
Definition objectPrototypeKeys : list jsstring :=
  map lit ["constructor"; "__defineGetter__"; "__defineSetter__";
           "hasOwnProperty"; "__lookupGetter__"; "__lookupSetter__";
           "isPrototypeOf"; "propertyIsEnumerable"; "toString"; "valueOf";
           "__proto__"; "toLocaleString"]%string.

Inductive Prop_ (V : Type) : Type :=
  | Own (v : V)                 (* a property of the object itself *)
  | Inherited (k : jsstring)    (* a member of Object.prototype *)
  | Undefined.
Arguments Own {V} v.
Arguments Inherited {V} k.
Arguments Undefined {V}.

Definition get {V} (obj : gmap jsstring V) (key : jsstring) : Prop_ V :=
  match obj !! key with
  | Some v => Own v
  | None => if decide (key ∈ objectPrototypeKeys) then Inherited key else Undefined
  end.

End JS.

Import JS.

(** ** [Buffer.prototype.toString]

    The [data] event hands the handler a [Buffer] of bytes, and the handler
    turns each chunk into text with [data.toString()], that is by UTF-8
    decoding the chunk on its own: a malformed or truncated sequence
    becomes U+FFFD.  The decoder below is the WHATWG one. *)

Module Utf8.

Abbreviation byte := Byte.byte.

(** A sequence in progress: code point so far, continuation bytes still
    expected, and the range allowed for the next byte. *)
Record Pending := { cp : N; remaining : nat; lower : N; upper : N }.

(** [None] is the decoder at rest, between two characters. *)
Abbreviation DecoderState := (option Pending).

Definition REPLACEMENT : N := 65533.

(** A code point as UTF-16 code units. *)
Definition utf16 (c : N) : jsstring :=
  if (c <? 65536)%N then [c]
  else [(55296 + N.shiftr (c - 65536) 10)%N; (56320 + N.land (c - 65536) 1023)%N].

Definition lead (b : N) : DecoderState * jsstring :=
  if (b <=? 127)%N then (None, [b])
  else if ((194 <=? b) && (b <=? 223))%N then
    (Some {| cp := N.land b 31; remaining := 1; lower := 128; upper := 191 |}, [])
  else if ((224 <=? b) && (b <=? 239))%N then
    (Some {| cp := N.land b 15; remaining := 2;
             lower := if (b =? 224)%N then 160%N else 128%N;
             upper := if (b =? 237)%N then 159%N else 191%N |}, [])
  else if ((240 <=? b) && (b <=? 244))%N then
    (Some {| cp := N.land b 7; remaining := 3;
             lower := if (b =? 240)%N then 144%N else 128%N;
             upper := if (b =? 244)%N then 143%N else 191%N |}, [])
  else (None, [REPLACEMENT]).

Definition step (st : DecoderState) (b : byte) : DecoderState * jsstring :=
  let n := Byte.to_N b in
  match st with
  | None => lead n
  | Some p =>
      if ((lower p <=? n) && (n <=? upper p))%N then
        let c := N.lor (N.shiftl (cp p) 6) (N.land n 63) in
        match remaining p with
        | 0 | 1 => (None, utf16 c)
        | S k => (Some {| cp := c; remaining := k; lower := 128; upper := 191 |}, [])
        end
      else
        let '(st', out) := lead n in (st', REPLACEMENT :: out)
  end.

Fixpoint run (st : DecoderState) (bs : list byte) : DecoderState * jsstring :=
  match bs with
  | [] => (st, [])
  | b :: bs' =>
      let '(st1, o1) := step st b in
      let '(st2, o2) := run st1 bs' in
      (st2, o1 ++ o2)
  end.

Definition flush (st : DecoderState) : jsstring :=
  match st with None => [] | Some _ => [REPLACEMENT] end.

(** [buf.toString()] with the default ['utf8'] encoding. *)
Definition toString (bs : list byte) : jsstring :=
  let '(st, out) := run None bs in out ++ flush st.

(** The bytes of an ASCII literal. *)
Definition ascii_bytes (s : string) : list byte := list_byte_of_string s.

(** A chunk ends between two characters: decoding it leaves the decoder at
    rest. *)
Definition complete (bs : list byte) : bool :=
  match fst (run None bs) with None => true | Some _ => false end.

End Utf8.

(** ** The EmberPlus tree and the state of the program *)

Inductive ActsCategory := Recording | MultiCorder | Streaming.

(** The handles of the tree: the parameter nodes the bridge keeps a
    reference to ([programTallyNodes[i]], [previewTallyNodes[i]],
    [vmixConnectedParameterNode], [actsStatusNodes[c]]), and every other
    element, named by its numbered path. *)
Inductive Node :=
  | ProgramTallyNode (i : nat)
  | PreviewTallyNode (i : nat)
  | VmixConnectedNode
  | ActsNode (c : ActsCategory)
  | TreeNode (path : list nat).

#[global] Instance ActsCategory_eq_dec : EqDecision ActsCategory.
Proof. solve_decision. Defined.
#[global] Instance Node_eq_dec : EqDecision Node.
Proof. solve_decision. Defined.

(** The values an EmberPlus parameter can hold. *)
Inductive EmberValue :=
  | VBool (b : bool)
  | VInt (z : Z)
  | VString (s : jsstring)
  | VNull.

(** What [s.update] is handed as its first argument: a handle of the tree,
    or (through a lookup that fell through to [Object.prototype]) a value
    that is no handle at all. *)
Inductive Target :=
  | Handle (n : Node)
  | Foreign (k : jsstring).

Inductive LogEntry :=
  | LogServerRunning
  | LogInvocation
  | LogSending (command : jsstring)
  | LogNotAvailable (command : jsstring)
  | LogSetValue (n : Node) (v : EmberValue)
  | LogAttempting
  | LogConnected
  | LogReceivedLine (line : jsstring)
  | LogTallyString (tallyString : jsstring)
  | LogProgramTally (input : nat) (v : bool) (digit : jsstring)
  | LogPreviewTally (input : nat) (v : bool) (digit : jsstring)
  | LogActsUpdate (category : jsstring) (v : bool) (valueStr : jsstring)
  | LogUnknownActs (category : jsstring)
  | LogMalformedActs (line : jsstring)
  | LogOther (line : jsstring)
  | LogRefused
  | LogRetrying (delay : N)
  | LogConnectionError (code : jsstring)
  | LogClosed.

(** The life of a [net.Socket]: created connecting; open once [connect] has
    fired; half-closed once the peer has ended (the socket then ends its
    own side, so it is no longer writable); destroyed by an error, with the
    [close] event still to come; closed. *)
Inductive Phase := Connecting | Open | HalfClosed | Errored | Closed.

#[global] Instance Phase_eq_dec : EqDecision Phase.
Proof. solve_decision. Defined.

(** [socket.writable] *)
Definition socket_writable (p : Phase) : bool :=
  match p with Connecting | Open => true | _ => false end.

(** One activation of [connectToVMix]: the socket [vmixClient] and the two
    variables its callbacks close over. *)
Record Client := {
  delayIndex : nat;
  dataBuffer : jsstring;
  phase : Phase }.

Record State := {
  vmixConnection : option nat;          (* index of the client, [None] for null *)
  reconnectScheduled : bool;
  tree : Node → EmberValue;
  clients : list Client;                (* in order of creation *)
  timers : list (N * nat);              (* pending [setTimeout]s: delay, captured index *)
  written : list (nat * jsstring);      (* [socket.write] calls, oldest first *)
  updates : list (Target * EmberValue); (* [s.update] calls, oldest first *)
  console : list LogEntry }.

Notation "st |> f" := (f st) (at level 45, left associativity, only parsing).

Definition set_vmixConnection (v : option nat) (st : State) : State :=
  {| vmixConnection := v; reconnectScheduled := reconnectScheduled st;
     tree := tree st; clients := clients st; timers := timers st;
     written := written st; updates := updates st; console := console st |}.

Definition set_reconnectScheduled (b : bool) (st : State) : State :=
  {| vmixConnection := vmixConnection st; reconnectScheduled := b;
     tree := tree st; clients := clients st; timers := timers st;
     written := written st; updates := updates st; console := console st |}.

Definition set_clients (cs : list Client) (st : State) : State :=
  {| vmixConnection := vmixConnection st; reconnectScheduled := reconnectScheduled st;
     tree := tree st; clients := cs; timers := timers st;
     written := written st; updates := updates st; console := console st |}.

Definition set_timers (ts : list (N * nat)) (st : State) : State :=
  {| vmixConnection := vmixConnection st; reconnectScheduled := reconnectScheduled st;
     tree := tree st; clients := clients st; timers := ts;
     written := written st; updates := updates st; console := console st |}.

(** [console.log] / [console.error] *)
Definition log (e : LogEntry) (st : State) : State :=
  {| vmixConnection := vmixConnection st; reconnectScheduled := reconnectScheduled st;
     tree := tree st; clients := clients st; timers := timers st;
     written := written st; updates := updates st; console := console st ++ [e] |}.

(** [socket.write(data)] on the socket of client [s] *)
Definition write (s : nat) (data : jsstring) (st : State) : State :=
  {| vmixConnection := vmixConnection st; reconnectScheduled := reconnectScheduled st;
     tree := tree st; clients := clients st; timers := timers st;
     written := written st ++ [(s, data)]; updates := updates st; console := console st |}.

(** [s.update(target, { value })]: the service records the new value in the
    tree.  Handed something that is no handle, it has no node to change. *)
Definition s_update (t : Target) (v : EmberValue) (st : State) : State :=
  {| vmixConnection := vmixConnection st; reconnectScheduled := reconnectScheduled st;
     tree := match t with Handle n => <[n := v]> (tree st) | Foreign _ => tree st end;
     clients := clients st; timers := timers st;
     written := written st; updates := updates st ++ [(t, v)]; console := console st |}.

(** [setTimeout(callback, delay)] *)
Definition setTimeout (delay : N) (captured : nat) (st : State) : State :=
  set_timers (timers st ++ [(delay, captured)]) st.

Definition set_delayIndex (s i : nat) (st : State) : State :=
  set_clients
    (alter (λ c, {| delayIndex := i; dataBuffer := dataBuffer c; phase := phase c |}) s (clients st)) st.

Definition set_dataBuffer (s : nat) (b : jsstring) (st : State) : State :=
  set_clients
    (alter (λ c, {| delayIndex := delayIndex c; dataBuffer := b; phase := phase c |}) s (clients st)) st.

Definition set_phase (s : nat) (p : Phase) (st : State) : State :=
  set_clients
    (alter (λ c, {| delayIndex := delayIndex c; dataBuffer := dataBuffer c; phase := p |}) s (clients st)) st.

(** ** The tables of the bridge *)

(** [emberFunction.contents] *)
Record EmberFunction := { identifier : jsstring; description : jsstring }.


Definition functionCommandMapping : gmap jsstring jsstring :=
  list_to_map
    [ (lit "Auto Mix 1", lit "FUNCTION CUT");
      (lit "Stinger 1", lit "FUNCTION STINGER1");
      (lit "Stinger 2", lit "FUNCTION STINGER2");
      (lit "Stinger 3", lit "FUNCTION STINGER3");
      (lit "Stinger 4", lit "FUNCTION STINGER4");
      (lit "Transition 1", lit "FUNCTION TRANSITION1");
      (lit "Transition 2", lit "FUNCTION TRANSITION2");
      (lit "Transition 3", lit "FUNCTION TRANSITION3");
      (lit "Transition 4", lit "FUNCTION TRANSITION4") ].

(** [programTallyNodes] and [previewTallyNodes], filled by the loop
    [for (let i = 1; i <= 32; i++)]: the tables the loop ends with
    ([tally_table_loop] below is the loop itself).  Their keys are
    numbers, which no inherited member name can equal. *)
Definition programTallyNodes : gmap nat Node :=
  list_to_map (map (λ i, (i, ProgramTallyNode i)) (seq 1 32)).
Definition previewTallyNodes : gmap nat Node :=
  list_to_map (map (λ i, (i, PreviewTallyNode i)) (seq 1 32)).

Definition actsStatusNodes : gmap jsstring Node :=
  list_to_map
    [ (lit "Recording", ActsNode Recording);
      (lit "MultiCorder", ActsNode MultiCorder);
      (lit "Streaming", ActsNode Streaming) ].

(** The functions of the tree as the module builds it, by their number
    under the "Functions" node. *)
Definition functionsTree : list (nat * EmberFunction) :=
  [ (1, {| identifier := lit "Auto Mix 1"; description := lit "Cut A to B" |});
    (2, {| identifier := lit "Stinger 1"; description := lit "Stinger 1" |});
    (3, {| identifier := lit "Stinger 2"; description := lit "Stinger 2" |});
    (4, {| identifier := lit "Stinger 3"; description := lit "Stinger 3" |});
    (5, {| identifier := lit "Stinger 4"; description := lit "Stinger 4" |});
    (6, {| identifier := lit "Transition 1"; description := lit "Transition 1" |});
    (7, {| identifier := lit "Transition 2"; description := lit "Transition 2" |});
    (8, {| identifier := lit "Transition 3"; description := lit "Transition 3" |});
    (9, {| identifier := lit "Transition 4"; description := lit "Transition 4" |}) ].

Definition retryDelays : list N := [2000; 4000; 16000]%N.
Definition maxRetryDelay : N := 30000%N.

(** ** The EmberPlus callbacks *)

(** [invocation.contents.invocation]: the id a client chose, if any. *)
Record Invocation := { invocation_id : option Z }.

Record InvocationResult := {
  id : option Z;
  success : bool;
  error : option jsstring }.

(** Truthiness of what the mapping lookup returns: a string is truthy when
    it is not empty, an inherited member always, [undefined] never. *)
Definition truthy (command : JS.Prop_ jsstring) : bool :=
  match command with
  | Own v => bool_decide (v ≠ [])
  | Inherited _ => true
  | Undefined => false
  end.

(** [command + "..."]: string concatenation converts its left operand to a
    string; the inherited members are native functions, [__proto__] is an
    object. *)
Definition toText (command : JS.Prop_ jsstring) : jsstring :=
  match command with
  | Own v => v
  | Inherited k =>
      if decide (k = lit "__proto__") then lit "[object Object]"
      else lit "function "
             ++ (if decide (k = lit "constructor") then lit "Object" else k)
             ++ lit "() { [native code] }"
  | Undefined => lit "undefined"
  end.

(** [vmixConnection && vmixConnection.writable]: the client to write to. *)
Definition writableConnection (st : State) : option nat :=
  s ← vmixConnection st;
  c ← clients st !! s;
  if socket_writable (phase c) then Some s else None.

Definition notAvailable : jsstring := lit "vMix connection not available.".

Definition onInvocation (emberFunction : EmberFunction) (invocation : Invocation)
    (st : State) : InvocationResult * State :=
  let st := st |> log LogInvocation in
  let command := JS.get functionCommandMapping (identifier emberFunction) in
  if truthy command then
    match writableConnection st with
    | Some s =>
        ({| id := invocation_id invocation; success := true; error := None |},
         st |> log (LogSending (toText command))
            |> write s (toText command ++ CRLF))
    | None =>
        ({| id := invocation_id invocation; success := false; error := Some notAvailable |},
         st |> log (LogNotAvailable (toText command)))
    end
  else
    ({| id := invocation_id invocation; success := true; error := None |}, st).

Definition onSetValue (node : Node) (value : EmberValue) (st : State) : bool * State :=
  (true, st |> log (LogSetValue node value) |> s_update (Handle node) value).

(** ** Connecting, and reconnecting with back-off *)

Definition ECONNREFUSED : jsstring := lit "ECONNREFUSED".

(** [(delayIndex < retryDelays.length) ? retryDelays[delayIndex] : maxRetryDelay] *)
Definition retryDelay (delayIndex : nat) : N :=
  if decide (delayIndex < length retryDelays)
  then default 0%N (retryDelays !! delayIndex)
  else maxRetryDelay.

(** [(delayIndex < retryDelays.length) ? delayIndex + 1 : delayIndex] *)
Definition nextIndex (delayIndex : nat) : nat :=
  if decide (delayIndex < length retryDelays) then delayIndex + 1 else delayIndex.

(** The callback of the timer is [on_timeout] below; the timer keeps the
    index it will pass to [connectToVMix]. *)
Definition scheduleReconnect (delay : N) (delayIndex : nat) (st : State) : State :=
  if reconnectScheduled st then st
  else st |> set_reconnectScheduled true
          |> log (LogRetrying delay)
          |> s_update (Handle VmixConnectedNode) (VBool false)
          |> setTimeout delay delayIndex.

(** [connectToVMix(delayIndex)]: a new socket, a new empty buffer, and the
    four callbacks below registered on it. *)
Definition connectToVMix (delayIndex : nat) (st : State) : State :=
  st |> log LogAttempting
     |> set_clients (clients st ++ [{| delayIndex := delayIndex; dataBuffer := []; phase := Connecting |}]).

Definition on_timeout (delayIndex : nat) (st : State) : State :=
  st |> set_reconnectScheduled false |> connectToVMix delayIndex.

(** The connect callback of client [s]. *)
Definition on_connect (s : nat) (st : State) : State :=
  st |> log LogConnected
     |> set_vmixConnection (Some s)
     |> s_update (Handle VmixConnectedNode) (VBool true)
     |> set_reconnectScheduled false
     |> set_delayIndex s 0
     |> write s (lit "SUBSCRIBE TALLY" ++ CRLF)
     |> write s (lit "SUBSCRIBE ACTS" ++ CRLF).

(** *** Lines of the device *)

(** One turn of [for (let i = 0; i < tallyString.length && i < 32; i++)]. *)
Definition tally_step (tallyString : jsstring) (st : State) (i : nat) : State :=
  let digit := charAt i tallyString in
  let programValue := bool_decide (digit = lit "1") in
  let previewValue := bool_decide (digit = lit "2") in
  let st :=
    match programTallyNodes !! (i + 1) with
    | Some n => st |> log (LogProgramTally (i + 1) programValue digit)
                   |> s_update (Handle n) (VBool programValue)
    | None => st
    end in
  match previewTallyNodes !! (i + 1) with
  | Some n => st |> log (LogPreviewTally (i + 1) previewValue digit)
                 |> s_update (Handle n) (VBool previewValue)
  | None => st
  end.

(** The body of the [while] loop after a line has been cut off the buffer.
    [parts.length >= 4] with [parts[2]] and [parts[3]] is the pattern
    below. *)
Definition handle_line (line : jsstring) (st : State) : State :=
  if startsWith (lit "TALLY OK") line then
    let tallyString := substring_from 9 line in
    foldl (tally_step tallyString)
          (st |> log (LogTallyString tallyString))
          (seq 0 (length tallyString `min` 32))
  else if startsWith (lit "ACTS OK") line then
    match split 32 line with
    | _ :: _ :: category :: valueStr :: _ =>
        let value := bool_decide (valueStr = lit "1") in
        match JS.get actsStatusNodes category with
        | Own n =>
            st |> log (LogActsUpdate category value valueStr)
               |> s_update (Handle n) (VBool value)
        | Inherited k =>
            st |> log (LogActsUpdate category value valueStr)
               |> s_update (Foreign k) (VBool value)
        | Undefined => st |> log (LogUnknownActs category)
        end
    | _ => st |> log (LogMalformedActs line)
    end
  else st |> log (LogOther line).

(** [while (dataBuffer.indexOf('\r\n') !== -1) { ... }].  Every turn
    shortens the buffer, so its length is fuel enough ([data_loop_fuel]). *)
Fixpoint data_loop (fuel : nat) (dataBuffer : jsstring) (st : State) : jsstring * State :=
  match fuel with
  | 0 => (dataBuffer, st)
  | S fuel' =>
      match indexOf CRLF dataBuffer with
      | None => (dataBuffer, st)
      | Some lineEndIndex =>
          let line := trim (substring 0 lineEndIndex dataBuffer) in
          let dataBuffer := substring_from (lineEndIndex + 2) dataBuffer in
          data_loop fuel' dataBuffer (st |> log (LogReceivedLine line) |> handle_line line)
      end
  end.

(** The [data] handler of client [s]. *)
Definition on_data (s : nat) (data : list Utf8.byte) (st : State) : State :=
  match clients st !! s with
  | None => st
  | Some c =>
      let dataBuffer := dataBuffer c ++ Utf8.toString data in
      let '(dataBuffer, st) := data_loop (length dataBuffer) dataBuffer st in
      st |> set_dataBuffer s dataBuffer
  end.

(** The [error] handler of client [s]; [code] is [err.code]. *)
Definition on_error (s : nat) (code : jsstring) (st : State) : State :=
  match clients st !! s with
  | None => st
  | Some c =>
      let st := st |> set_vmixConnection None in
      if decide (code = ECONNREFUSED) then
        st |> log LogRefused
           |> scheduleReconnect (retryDelay (delayIndex c)) (nextIndex (delayIndex c))
      else st |> log (LogConnectionError code)
  end.

(** The [close] handler of client [s]. *)
Definition on_close (s : nat) (st : State) : State :=
  match clients st !! s with
  | None => st
  | Some c =>
      st |> set_vmixConnection None
         |> log LogClosed
         |> scheduleReconnect (retryDelay (delayIndex c)) (nextIndex (delayIndex c))
  end.

(** ** The event loop

    The state once the module has been loaded: every parameter of the tree
    was created with the value [false], and the last statement,
    [connectToVMix()], has made the first client with index 0. *)
Definition loaded : State :=
  {| vmixConnection := None; reconnectScheduled := false;
     tree := λ n, match n with TreeNode _ => VNull | _ => VBool false end;
     clients := []; timers := []; written := []; updates := [];
     console := [LogServerRunning] |}.

Definition init : State := connectToVMix 0 loaded.

Inductive Event :=
  | EvConnect (s : nat)
  | EvData (s : nat) (data : list Utf8.byte)
  | EvEnd (s : nat)
  | EvError (s : nat) (code : jsstring)
  | EvClose (s : nat)
  | EvTimer (k : nat)
  | EvInvocation (f : EmberFunction) (i : Invocation)
  | EvSetValue (n : Node) (v : EmberValue).

(** One turn of the event loop: the socket changes phase as Node has it
    when the event is emitted, then the callback runs. *)
Definition step (st : State) (e : Event) : State :=
  match e with
  | EvConnect s => st |> set_phase s Open |> on_connect s
  | EvData s data => st |> on_data s data
  | EvEnd s => st |> set_phase s HalfClosed
  | EvError s code => st |> set_phase s Errored |> on_error s code
  | EvClose s => st |> set_phase s Closed |> on_close s
  | EvTimer k =>
      match timers st !! k with
      | Some (_, captured) => st |> set_timers (delete k (timers st)) |> on_timeout captured
      | None => st
      end
  | EvInvocation f i => snd (onInvocation f i st)
  | EvSetValue n v => snd (onSetValue n v st)
  end.

Definition phase_of (st : State) (s : nat) : option Phase := phase <$> clients st !! s.

Definition awaiting_close (st : State) : bool :=
  bool_decide (Exists (λ c, phase c = Errored) (clients st)).

(** What Node can deliver in a state.  A socket connects once, from
    [Connecting]; it reads while [Open]; it fails or closes while alive; a
    destroyed socket emits [close] right after [error], long before any
    timer of two seconds or more can fire. *)
Definition enabled (st : State) (e : Event) : bool :=
  match e with
  | EvConnect s => bool_decide (phase_of st s = Some Connecting)
  | EvData s _ => bool_decide (phase_of st s = Some Open)
  | EvEnd s => bool_decide (phase_of st s = Some Open)
  | EvError s _ =>
      bool_decide (phase_of st s ∈ [Some Connecting; Some Open; Some HalfClosed])
  | EvClose s =>
      bool_decide (phase_of st s ∈ [Some Connecting; Some Open; Some HalfClosed; Some Errored])
  | EvTimer k => bool_decide (is_Some (timers st !! k)) && negb (awaiting_close st)
  | EvInvocation _ _ => true
  | EvSetValue _ _ => true
  end.

Fixpoint admissible (st : State) (tr : list Event) : bool :=
  match tr with
  | [] => true
  | e :: tr' => enabled st e && admissible (step st e) tr'
  end.

Definition exec (st : State) (tr : list Event) : State := foldl step st tr.

(** The "vMix Connected" parameter. *)
Definition connectedFlag (st : State) : EmberValue := tree st VmixConnectedNode.

(** ** Notions used by the statements *)

(** The two values the loop computes from the character at position [i]. *)
Definition programValue (tallyString : jsstring) (i : nat) : bool :=
  bool_decide (charAt i tallyString = lit "1").
Definition previewValue (tallyString : jsstring) (i : nat) : bool :=
  bool_decide (charAt i tallyString = lit "2").

(** What the loop has written after the turns [a, a+1, ..., a+k-1]. *)
Definition tally_updates (t : jsstring) (i : nat) : list (Target * EmberValue) :=
  [ (Handle (ProgramTallyNode (i + 1)), VBool (programValue t i));
    (Handle (PreviewTallyNode (i + 1)), VBool (previewValue t i)) ].

(** The loop of the [data] handler with the fuel the handler gives it. *)
Definition drain (dataBuffer : jsstring) (st : State) : jsstring * State :=
  data_loop (length dataBuffer) dataBuffer st.

(** Chunks arriving one after the other on the socket of client [s]. *)
Definition feed (s : nat) (chunks : list (list Utf8.byte)) (st : State) : State :=
  foldl (λ st data, on_data s data st) st chunks.

(** The lines the decoder has produced so far, in order: the console
    entries ['Received line:']. *)
Definition receivedLines (st : State) : list jsstring :=
  omap (λ e, match e with LogReceivedLine line => Some line | _ => None end) (console st).

(** A buffer put back together from its complete lines and what is left. *)
Definition reassemble (raw : list jsstring) (rest : jsstring) : jsstring :=
  concat (map (λ l, l ++ CRLF) raw) ++ rest.

(** The history of the back-off: the console entries of a scheduled retry
    (with its delay) and of a successful connection. *)
Inductive BackoffEvent := Retried (delay : N) | Succeeded.

Definition backoffLog (st : State) : list BackoffEvent :=
  omap (λ e, match e with
             | LogRetrying d => Some (Retried d)
             | LogConnected => Some Succeeded
             | _ => None
             end) (console st).

(** What handling a line of the device may not touch: the connection, the
    guard flag, the clients, the timers, the socket, the "vMix Connected"
    parameter, and the back-off history. *)
Definition same_control (st st' : State) : Prop :=
  vmixConnection st' = vmixConnection st
  ∧ reconnectScheduled st' = reconnectScheduled st
  ∧ clients st' = clients st
  ∧ timers st' = timers st
  ∧ written st' = written st
  ∧ connectedFlag st' = connectedFlag st
  ∧ backoffLog st' = backoffLog st.

(** Handling one line, in addition, reports no received line. *)
Definition line_frame (st st' : State) : Prop :=
  same_control st st' ∧ receivedLines st' = receivedLines st.

(** *** The Connection Supervisor *)

(** The post-connect subscription step has been done on the socket of
    client [s]. *)
Definition subscribed (st : State) (s : nat) : Prop :=
  (s, lit "SUBSCRIBE TALLY" ++ CRLF) ∈ written st
  ∧ (s, lit "SUBSCRIBE ACTS" ++ CRLF) ∈ written st.

(** The schedule in the words of the specification: the delay of the
    retry after the [k+1]-th consecutive failure. *)
Definition expected_delay (k : nat) : N :=
  match k with
  | 0 => 2000%N
  | 1 => 4000%N
  | 2 => 16000%N
  | _ => 30000%N
  end.

(** Reading a back-off history against that schedule, [k] failures after
    the last success: the number of failures at its end, or [None] when
    some retry was scheduled with another delay. *)
Fixpoint follows_schedule (k : nat) (h : list BackoffEvent) : option nat :=
  match h with
  | [] => Some k
  | Retried d :: h' =>
      if decide (d = expected_delay k) then follows_schedule (S k) h' else None
  | Succeeded :: h' => follows_schedule 0 h'
  end.

(** The value of [delayIndex] after [k] consecutive failures. *)
Definition index_after (k : nat) : nat := k `min` 3.

Definition others_closed (cs : list Client) (s : nat) : Prop :=
  ∀ j c, cs !! j = Some c → j ≠ s → phase c = Closed.

Definition all_closed (cs : list Client) : Prop :=
  ∀ j c, cs !! j = Some c → phase c = Closed.

(** The situations the supervisor can be in, [k] consecutive failures
    after the last success (or after the start):
    - a connection attempt is under way on the only live socket;
    - the connection is up;
    - the only live socket has reported an error and is about to close,
      with no retry scheduled yet, or with the retry already scheduled by
      the error handler;
    - no socket is alive and the retry timer is pending. *)
Inductive Mode (st : State) (k : nat) : Prop :=
  | Attempting s c :
      clients st !! s = Some c → others_closed (clients st) s →
      phase c = Connecting → delayIndex c = index_after k →
      timers st = [] → reconnectScheduled st = false → vmixConnection st = None →
      Mode st k
  | Up s c :
      clients st !! s = Some c → others_closed (clients st) s →
      phase c = Open ∨ phase c = HalfClosed → delayIndex c = 0 → k = 0 →
      subscribed st s →
      timers st = [] → reconnectScheduled st = false → vmixConnection st = Some s →
      Mode st k
  | Failing s c :
      clients st !! s = Some c → others_closed (clients st) s →
      phase c = Errored → delayIndex c = index_after k →
      timers st = [] → reconnectScheduled st = false → vmixConnection st = None →
      Mode st k
  | FailingScheduled s c k' :
      clients st !! s = Some c → others_closed (clients st) s →
      phase c = Errored → k = S k' →
      timers st = [(expected_delay k', index_after k)] →
      reconnectScheduled st = true → vmixConnection st = None →
      Mode st k
  | Waiting k' :
      all_closed (clients st) → k = S k' →
      timers st = [(expected_delay k', index_after k)] →
      reconnectScheduled st = true → vmixConnection st = None →
      Mode st k.

Definition Inv (st : State) : Prop :=
  ∃ k, follows_schedule 0 (backoffLog st) = Some k ∧ Mode st k.

(** A set-value request aimed at the "vMix Connected" parameter itself. *)
Definition no_flag_write (e : Event) : bool :=
  match e with
  | EvSetValue VmixConnectedNode _ => false
  | _ => true
  end.

(** What holds of the "vMix Connected" parameter as long as no set-value
    request is aimed at it. *)
Definition FlagInv (st : State) : Prop :=
  (connectedFlag st = VBool true ∨ connectedFlag st = VBool false)
  ∧ (is_Some (vmixConnection st) → connectedFlag st = VBool true)
  ∧ (reconnectScheduled st = true → connectedFlag st = VBool false)
  ∧ (awaiting_close st = false → connectedFlag st = VBool true → is_Some (vmixConnection st))
  ∧ (connectedFlag st = VBool true → Succeeded ∈ backoffLog st).

(** A socket that is alive and has not reported an error. *)
Definition healthy (p : Phase) : Prop := p = Connecting ∨ p = Open ∨ p = HalfClosed.


(** Who wrote the "vMix Connected" parameter, read off the console: the
    connect callback and [scheduleReconnect] log each write they make, and
    the set-value handler logs the node it is asked to set.  [true] marks
    a write of a client. *)
Definition flag_writer (e : LogEntry) : option bool :=
  match e with
  | LogSetValue VmixConnectedNode _ => Some true
  | LogConnected | LogRetrying _ => Some false
  | _ => None
  end.

Definition flagWrites (st : State) : list bool := omap flag_writer (console st).

(** The last write to the parameter was a set-value request of a client:
    the bridge has not written it since. *)
Definition client_set_flag (st : State) : bool := default false (last (flagWrites st)).

(** No socket is between its [end] or [error] event and its [close]. *)
Definition settled (st : State) : bool :=
  bool_decide (Forall (λ c, phase c ≠ HalfClosed ∧ phase c ≠ Errored) (clients st)).

(** ** Notions used by the further properties *)

(** The number of inputs a tally line reports: the length of its tally
    string, at most 32. *)
Definition reported_inputs (line : jsstring) : nat :=
  length (substring_from 9 line) `min` 32.

(** A piece of text with no line terminator in it. *)
Definition unterminated (l : jsstring) : Prop := indexOf CRLF l = None.

(** One turn of the loop of the [data] handler on a line already cut off
    the buffer and trimmed: report it, then handle it. *)
Definition report_line (st : State) (line : jsstring) : State :=
  st |> log (LogReceivedLine line) |> handle_line line.

(** What every receive buffer satisfies between two events: it holds no
    complete line, and nothing at all before its socket has connected. *)
Definition BufInv (st : State) : Prop :=
  ∀ s c, clients st !! s = Some c →
    unterminated (dataBuffer c) ∧ (phase c = Connecting → dataBuffer c = []).

(** The delays a retry can be scheduled with. *)
Definition possible_delays : list N := retryDelays ++ [maxRetryDelay].

(** Every index the program holds is within the bounds of the schedule,
    and every pending timer has one of its delays. *)
Definition IdxInv (st : State) : Prop :=
  Forall (λ c, delayIndex c ≤ length retryDelays) (clients st)
  ∧ Forall (λ t, t.1 ∈ possible_delays ∧ t.2 ≤ length retryDelays) (timers st).

(** What has been written to the socket of client [s], oldest first. *)
Definition writes_to (s : nat) (st : State) : list jsstring :=
  omap (λ w : nat * jsstring, if decide (w.1 = s) then Some w.2 else None) (written st).

(** The two subscription commands, as the connect callback writes them. *)
Definition subscriptions : list jsstring :=
  [lit "SUBSCRIBE TALLY" ++ CRLF; lit "SUBSCRIBE ACTS" ++ CRLF].

(** A line as [onInvocation] writes it: what the lookup of some identifier
    in the mapping gave, as text, and the terminator. *)
Definition is_command_line (w : jsstring) : Prop :=
  ∃ identifier, truthy (JS.get functionCommandMapping identifier) = true
                ∧ w = toText (JS.get functionCommandMapping identifier) ++ CRLF.

(** The writes of every socket, along a run: none before it has
    connected; from then on the two subscriptions first, and only command
    lines after them. *)
Definition WInv (st : State) : Prop :=
  ∀ s,
    (clients st !! s = None → writes_to s st = [])
    ∧ (∀ c, clients st !! s = Some c → phase c = Connecting → writes_to s st = [])
    ∧ (writes_to s st = []
       ∨ ∃ cmds, writes_to s st = subscriptions ++ cmds ∧ Forall is_command_line cmds)
    ∧ (∀ c, clients st !! s = Some c → phase c = Open ∨ phase c = HalfClosed →
         writes_to s st ≠ []).

(** A line fit for the interpreter: no terminator inside, no white space
    at either end. *)
Definition clean_line (l : jsstring) : Prop :=
  unterminated l ∧ trim l = l.

(** No white space in front. *)
Definition no_lead (l : jsstring) : Prop :=
  match l with
  | c :: _ => isWhiteSpace c = false
  | [] => True
  end.

(** The two tally tables as the module builds them: both start as the
    empty object, and every turn of [for (let i = 1; i <= bound; i++)]
    makes the two assignments [programTallyNodes[i] = programParameterNode]
    and [previewTallyNodes[i] = previewParameterNode], with the nodes made
    for input [i] in that turn.  The bound of the source is 32. *)
Record TallyTables := {
  programTable : gmap nat Node;
  previewTable : gmap nat Node }.

Definition no_tables : TallyTables := {| programTable := ∅; previewTable := ∅ |}.

Definition tally_table_turn (i : nat) (t : TallyTables) : TallyTables :=
  {| programTable := <[i := ProgramTallyNode i]> (programTable t);
     previewTable := <[i := PreviewTallyNode i]> (previewTable t) |}.

(** The loop from [i] on; [None] when the fuel runs out before the test
    [i <= bound] fails. *)
Fixpoint tally_table_loop (fuel bound i : nat) (t : TallyTables) : option TallyTables :=
  match fuel with
  | 0 => None
  | S fuel' =>
      if decide (i ≤ bound) then tally_table_loop fuel' bound (S i) (tally_table_turn i t)
      else Some t
  end.


(** * Part II: properties *)

(** ** Sanity checks of the JavaScript primitives *)

Example split_acts_line :
  split 32 (lit "ACTS OK Recording 1") = map lit ["ACTS"; "OK"; "Recording"; "1"]%string.
Proof. reflexivity. Qed.

Example split_keeps_empty_parts : split 32 (lit "a  b") = [lit "a"; []; lit "b"].
Proof. reflexivity. Qed.

Example trim_both_ends : trim (lit " a b  " ++ CRLF) = lit "a b".
Proof. reflexivity. Qed.

Example indexOf_first : indexOf CRLF (lit "ab" ++ CRLF ++ lit "c" ++ CRLF) = Some 2.
Proof. reflexivity. Qed.

Example indexOf_missing : indexOf CRLF (lit "ab" ++ [13%N]) = None.
Proof. reflexivity. Qed.

Example toString_ascii : Utf8.toString (Utf8.ascii_bytes "TALLY OK 012") = lit "TALLY OK 012".
Proof. reflexivity. Qed.

Example toString_two_byte : Utf8.toString [Byte.xc3; Byte.xa9] = [233%N].
Proof. reflexivity. Qed.

Example toString_surrogates :
  Utf8.toString [Byte.xf0; Byte.x9f; Byte.x98; Byte.x80] = [55357%N; 56832%N].
Proof. reflexivity. Qed.

Example get_own_inherited_undefined :
  (JS.get actsStatusNodes (lit "Streaming"),
   JS.get actsStatusNodes (lit "toString"),
   JS.get actsStatusNodes (lit "Input"))
  = (Own (ActsNode Streaming), Inherited (lit "toString"), Undefined).
Proof. vm_compute. reflexivity. Qed.

Example a_first_session :
  let tr := [EvError 0 ECONNREFUSED; EvClose 0; EvTimer 0; EvConnect 1;
             EvData 1 (Utf8.ascii_bytes "TALLY OK 012" ++ [Byte.x0d; Byte.x0a])] in
  let st := exec init tr in
  (admissible init tr, vmixConnection st, connectedFlag st, timers st,
   tree st (ProgramTallyNode 2), tree st (PreviewTallyNode 3), tree st (ProgramTallyNode 4))
  = (true, Some 1, VBool true, [], VBool true, VBool true, VBool false).
Proof. vm_compute. reflexivity. Qed.

(** ** Property access *)

Lemma get_undefined {V} (obj : gmap jsstring V) key :
  JS.get obj key = Undefined ↔ obj !! key = None ∧ key ∉ objectPrototypeKeys.
Proof.
  unfold JS.get. destruct (obj !! key) as [v|].
  - split; [done|]. by intros [? _].
  - case_decide; split; try done. by intros [_ ?].
Qed.

Lemma get_own {V} (obj : gmap jsstring V) key v :
  JS.get obj key = Own v ↔ obj !! key = Some v.
Proof.
  unfold JS.get. destruct (obj !! key) as [w|].
  - split; congruence.
  - case_decide; split; done.
Qed.

(** Every command of the mapping is a non-empty string, hence truthy. *)
Lemma commands_truthy key command :
  functionCommandMapping !! key = Some command → command ≠ [].
Proof.
  intros H. apply elem_of_list_to_map_2 in H.
  repeat (apply elem_of_cons in H as [H|H]; [by inversion H|]).
  by apply elem_of_nil in H.
Qed.

(** ** The Command Router *)

Lemma functionsTree_mapped n f :
  (n, f) ∈ functionsTree → is_Some (functionCommandMapping !! identifier f).
Proof.
  intros H.
  repeat (apply elem_of_cons in H as [H|H]; [inversion H; by eexists|]).
  by apply elem_of_nil in H.
Qed.

(** The routing of an invocation by the lookup of its identifier in
    [functionCommandMapping], for every identifier but the names of the
    members plain objects inherit, which the lookup would find.
    - An identifier that is no key: the handler reports success and
      writes nothing.
    - A key, and the active connection is writable: the handler writes the
      mapped command followed by CR LF, once, to that connection, and
      reports success.
    - A key, and no writable connection: the handler reports failure with
      the reason "vMix connection not available." and writes nothing.
    ["Stinger 2"] is mapped to ["FUNCTION STINGER2"], and the functions of
    the tree are all keys of the mapping. *)
Theorem invocation_routing (f : EmberFunction) (i : Invocation) (st : State) :
  let r := onInvocation f i st in
  (functionCommandMapping !! identifier f = None → identifier f ∉ objectPrototypeKeys →
     success (fst r) = true ∧ error (fst r) = None ∧ written (snd r) = written st)
  ∧ (∀ command, functionCommandMapping !! identifier f = Some command →
       (∀ s, writableConnection st = Some s →
          success (fst r) = true ∧ error (fst r) = None
          ∧ written (snd r) = written st ++ [(s, command ++ CRLF)])
       ∧ (writableConnection st = None →
          success (fst r) = false ∧ error (fst r) = Some notAvailable
          ∧ written (snd r) = written st))
  ∧ functionCommandMapping !! lit "Stinger 2" = Some (lit "FUNCTION STINGER2")
  ∧ (∀ n g, (n, g) ∈ functionsTree → is_Some (functionCommandMapping !! identifier g)).
Proof.
  cbv zeta. split_and!.
  - intros Hn Hk.
    assert (Hu : JS.get functionCommandMapping (identifier f) = Undefined)
      by by apply get_undefined.
    unfold onInvocation. rewrite Hu. simpl. done.
  - intros command Hc.
    assert (Hg : JS.get functionCommandMapping (identifier f) = Own command)
      by by apply get_own.
    assert (Ht : truthy (Own command) = true).
    { simpl. apply bool_decide_eq_true. by eapply commands_truthy. }
    unfold onInvocation. rewrite Hg, Ht.
    change (writableConnection (log LogInvocation st)) with (writableConnection st).
    split.
    + intros s Hs. rewrite Hs. simpl. done.
    + intros Hs. rewrite Hs. simpl. done.
  - vm_compute. reflexivity.
  - apply functionsTree_mapped.
Qed.

(** The three situations on concrete states: connected and writable, not
    connected, and an identifier the mapping does not have. *)
Lemma invocation_routing_witness :
  let stinger2 := {| identifier := lit "Stinger 2"; description := lit "Stinger 2" |} in
  let other := {| identifier := lit "Fade"; description := [] |} in
  let call := {| invocation_id := Some 5%Z |} in
  let connected := exec init [EvConnect 0] in
  written (snd (onInvocation stinger2 call connected))
    = written connected ++ [(0, lit "FUNCTION STINGER2" ++ CRLF)]
  ∧ success (fst (onInvocation stinger2 call init)) = false
  ∧ written (snd (onInvocation stinger2 call init)) = written init
  ∧ success (fst (onInvocation other call connected)) = true
  ∧ written (snd (onInvocation other call connected)) = written connected.
Proof.
  cbv zeta.
  pose proof (invocation_routing
    {| identifier := lit "Stinger 2"; description := lit "Stinger 2" |}
    {| invocation_id := Some 5%Z |} (exec init [EvConnect 0])) as (_ & H1 & H0 & _).
  pose proof (invocation_routing
    {| identifier := lit "Stinger 2"; description := lit "Stinger 2" |}
    {| invocation_id := Some 5%Z |} init) as (_ & H2 & _).
  pose proof (invocation_routing
    {| identifier := lit "Fade"; description := [] |}
    {| invocation_id := Some 5%Z |} (exec init [EvConnect 0])) as (H3 & _).
  cbv zeta in *.
  destruct (H1 _ H0) as [H1a _]. destruct (H2 _ H0) as [_ H2b].
  destruct (H1a 0 eq_refl) as (_ & _ & Hw1).
  destruct (H2b eq_refl) as (Hs2 & _ & Hw2).
  destruct (H3 ltac:(vm_compute; reflexivity)
               ltac:(compute_done)) as (Hs3 & _ & Hw3).
  repeat split; assumption.
Defined.


(** C10.  Whatever the outcome (command sent, connection not available,
    or identifier not handled), the result carries the id of the invocation
    it answers. *)
Theorem invocation_result_id (f : EmberFunction) (i : Invocation) (st : State) :
  id (fst (onInvocation f i st)) = invocation_id i.
Proof.
  unfold onInvocation.
  destruct (truthy _); [destruct (writableConnection _)|]; reflexivity.
Qed.

(** The three outcomes, with their ids. *)
Example invocation_result_id_branches :
  let stinger2 := {| identifier := lit "Stinger 2"; description := lit "Stinger 2" |} in
  let other := {| identifier := lit "Fade"; description := [] |} in
  let call := {| invocation_id := Some 5%Z |} in
  let connected := exec init [EvConnect 0] in
  fst (onInvocation stinger2 call connected)
    = {| id := Some 5%Z; success := true; error := None |}
  ∧ fst (onInvocation stinger2 call init)
    = {| id := Some 5%Z; success := false; error := Some notAvailable |}
  ∧ fst (onInvocation other call init)
    = {| id := Some 5%Z; success := true; error := None |}.
Proof. vm_compute. done. Qed.

(** ** Set-value requests *)

(** C9.  A set-value request on any node with any value is accepted: the
    handler answers [true], the node holds exactly the requested value
    afterwards, [s.update] was called once with that node and value, no
    other node changes, and nothing about the device (connection, socket
    writes) is consulted or touched. *)
Theorem set_value_echo (node : Node) (value : EmberValue) (st : State) :
  let r := onSetValue node value st in
  fst r = true
  ∧ tree (snd r) node = value
  ∧ updates (snd r) = updates st ++ [(Handle node, value)]
  ∧ (∀ n, n ≠ node → tree (snd r) n = tree st n)
  ∧ written (snd r) = written st
  ∧ vmixConnection (snd r) = vmixConnection st
  ∧ clients (snd r) = clients st.
Proof.
  cbv zeta. unfold onSetValue. simpl.
  repeat split; try done.
  - apply fn_lookup_insert.
  - intros n Hn. by apply fn_lookup_insert_ne.
Qed.

(** ** The State Projector: tally lines *)

Lemma programTallyNodes_lookup i :
  i < 32 → programTallyNodes !! (i + 1) = Some (ProgramTallyNode (i + 1)).
Proof.
  intros H. do 32 (destruct i as [|i]; [vm_compute; reflexivity|]). lia.
Qed.

Lemma previewTallyNodes_lookup i :
  i < 32 → previewTallyNodes !! (i + 1) = Some (PreviewTallyNode (i + 1)).
Proof.
  intros H. do 32 (destruct i as [|i]; [vm_compute; reflexivity|]). lia.
Qed.

Lemma programValue_char t i c :
  t !! i = Some c → programValue t i = bool_decide (c = 49%N).
Proof.
  intros H. unfold programValue, charAt. rewrite H.
  change (lit "1") with [49%N].
  apply bool_decide_ext. split; congruence.
Qed.

Lemma previewValue_char t i c :
  t !! i = Some c → previewValue t i = bool_decide (c = 50%N).
Proof.
  intros H. unfold previewValue, charAt. rewrite H.
  change (lit "2") with [50%N].
  apply bool_decide_ext. split; congruence.
Qed.

Lemma tally_step_eq t st i :
  i < 32 →
  tally_step t st i =
    st |> log (LogProgramTally (i + 1) (programValue t i) (charAt i t))
       |> s_update (Handle (ProgramTallyNode (i + 1))) (VBool (programValue t i))
       |> log (LogPreviewTally (i + 1) (previewValue t i) (charAt i t))
       |> s_update (Handle (PreviewTallyNode (i + 1))) (VBool (previewValue t i)).
Proof.
  intros H. unfold tally_step.
  by rewrite programTallyNodes_lookup, previewTallyNodes_lookup.
Qed.

Lemma tally_loop_updates t k : ∀ a st,
  a + k ≤ 32 →
  updates (foldl (tally_step t) st (seq a k))
  = updates st ++ flat_map (tally_updates t) (seq a k).
Proof.
  induction k as [|k IH]; intros a st H; simpl.
  - by rewrite app_nil_r.
  - rewrite IH by lia. rewrite tally_step_eq by lia. simpl.
    by rewrite <- !app_assoc.
Qed.

Lemma tally_loop_tree t k : ∀ a st node,
  a + k ≤ 32 →
  tree (foldl (tally_step t) st (seq a k)) node =
    match node with
    | ProgramTallyNode j =>
        if decide (a < j ≤ a + k) then VBool (programValue t (j - 1)) else tree st node
    | PreviewTallyNode j =>
        if decide (a < j ≤ a + k) then VBool (previewValue t (j - 1)) else tree st node
    | _ => tree st node
    end.
Proof.
  induction k as [|k IH]; intros a st node H; simpl.
  - destruct node; try done; case_decide; done || lia.
  - rewrite IH by lia. rewrite tally_step_eq by lia. simpl.
    unfold insert, fn_insert.
    destruct node as [j|j| | |]; try done; repeat case_decide;
      try done; try lia; simplify_eq; try lia;
      first [ by replace (a + 1 - 1) with a by lia
            | exfalso; assert (j ≠ a + 1) by congruence; lia ].
Qed.

Lemma tally_line_eq line st :
  startsWith (lit "TALLY OK") line = true →
  handle_line line st =
    foldl (tally_step (substring_from 9 line))
          (st |> log (LogTallyString (substring_from 9 line)))
          (seq 0 (length (substring_from 9 line) `min` 32)).
Proof. intros H. unfold handle_line. by rewrite H. Qed.

(** C4.  A tally line is a line that starts with ["TALLY OK"]; its tally
    string is what follows the first nine characters.  For every position
    [i] below the length of the tally string and below 32, the report
    writes both handles of input [i+1]: Program to (character = '1') and
    Preview to (character = '2').  These are the only writes, in the order
    of the inputs, so characters from position 32 on write nothing, and
    every other node (the inputs beyond the length of the string among
    them) keeps its value. *)
Theorem tally_projection (line : jsstring) (st : State) :
  startsWith (lit "TALLY OK") line = true →
  let tallyString := substring_from 9 line in
  let n := length tallyString `min` 32 in
  let st' := handle_line line st in
  (∀ i c, i < 32 → tallyString !! i = Some c →
     (Handle (ProgramTallyNode (i + 1)), VBool (bool_decide (c = 49%N))) ∈ updates st'
     ∧ (Handle (PreviewTallyNode (i + 1)), VBool (bool_decide (c = 50%N))) ∈ updates st'
     ∧ tree st' (ProgramTallyNode (i + 1)) = VBool (bool_decide (c = 49%N))
     ∧ tree st' (PreviewTallyNode (i + 1)) = VBool (bool_decide (c = 50%N)))
  ∧ updates st' = updates st ++ flat_map (tally_updates tallyString) (seq 0 n)
  ∧ (∀ j, n < j →
       tree st' (ProgramTallyNode j) = tree st (ProgramTallyNode j)
       ∧ tree st' (PreviewTallyNode j) = tree st (PreviewTallyNode j))
  ∧ (∀ node, (∀ j, node ≠ ProgramTallyNode j ∧ node ≠ PreviewTallyNode j) →
       tree st' node = tree st node).
Proof.
  intros Hp. cbv zeta. rewrite (tally_line_eq _ _ Hp).
  set (t := substring_from 9 line).
  assert (Hn : 0 + length t `min` 32 ≤ 32) by lia.
  split; [|split; [|split]].
  - intros i c Hi Hc.
    assert (Hlt : i < length t) by by eapply lookup_lt_Some.
    rewrite tally_loop_updates by done.
    rewrite !tally_loop_tree by done. simpl.
    rewrite !decide_True by lia. replace (i + 1 - 1) with i by lia.
    rewrite <- (programValue_char t i c), <- (previewValue_char t i c) by done.
    repeat split; try done.
    + apply elem_of_app; right. apply list_elem_of_In, in_flat_map.
      exists i. split; [apply in_seq; lia | left; done].
    + apply elem_of_app; right. apply list_elem_of_In, in_flat_map.
      exists i. split; [apply in_seq; lia | right; left; done].
  - by rewrite tally_loop_updates.
  - intros j Hj. rewrite !tally_loop_tree by done. simpl.
    by rewrite !decide_False by lia.
  - intros node Hnode. rewrite tally_loop_tree by done. simpl.
    destruct node as [j|j| | |]; try done; by destruct (Hnode j).
Qed.

(** The report ["TALLY OK 0123"] on the initial tree: input 2 is on
    Program, input 3 on Preview, inputs 1 and 4 on neither, input 5 is not
    touched. *)
Lemma tally_projection_witness :
  let st' := handle_line (lit "TALLY OK 0123") init in
  tree st' (ProgramTallyNode 2) = VBool true
  ∧ tree st' (PreviewTallyNode 2) = VBool false
  ∧ tree st' (ProgramTallyNode 3) = VBool false
  ∧ tree st' (PreviewTallyNode 3) = VBool true
  ∧ tree st' (ProgramTallyNode 4) = VBool false
  ∧ tree st' (PreviewTallyNode 4) = VBool false
  ∧ tree st' (ProgramTallyNode 5) = tree init (ProgramTallyNode 5)
  ∧ length (updates st') = 8.
Proof.
  cbv zeta.
  destruct (tally_projection (lit "TALLY OK 0123") init eq_refl) as (Hi & Hu & Hj & _).
  cbv zeta in *.
  destruct (Hi 1 49%N ltac:(lia) eq_refl) as (_ & _ & H1 & H2).
  destruct (Hi 2 50%N ltac:(lia) eq_refl) as (_ & _ & H3 & H4).
  destruct (Hi 3 51%N ltac:(lia) eq_refl) as (_ & _ & H5 & H6).
  destruct (Hj 5 ltac:(simpl; lia)) as [H7 _].
  rewrite Hu. repeat split; assumption.
Defined.

(** ** The State Projector: activity lines *)

Lemma acts_line_eq line st :
  startsWith (lit "ACTS OK") line = true →
  handle_line line st =
    match split 32 line with
    | _ :: _ :: category :: valueStr :: _ =>
        let value := bool_decide (valueStr = lit "1") in
        match JS.get actsStatusNodes category with
        | Own n =>
            st |> log (LogActsUpdate category value valueStr)
               |> s_update (Handle n) (VBool value)
        | Inherited k =>
            st |> log (LogActsUpdate category value valueStr)
               |> s_update (Foreign k) (VBool value)
        | Undefined => st |> log (LogUnknownActs category)
        end
    | _ => st |> log (LogMalformedActs line)
    end.
Proof.
  intros H. unfold handle_line.
  destruct line as [|c line]; [done|].
  destruct (decide (65%N = c)) as [<-|Hc].
  - change (startsWith (lit "TALLY OK") (65%N :: line)) with false.
    cbv iota. by rewrite H.
  - change (lit "ACTS OK") with (65%N :: lit "CTS OK") in H.
    simpl in H. by rewrite decide_False in H.
Qed.

(** The table has the three categories and nothing else. *)
Lemma actsStatusNodes_lookup category n :
  actsStatusNodes !! category = Some n ↔
    (category = lit "Recording" ∧ n = ActsNode Recording)
    ∨ (category = lit "MultiCorder" ∧ n = ActsNode MultiCorder)
    ∨ (category = lit "Streaming" ∧ n = ActsNode Streaming).
Proof.
  split.
  - intros H. apply elem_of_list_to_map_2 in H.
    repeat (apply elem_of_cons in H as [H|H]; [inversion H; tauto|]).
    by apply elem_of_nil in H.
  - intros [[-> ->]|[[-> ->]|[-> ->]]]; vm_compute; reflexivity.
Qed.

(** What C5 says, for every category that is not the name of a member
    inherited from [Object.prototype]: with at least four tokens the third
    is the category and the fourth decides the value; a category of the
    table has its handle updated, any other category changes nothing; with
    fewer than four tokens nothing changes. *)
Lemma acts_projection (line : jsstring) (st : State) :
  startsWith (lit "ACTS OK") line = true →
  let st' := handle_line line st in
  (length (split 32 line) < 4 → updates st' = updates st ∧ tree st' = tree st)
  ∧ (∀ category valueStr,
       split 32 line !! 2 = Some category → split 32 line !! 3 = Some valueStr →
       category ∉ objectPrototypeKeys →
       match actsStatusNodes !! category with
       | Some n =>
           updates st' = updates st ++ [(Handle n, VBool (bool_decide (valueStr = lit "1")))]
           ∧ tree st' = <[n := VBool (bool_decide (valueStr = lit "1"))]> (tree st)
       | None => updates st' = updates st ∧ tree st' = tree st
       end).
Proof.
  intros Hp. cbv zeta. rewrite (acts_line_eq _ _ Hp). split.
  - intros Hlen. destruct (split 32 line) as [|p0 [|p1 [|p2 [|p3 ps]]]]; simpl in *; done || lia.
  - intros category valueStr H2 H3 Hk.
    destruct (split 32 line) as [|p0 [|p1 [|p2 [|p3 ps]]]]; simpl in *; try done.
    simplify_eq. unfold JS.get.
    destruct (actsStatusNodes !! category) as [n|]; [done|].
    by rewrite decide_False.
Qed.

(** The lines of the README. *)
Example acts_projection_readme :
  tree (handle_line (lit "ACTS OK Recording 1") init) (ActsNode Recording) = VBool true
  ∧ tree (handle_line (lit "ACTS OK Streaming 1") init) (ActsNode Streaming) = VBool true
  ∧ updates (handle_line (lit "ACTS OK MultiCorder 0") init)
    = [(Handle (ActsNode MultiCorder), VBool false)]
  ∧ updates (handle_line (lit "ACTS OK Recording") init) = []
  ∧ updates (handle_line (lit "ACTS OK Input 1") init) = [].
Proof. vm_compute. done. Qed.

(** The three reports of the README arriving in one chunk on an open
    connection. *)
Example acts_reports_end_to_end :
  let chunk := Utf8.ascii_bytes "ACTS OK Recording 1" ++ [Byte.x0d; Byte.x0a]
               ++ Utf8.ascii_bytes "ACTS OK MultiCorder 0" ++ [Byte.x0d; Byte.x0a]
               ++ Utf8.ascii_bytes "ACTS OK Streaming 1" ++ [Byte.x0d; Byte.x0a] in
  let st := exec init [EvConnect 0; EvData 0 chunk] in
  (tree st (ActsNode Recording), tree st (ActsNode MultiCorder), tree st (ActsNode Streaming))
  = (VBool true, VBool false, VBool true).
Proof. vm_compute. reflexivity. Qed.

(** C5, where the code departs from it.  ["constructor"] is no category of
    the table, yet [actsStatusNodes["constructor"]] is not [undefined]: the
    lookup finds the member every object inherits, and the handler calls
    [s.update] with it instead of taking the branch for unknown
    categories. *)
Theorem acts_inherited_category_updates :
  let line := lit "ACTS OK constructor 1" in
  actsStatusNodes !! lit "constructor" = None
  ∧ split 32 line = [lit "ACTS"; lit "OK"; lit "constructor"; lit "1"]
  ∧ updates (handle_line line init) = [(Foreign (lit "constructor"), VBool true)]
  ∧ console (handle_line line init)
    = console init ++ [LogActsUpdate (lit "constructor") true (lit "1")].
Proof. cbv zeta. repeat split; vm_compute; reflexivity. Qed.

(** ** The Line Decoder *)

Section StringLemmas.

Lemma startsWith_app_true p s x :
  startsWith p s = true → startsWith p (s ++ x) = true.
Proof.
  revert s. induction p as [|a p IH]; intros [|b s] H; simpl in *; try done.
  case_decide; [by apply IH | done].
Qed.

Lemma startsWith_app_long p s x :
  length p ≤ length s → startsWith p (s ++ x) = startsWith p s.
Proof.
  revert s. induction p as [|a p IH]; intros [|b s] H; simpl in *; try done; try lia.
  case_decide; [apply IH; lia | done].
Qed.

Lemma startsWith_length p s : startsWith p s = true → length p ≤ length s.
Proof.
  revert s. induction p as [|a p IH]; intros [|b s] H; simpl in *; try done; try lia.
  case_decide; [|done]. apply IH in H. lia.
Qed.

Lemma indexOf_bound p s i : indexOf p s = Some i → i + length p ≤ length s.
Proof.
  revert i. induction s as [|b s IH]; intros i.
  - simpl. destruct (startsWith p []) eqn:E; [|done].
    intros [= <-]. apply startsWith_length in E. simpl in *. lia.
  - cbn [indexOf]. destruct (startsWith p (b :: s)) eqn:E.
    + intros [= <-]. by apply startsWith_length in E.
    + destruct (indexOf p s) as [j|]; [|done]. intros [= <-].
      specialize (IH j eq_refl). simpl. lia.
Qed.

(** The first occurrence found in a buffer is still the first after more
    text has been appended. *)
Lemma indexOf_app p s x i : indexOf p s = Some i → indexOf p (s ++ x) = Some i.
Proof.
  revert i. induction s as [|b s IH]; intros i.
  - simpl. destruct (startsWith p []) eqn:E; [|done]. intros [= <-].
    destruct p; [|done]. by destruct x.
  - cbn [indexOf app]. change (b :: s ++ x) with ((b :: s) ++ x).
    destruct (startsWith p (b :: s)) eqn:E.
    + intros [= <-]. by rewrite startsWith_app_true.
    + destruct (indexOf p s) as [j|] eqn:Ej; [|done]. intros [= <-].
      apply indexOf_bound in Ej as Hb.
      rewrite startsWith_app_long, E by (simpl; lia).
      simpl. by rewrite (IH j).
Qed.

Lemma indexOf_None_nil p : p ≠ [] → indexOf p [] = None.
Proof. by destruct p. Qed.

End StringLemmas.

(** *** The loop *)

Lemma data_loop_fuel f1 : ∀ f2 buf st,
  length buf ≤ f1 → length buf ≤ f2 → data_loop f1 buf st = data_loop f2 buf st.
Proof.
  induction f1 as [|f1 IH]; intros f2 buf st H1 H2.
  - destruct buf; [|simpl in *; lia]. by destruct f2.
  - destruct f2 as [|f2].
    + destruct buf; [|simpl in *; lia]. done.
    + simpl. destruct (indexOf CRLF buf) as [i|] eqn:E; [|done].
      apply indexOf_bound in E. simpl in E.
      apply IH; unfold substring_from; rewrite length_drop; lia.
Qed.

(** The loop, as the source has it: it ends when the buffer holds no
    terminator, never for lack of fuel. *)
Lemma drain_eq buf st :
  drain buf st =
    match indexOf CRLF buf with
    | None => (buf, st)
    | Some lineEndIndex =>
        let line := trim (substring 0 lineEndIndex buf) in
        drain (substring_from (lineEndIndex + 2) buf)
              (st |> log (LogReceivedLine line) |> handle_line line)
    end.
Proof.
  unfold drain. destruct (indexOf CRLF buf) as [i|] eqn:E.
  - apply indexOf_bound in E as Hb. simpl in Hb.
    destruct (length buf) as [|n] eqn:En; [lia|].
    simpl. rewrite E. cbv zeta.
    apply data_loop_fuel; unfold substring_from; rewrite length_drop; lia.
  - destruct (length buf); simpl; by rewrite ?E.
Qed.

Lemma drain_app buf x : ∀ st,
  drain (buf ++ x) st = drain (fst (drain buf st) ++ x) (snd (drain buf st)).
Proof.
  remember (length buf) as n eqn:Hn. revert buf Hn.
  induction n as [n IH] using lt_wf_ind. intros buf -> st.
  rewrite (drain_eq buf). destruct (indexOf CRLF buf) as [i|] eqn:E; [|done].
  apply indexOf_bound in E as Hb. simpl in Hb.
  rewrite (drain_eq (buf ++ x)), (indexOf_app _ _ x _ E). cbv zeta.
  unfold substring, substring_from. rewrite !drop_0, Nat.sub_0_r.
  rewrite take_app_le, drop_app_le by lia.
  eapply IH; [|done]. rewrite length_drop. lia.
Qed.

Lemma startsWith_split p s : startsWith p s = true → s = p ++ drop (length p) s.
Proof.
  revert s. induction p as [|a p IH]; intros [|b s] H; simpl in *; try done.
  case_decide; [|done]. subst. f_equal. by apply IH.
Qed.

Lemma indexOf_split p s i :
  indexOf p s = Some i → s = take i s ++ p ++ drop (i + length p) s.
Proof.
  revert i. induction s as [|b s IH]; intros i.
  - simpl. destruct (startsWith p []) eqn:E; [|done]. intros [= <-].
    by destruct p.
  - cbn [indexOf]. destruct (startsWith p (b :: s)) eqn:E.
    + intros [= <-]. simpl. by apply startsWith_split.
    + destruct (indexOf p s) as [j|] eqn:Ej; [|done]. intros [= <-].
      simpl. f_equal. by apply IH.
  Qed.

(** *** What handling a line leaves alone *)

Lemma same_control_refl st : same_control st st.
Proof. by repeat split. Qed.

Lemma same_control_trans st1 st2 st3 :
  same_control st1 st2 → same_control st2 st3 → same_control st1 st3.
Proof. unfold same_control. intros (?&?&?&?&?&?&?) (?&?&?&?&?&?&?). repeat split; congruence. Qed.

Lemma same_control_log e st :
  match e with LogRetrying _ | LogConnected => False | _ => True end →
  same_control st (log e st).
Proof.
  intros He. repeat split. unfold backoffLog. simpl.
  rewrite omap_app. destruct e; try done; simpl; by rewrite app_nil_r.
Qed.

Lemma line_frame_refl st : line_frame st st.
Proof. split; [apply same_control_refl | done]. Qed.

Lemma line_frame_trans st1 st2 st3 :
  line_frame st1 st2 → line_frame st2 st3 → line_frame st1 st3.
Proof.
  intros [H1 E1] [H2 E2]. split; [by eapply same_control_trans | congruence].
Qed.

Lemma line_frame_log e st :
  match e with LogRetrying _ | LogConnected | LogReceivedLine _ => False | _ => True end →
  line_frame st (log e st).
Proof.
  intros He. split.
  - apply same_control_log. by destruct e.
  - unfold receivedLines. simpl.
    rewrite omap_app. destruct e; try done; simpl; by rewrite app_nil_r.
Qed.

Lemma line_frame_update t v st :
  t ≠ Handle VmixConnectedNode → line_frame st (s_update t v st).
Proof.
  intros Ht. split; [|done]. repeat split. unfold connectedFlag. simpl.
  destruct t as [n|k]; [|done]. apply fn_lookup_insert_ne. congruence.
Qed.

Lemma programTallyNodes_image k n : programTallyNodes !! k = Some n → n = ProgramTallyNode k.
Proof.
  intros H. apply elem_of_list_to_map_2, list_elem_of_fmap in H as (i & [= -> ->] & _). done.
Qed.

Lemma previewTallyNodes_image k n : previewTallyNodes !! k = Some n → n = PreviewTallyNode k.
Proof.
  intros H. apply elem_of_list_to_map_2, list_elem_of_fmap in H as (i & [= -> ->] & _). done.
Qed.

Ltac line_frame_steps :=
  repeat (first [ apply line_frame_refl
                | eapply line_frame_trans; [|apply line_frame_update; congruence]
                | eapply line_frame_trans; [|by apply line_frame_log] ]).

Lemma line_frame_tally_step t st i : line_frame st (tally_step t st i).
Proof.
  unfold tally_step.
  destruct (programTallyNodes !! (i + 1)) as [n|] eqn:En;
    destruct (previewTallyNodes !! (i + 1)) as [m|] eqn:Em;
    try apply programTallyNodes_image in En; try apply previewTallyNodes_image in Em; subst;
    line_frame_steps.
Qed.

Lemma line_frame_foldl {A} (f : State → A → State) l :
  (∀ st a, line_frame st (f st a)) → ∀ st, line_frame st (foldl f st l).
Proof.
  intros Hf. induction l as [|a l IH]; intros st; simpl.
  - apply line_frame_refl.
  - eapply line_frame_trans; [apply Hf | apply IH].
Qed.

Lemma line_frame_handle_line line st : line_frame st (handle_line line st).
Proof.
  unfold handle_line. destruct (startsWith _ line).
  - eapply line_frame_trans;
      [|apply line_frame_foldl, line_frame_tally_step].
    by apply line_frame_log.
  - destruct (startsWith _ line); [|by apply line_frame_log].
    destruct (split 32 line) as [|p0 [|p1 [|p2 [|p3 ps]]]];
      try by apply line_frame_log.
    unfold JS.get. destruct (actsStatusNodes !! p2) as [n|] eqn:En.
    + apply actsStatusNodes_lookup in En.
      eapply line_frame_trans;
        [|apply line_frame_update;
          destruct En as [[_ ->]|[[_ ->]|[_ ->]]]; congruence].
      by apply line_frame_log.
    + case_decide.
      * eapply line_frame_trans; [|by apply line_frame_update].
        by apply line_frame_log.
      * by apply line_frame_log.
Qed.

Lemma same_control_handle_line line st : same_control st (handle_line line st).
Proof. apply line_frame_handle_line. Qed.

(** An induction principle for the loop: whatever holds across the
    handling of one line holds across the whole loop. *)
Lemma drain_ind (P : State → State → Prop) :
  (∀ st, P st st) →
  (∀ st line st',
     P (st |> log (LogReceivedLine line) |> handle_line line) st' → P st st') →
  ∀ buf st, P st (snd (drain buf st)).
Proof.
  intros Hrefl Hstep buf.
  remember (length buf) as n eqn:Hn. revert buf Hn.
  induction n as [n IH] using lt_wf_ind. intros buf -> st.
  rewrite drain_eq. destruct (indexOf CRLF buf) as [i|] eqn:E; [|apply Hrefl].
  apply indexOf_bound in E. simpl in E. cbv zeta.
  eapply Hstep, IH; [|done]. unfold substring_from. rewrite length_drop. lia.
Qed.

Lemma same_control_drain buf st : same_control st (snd (drain buf st)).
Proof.
  apply (drain_ind same_control); [apply same_control_refl|].
  intros st0 line st' H.
  eapply same_control_trans; [|exact H].
  eapply same_control_trans; [|apply same_control_handle_line].
  by apply same_control_log.
Qed.

(** Line handling does not look at the clients. *)
Lemma tally_step_set_clients cs t st i :
  tally_step t (set_clients cs st) i = set_clients cs (tally_step t st i).
Proof.
  unfold tally_step.
  by destruct (programTallyNodes !! (i + 1)), (previewTallyNodes !! (i + 1)).
Qed.

Lemma handle_line_set_clients cs line st :
  handle_line line (set_clients cs st) = set_clients cs (handle_line line st).
Proof.
  unfold handle_line. destruct (startsWith _ line).
  - change (log ?e (set_clients cs st)) with (set_clients cs (log e st)).
    generalize (log (LogTallyString (substring_from 9 line)) st).
    generalize (seq 0 (length (substring_from 9 line) `min` 32)).
    intros l. induction l as [|i l IH]; intros st0; simpl; [done|].
    by rewrite tally_step_set_clients, IH.
  - destruct (startsWith _ line); [|done].
    destruct (split 32 line) as [|p0 [|p1 [|p2 [|p3 ps]]]]; try done.
    by destruct (JS.get actsStatusNodes p2).
Qed.

Lemma drain_set_clients cs buf : ∀ st,
  drain buf (set_clients cs st) = (fst (drain buf st), set_clients cs (snd (drain buf st))).
Proof.
  remember (length buf) as n eqn:Hn. revert buf Hn.
  induction n as [n IH] using lt_wf_ind. intros buf -> st.
  rewrite !(drain_eq buf). destruct (indexOf CRLF buf) as [i|] eqn:E; [|done].
  apply indexOf_bound in E. simpl in E. cbv zeta.
  change (log ?e (set_clients cs st)) with (set_clients cs (log e st)).
  rewrite handle_line_set_clients.
  eapply IH; [|done]. unfold substring_from. rewrite length_drop. lia.
Qed.

(** *** Decoding chunk by chunk *)

Lemma utf8_run_app st a b :
  Utf8.run st (a ++ b) =
    (fst (Utf8.run (fst (Utf8.run st a)) b),
     snd (Utf8.run st a) ++ snd (Utf8.run (fst (Utf8.run st a)) b)).
Proof.
  revert st. induction a as [|x a IH]; intros st; simpl.
  - by destruct (Utf8.run st b).
  - destruct (Utf8.step st x) as [st1 o1]. rewrite IH.
    destruct (Utf8.run st1 a) as [st2 o2]. simpl.
    destruct (Utf8.run st2 b) as [st3 o3]. simpl. by rewrite app_assoc.
Qed.

(** A chunk that ends between two characters decodes on its own to the
    text it contributes to the whole stream. *)
Lemma toString_app a b :
  Utf8.complete a = true → Utf8.toString (a ++ b) = Utf8.toString a ++ Utf8.toString b.
Proof.
  unfold Utf8.complete, Utf8.toString. intros H. rewrite utf8_run_app.
  destruct (Utf8.run None a) as [[p|] oa]; [done|]. simpl.
  destruct (Utf8.run None b) as [stb ob]. simpl. by rewrite app_nil_r, app_assoc.
Qed.

Lemma complete_app a b :
  Utf8.complete a = true → Utf8.complete b = true → Utf8.complete (a ++ b) = true.
Proof.
  unfold Utf8.complete. intros Ha Hb. rewrite utf8_run_app. simpl.
  by destruct (Utf8.run None a) as [[p|] oa].
Qed.

(** ASCII text is complete wherever it is cut. *)
Lemma ascii_complete bs :
  Forall (λ b, (Byte.to_N b <= 127)%N) bs → Utf8.complete bs = true.
Proof.
  unfold Utf8.complete. induction 1 as [|b bs Hb _ IH]; [done|].
  simpl. unfold Utf8.lead. apply N.leb_le in Hb. rewrite Hb.
  by destruct (Utf8.run None bs) as [[p|] o].
Qed.

Lemma on_data_app s a b st :
  Utf8.complete a = true → on_data s (a ++ b) st = on_data s b (on_data s a st).
Proof.
  intros Ha. unfold on_data at 1 3.
  destruct (clients st !! s) as [c|] eqn:Ec; [|unfold on_data; by rewrite Ec].
  rewrite toString_app, app_assoc by done.
  fold (drain (dataBuffer c ++ Utf8.toString a) st).
  fold (drain ((dataBuffer c ++ Utf8.toString a) ++ Utf8.toString b) st).
  rewrite drain_app.
  pose proof (same_control_drain (dataBuffer c ++ Utf8.toString a) st) as (_&_&Hc&_).
  destruct (drain (dataBuffer c ++ Utf8.toString a) st) as [r st1]. simpl in *.
  unfold on_data, set_dataBuffer. cbn [clients set_clients].
  rewrite list_lookup_alter_eq, Hc, Ec. simpl.
  fold (drain (r ++ Utf8.toString b)
          (set_clients (alter (λ c0, {| delayIndex := delayIndex c0; dataBuffer := r;
                                        phase := phase c0 |}) s (clients st)) st1)).
  rewrite drain_set_clients.
  pose proof (same_control_drain (r ++ Utf8.toString b) st1) as (_&_&Hc2&_).
  destruct (drain (r ++ Utf8.toString b) st1) as [r2 st2]. simpl in *.
  unfold set_clients. simpl. f_equal.
  rewrite Hc2, Hc, list_alter_alter_eq. by apply list_alter_ext.
Qed.

Lemma feed_complete s cs : ∀ c st,
  Forall (λ d, Utf8.complete d = true) cs →
  feed s (cs ++ [c]) st = on_data s (concat cs ++ c) st.
Proof.
  unfold feed. induction cs as [|d cs IH]; intros c st H; [done|].
  apply Forall_cons in H as [Hd Hcs]. simpl.
  rewrite IH by done. rewrite <- app_assoc. rewrite (on_data_app s d) by done.
  reflexivity.
Qed.

(** What one run of the loop does to a buffer: it cuts the complete lines
    off its front, in order, trims and reports each, and keeps the rest,
    which holds no terminator. *)
Lemma drain_spec buf : ∀ st,
  ∃ raw, buf = reassemble raw (fst (drain buf st))
         ∧ indexOf CRLF (fst (drain buf st)) = None
         ∧ receivedLines (snd (drain buf st)) = receivedLines st ++ map trim raw.
Proof.
  remember (length buf) as n eqn:Hn. revert buf Hn.
  induction n as [n IH] using lt_wf_ind. intros buf -> st.
  rewrite drain_eq. destruct (indexOf CRLF buf) as [i|] eqn:E.
  - apply indexOf_bound in E as Hb. simpl in Hb. cbv zeta.
    unfold substring, substring_from. rewrite drop_0, Nat.sub_0_r.
    edestruct (IH (length (drop (i + 2) buf))) as (raw & Hr & Hn & Hl);
      [rewrite length_drop; lia | done |].
    exists (take i buf :: raw). split; [|split].
    + unfold reassemble in *. simpl. rewrite <- !app_assoc, <- Hr.
      by apply (indexOf_split CRLF).
    + exact Hn.
    + rewrite Hl. clear Hl Hr Hn.
      assert (receivedLines (handle_line (trim (take i buf))
                (log (LogReceivedLine (trim (take i buf))) st))
              = receivedLines st ++ [trim (take i buf)]) as ->.
      2: { simpl. by rewrite <- app_assoc. }
      destruct (line_frame_handle_line (trim (take i buf))
                  (log (LogReceivedLine (trim (take i buf))) st)) as [_ ->].
      unfold receivedLines. simpl. by rewrite omap_app.
  - exists []. unfold reassemble. simpl. by rewrite app_nil_r.
Qed.

(** The [data] handler on one chunk: the lines it reports and the buffer
    it leaves, in terms of the old buffer and the decoded chunk. *)
Lemma on_data_spec s data st c :
  clients st !! s = Some c →
  ∃ raw rest,
    clients (on_data s data st) !! s
      = Some {| delayIndex := delayIndex c; dataBuffer := rest; phase := phase c |}
    ∧ dataBuffer c ++ Utf8.toString data = reassemble raw rest
    ∧ indexOf CRLF rest = None
    ∧ receivedLines (on_data s data st) = receivedLines st ++ map trim raw.
Proof.
  intros Ec. unfold on_data. rewrite Ec.
  fold (drain (dataBuffer c ++ Utf8.toString data) st).
  destruct (drain_spec (dataBuffer c ++ Utf8.toString data) st) as (raw & Hr & Hn & Hl).
  pose proof (same_control_drain (dataBuffer c ++ Utf8.toString data) st) as (_&_&Hc&_).
  destruct (drain (dataBuffer c ++ Utf8.toString data) st) as [rest st1]. simpl in *.
  exists raw, rest. repeat split; try done.
  by rewrite list_lookup_alter_eq, Hc, Ec.
Qed.

(** C6, as the code has it.  The handler decodes every chunk to text on
    its own ([data.toString()]) and buffers text.  When every chunk but the
    last ends between two characters (always so for the ASCII the device
    protocol uses, see [ascii_complete]), feeding the chunks one after the
    other leaves the program in exactly the state that feeding the whole
    stream at once does: the same lines reported in the same order, the
    same buffer.  A chunk boundary inside the CR LF terminator is such a
    boundary.  The lines reported are the complete lines of the old buffer
    followed by the text, each trimmed, and the trailing partial line,
    which holds no terminator, stays in the buffer. *)
Theorem line_decoder_chunking (s : nat) (chunks : list (list Utf8.byte))
    (last : list Utf8.byte) (st : State) :
  Forall (λ d, Utf8.complete d = true) chunks →
  feed s (chunks ++ [last]) st = on_data s (concat chunks ++ last) st
  ∧ receivedLines (feed s (chunks ++ [last]) st)
    = receivedLines (on_data s (concat chunks ++ last) st)
  ∧ ∀ c, clients st !! s = Some c →
      ∃ raw rest,
        dataBuffer <$> clients (feed s (chunks ++ [last]) st) !! s = Some rest
        ∧ dataBuffer c ++ Utf8.toString (concat chunks ++ last) = reassemble raw rest
        ∧ indexOf CRLF rest = None
        ∧ receivedLines (feed s (chunks ++ [last]) st) = receivedLines st ++ map trim raw.
Proof.
  intros H. rewrite feed_complete by done. repeat split.
  intros c Ec.
  destruct (on_data_spec s (concat chunks ++ last) st c Ec) as (raw & rest & H1 & H2 & H3 & H4).
  exists raw, rest. rewrite H1. done.
Qed.

(** A report cut in the middle of its terminator, and the next line cut
    in the middle of a word. *)
Lemma line_decoder_chunking_witness :
  let st := exec init [EvConnect 0] in
  let a := Utf8.ascii_bytes "TALLY OK 12" ++ [Byte.x0d] in
  let b := [Byte.x0a] ++ Utf8.ascii_bytes "ACTS OK Stre" in
  let c := Utf8.ascii_bytes "aming 1" ++ [Byte.x0d; Byte.x0a] ++ Utf8.ascii_bytes "AC" in
  Forall (λ d, Utf8.complete d = true) [a; b]
  ∧ feed 0 ([a; b] ++ [c]) st = on_data 0 (concat [a; b] ++ c) st
  ∧ receivedLines (feed 0 ([a; b] ++ [c]) st) = [lit "TALLY OK 12"; lit "ACTS OK Streaming 1"]
  ∧ dataBuffer <$> clients (feed 0 ([a; b] ++ [c]) st) !! 0 = Some (lit "AC").
Proof.
  cbv zeta.
  assert (H : Forall (λ d, Utf8.complete d = true)
                [Utf8.ascii_bytes "TALLY OK 12" ++ [Byte.x0d];
                 [Byte.x0a] ++ Utf8.ascii_bytes "ACTS OK Stre"])
    by (repeat constructor).
  split; [exact H|].
  destruct (line_decoder_chunking 0 _
              (Utf8.ascii_bytes "aming 1" ++ [Byte.x0d; Byte.x0a] ++ Utf8.ascii_bytes "AC")
              (exec init [EvConnect 0]) H) as (H1 & H2 & _).
  split; [exact H1|]. rewrite H1. split; vm_compute; reflexivity.
Defined.

(** For ASCII streams the chunk boundaries are arbitrary. *)
Corollary line_decoder_chunking_ascii s chunks last st :
  Forall (Forall (λ b, (Byte.to_N b <= 127)%N)) chunks →
  feed s (chunks ++ [last]) st = on_data s (concat chunks ++ last) st.
Proof.
  intros H. apply feed_complete.
  eapply Forall_impl; [exact H|]. intros d. apply ascii_complete.
Qed.

(** C6 as stated fails when a chunk boundary cuts a character: the two
    bytes of U+00E9 arrive in different chunks, each chunk is decoded on
    its own, and the line reported is two U+FFFD instead of U+00E9. *)
Lemma chunking_cuts_a_character :
  let st := exec init [EvConnect 0] in
  let chunks := [[Byte.xc3]; [Byte.xa9; Byte.x0d; Byte.x0a]] in
  receivedLines (feed 0 chunks st) = [[65533%N; 65533%N]]
  ∧ receivedLines (on_data 0 (concat chunks) st) = [[233%N]]
  ∧ receivedLines (feed 0 chunks st) ≠ receivedLines (on_data 0 (concat chunks) st).
Proof. cbv zeta. repeat split; try (vm_compute; reflexivity). vm_compute. discriminate. Qed.

(** ** The Connection Supervisor *)

(** *** The schedule of the code and the schedule of the specification *)

Lemma retryDelay_index_after k : retryDelay (index_after k) = expected_delay k.
Proof.
  unfold index_after. do 3 (destruct k as [|k]; [reflexivity|]).
  by replace (S (S (S k)) `min` 3) with 3 by lia.
Qed.

Lemma nextIndex_index_after k : nextIndex (index_after k) = index_after (S k).
Proof.
  unfold index_after. do 3 (destruct k as [|k]; [reflexivity|]).
  by replace (S (S (S k)) `min` 3) with 3 by lia.
Qed.

Lemma expected_delay_mono k : (expected_delay k ≤ expected_delay (S k))%N.
Proof. do 3 (destruct k as [|k]; [by vm_compute|]). reflexivity. Qed.

Lemma follows_schedule_app h h' : ∀ k,
  follows_schedule k (h ++ h') = follows_schedule k h ≫= λ k', follows_schedule k' h'.
Proof.
  induction h as [|[d|] h IH]; intros k; simpl; [done| |by rewrite IH].
  case_decide; [by rewrite IH | done].
Qed.

Lemma backoffLog_log e st :
  backoffLog (log e st) =
    backoffLog st ++ match e with
                     | LogRetrying d => [Retried d]
                     | LogConnected => [Succeeded]
                     | _ => []
                     end.
Proof. unfold backoffLog. simpl. rewrite omap_app. by destruct e. Qed.

(** *** Clients *)

Lemma phase_of_Some st s p :
  phase_of st s = Some p ↔ ∃ c, clients st !! s = Some c ∧ phase c = p.
Proof.
  unfold phase_of. rewrite fmap_Some. split.
  - intros (c & Hc & ->). by exists c.
  - intros (c & Hc & <-). by exists c.
Qed.

Lemma lookup_alter_Some (f : Client → Client) (cs : list Client) (s : nat) c :
  cs !! s = Some c → alter f s cs !! s = Some (f c).
Proof. intros H. by rewrite list_lookup_alter_eq, H. Qed.

Lemma alter_None (f : Client → Client) (cs : list Client) (s : nat) :
  cs !! s = None → alter f s cs = cs.
Proof.
  intros H. apply list_eq. intros j. destruct (decide (j = s)) as [->|Hne].
  - by rewrite list_lookup_alter_eq, H.
  - by rewrite list_lookup_alter_ne.
Qed.

Lemma others_closed_alter (f : Client → Client) (cs : list Client) (s : nat) :
  others_closed cs s → others_closed (alter f s cs) s.
Proof.
  intros H j c Hj Hne. rewrite list_lookup_alter_ne in Hj by done. by eapply H.
Qed.

Lemma all_closed_alter (f : Client → Client) (cs : list Client) (s : nat) c :
  cs !! s = Some c → others_closed cs s → phase (f c) = Closed →
  all_closed (alter f s cs).
Proof.
  intros Hs Ho Hf j cj Hj. destruct (decide (j = s)) as [->|Hne].
  - rewrite (lookup_alter_Some _ _ _ _ Hs) in Hj. by simplify_eq.
  - rewrite list_lookup_alter_ne in Hj by done. by eapply Ho.
Qed.

Lemma others_closed_snoc (cs : list Client) c :
  all_closed cs → others_closed (cs ++ [c]) (length cs).
Proof.
  intros H j cj Hj Hne. apply lookup_app_Some in Hj as [Hj|[Hge Hj]]; [by eapply H|].
  destruct (j - length cs) as [|n] eqn:E; [lia|]. by destruct n.
Qed.

Lemma lookup_snoc (cs : list Client) c : (cs ++ [c]) !! length cs = Some c.
Proof. by rewrite lookup_app_r, Nat.sub_diag by lia. Qed.

Lemma not_awaiting_close st :
  awaiting_close st = false ↔ ∀ j c, clients st !! j = Some c → phase c ≠ Errored.
Proof.
  unfold awaiting_close. rewrite bool_decide_eq_false, Exists_exists. split.
  - intros H j c Hj Hp. apply H. exists c. split; [|done]. by eapply list_elem_of_lookup_2.
  - intros H (c & Hin & Hp). apply list_elem_of_lookup in Hin as [j Hj]. by eapply H.
Qed.

(** *** The callbacks, once their tests are decided *)

Lemma scheduleReconnect_scheduled delay i st :
  reconnectScheduled st = true → scheduleReconnect delay i st = st.
Proof. intros H. unfold scheduleReconnect. by rewrite H. Qed.

Lemma scheduleReconnect_unscheduled delay i st :
  reconnectScheduled st = false →
  scheduleReconnect delay i st =
    st |> set_reconnectScheduled true
       |> log (LogRetrying delay)
       |> s_update (Handle VmixConnectedNode) (VBool false)
       |> setTimeout delay i.
Proof. intros H. unfold scheduleReconnect. by rewrite H. Qed.

Lemma step_close st s c :
  clients st !! s = Some c →
  step st (EvClose s) =
    st |> set_phase s Closed
       |> set_vmixConnection None
       |> log LogClosed
       |> scheduleReconnect (retryDelay (delayIndex c)) (nextIndex (delayIndex c)).
Proof.
  intros H. unfold step, on_close, set_phase. cbn [clients set_clients].
  by rewrite (lookup_alter_Some _ _ _ _ H).
Qed.

Lemma step_error_refused st s c :
  clients st !! s = Some c →
  step st (EvError s ECONNREFUSED) =
    st |> set_phase s Errored
       |> set_vmixConnection None
       |> log LogRefused
       |> scheduleReconnect (retryDelay (delayIndex c)) (nextIndex (delayIndex c)).
Proof.
  intros H. unfold step, on_error, set_phase. cbn [clients set_clients].
  rewrite (lookup_alter_Some _ _ _ _ H). by rewrite decide_True.
Qed.

Lemma step_error_other st s c code :
  clients st !! s = Some c → code ≠ ECONNREFUSED →
  step st (EvError s code) =
    st |> set_phase s Errored
       |> set_vmixConnection None
       |> log (LogConnectionError code).
Proof.
  intros H Hc. unfold step, on_error, set_phase. cbn [clients set_clients].
  rewrite (lookup_alter_Some _ _ _ _ H). by rewrite decide_False.
Qed.

Lemma step_timer st k d i :
  timers st !! k = Some (d, i) →
  step st (EvTimer k) =
    st |> set_timers (delete k (timers st))
       |> set_reconnectScheduled false
       |> connectToVMix i.
Proof. intros H. unfold step. by rewrite H. Qed.

(** A chunk of data changes the buffer of its client and nothing else the
    supervisor looks at. *)
Lemma on_data_control s data st :
  vmixConnection (on_data s data st) = vmixConnection st
  ∧ reconnectScheduled (on_data s data st) = reconnectScheduled st
  ∧ timers (on_data s data st) = timers st
  ∧ written (on_data s data st) = written st
  ∧ connectedFlag (on_data s data st) = connectedFlag st
  ∧ backoffLog (on_data s data st) = backoffLog st
  ∧ ∃ b, clients (on_data s data st)
         = alter (λ c, {| delayIndex := delayIndex c; dataBuffer := b; phase := phase c |})
                 s (clients st).
Proof.
  unfold on_data. destruct (clients st !! s) as [c|] eqn:Ec.
  - fold (drain (dataBuffer c ++ Utf8.toString data) st).
    pose proof (same_control_drain (dataBuffer c ++ Utf8.toString data) st)
      as (H1&H2&H3&H4&H5&H6&H7).
    destruct (drain (dataBuffer c ++ Utf8.toString data) st) as [b st1]. simpl in *.
    repeat split; try done. exists b. by rewrite H3.
  - repeat split; try done. exists []. by rewrite alter_None.
Qed.

(** An invocation touches the console and, at most, the socket. *)
Lemma onInvocation_control f i st :
  let st' := snd (onInvocation f i st) in
  vmixConnection st' = vmixConnection st
  ∧ reconnectScheduled st' = reconnectScheduled st
  ∧ clients st' = clients st
  ∧ timers st' = timers st
  ∧ tree st' = tree st
  ∧ backoffLog st' = backoffLog st
  ∧ ∃ more, written st' = written st ++ more.
Proof.
  cbv zeta. unfold onInvocation.
  destruct (truthy _); [destruct (writableConnection _)|]; simpl;
    repeat split; try done;
    try (unfold backoffLog; simpl; rewrite ?omap_app; simpl; by rewrite ?app_nil_r).
  - by eexists.
  - exists []. by rewrite app_nil_r.
  - exists []. by rewrite app_nil_r.
Qed.

Lemma subscribed_mono st st' s more :
  written st' = written st ++ more → subscribed st s → subscribed st' s.
Proof.
  intros H [H1 H2]. unfold subscribed. rewrite H. split; apply elem_of_app; by left.
Qed.

(** *** The invariant *)

Lemma sole_client (cs : list Client) s0 c0 s c :
  cs !! s0 = Some c0 → others_closed cs s0 →
  cs !! s = Some c → phase c ≠ Closed → s = s0 ∧ c = c0.
Proof.
  intros H0 Ho Hs Hp. destruct (decide (s = s0)) as [->|Hne].
  - split; [done|congruence].
  - by specialize (Ho _ _ Hs Hne).
Qed.

(** A healthy socket is the one the supervisor is attempting or has up;
    no retry is scheduled then. *)
Lemma healthy_mode st k s c :
  Mode st k → clients st !! s = Some c → healthy (phase c) →
  others_closed (clients st) s ∧ delayIndex c = index_after k
  ∧ timers st = [] ∧ reconnectScheduled st = false
  ∧ (phase c = Connecting → vmixConnection st = None)
  ∧ (phase c ≠ Connecting → vmixConnection st = Some s ∧ k = 0 ∧ subscribed st s).
Proof.
  intros M Hs Hh.
  assert (phase c ≠ Closed) by (destruct Hh as [->|[->| ->]]; done).
  destruct M as [s0 c0 H0 Ho Hp Hi Ht Hr Hv|s0 c0 H0 Ho Hp Hi Hk Hsub Ht Hr Hv
                |s0 c0 H0 Ho Hp Hi Ht Hr Hv|s0 c0 k' H0 Ho Hp Hk Ht Hr Hv
                |k' Ha Hk Ht Hr Hv].
  - destruct (sole_client _ _ _ _ _ H0 Ho Hs) as [-> ->]; [done|].
    split_and!; try done; congruence.
  - destruct (sole_client _ _ _ _ _ H0 Ho Hs) as [-> ->]; [done|].
    subst k. split_and!; try done. intros ?. destruct Hp; congruence.
  - destruct (sole_client _ _ _ _ _ H0 Ho Hs) as [-> ->]; [done|].
    destruct Hh as [?|[?|?]]; congruence.
  - destruct (sole_client _ _ _ _ _ H0 Ho Hs) as [-> ->]; [done|].
    destruct Hh as [?|[?|?]]; congruence.
  - by specialize (Ha _ _ Hs).
Qed.

Lemma enabled_healthy st s (ps : list (option Phase)) :
  phase_of st s ∈ ps → Forall (λ p, ∃ q, p = Some q ∧ healthy q) ps →
  ∃ c, clients st !! s = Some c ∧ healthy (phase c).
Proof.
  intros Hin Hall. rewrite Forall_forall in Hall.
  destruct (Hall _ Hin) as (q & Hq & Hh).
  apply phase_of_Some in Hq as (c & Hc & <-). by exists c.
Qed.

Lemma init_mode : Mode init 0.
Proof.
  apply (Attempting init 0 0 {| delayIndex := 0; dataBuffer := []; phase := Connecting |});
    try done.
  intros [|j] c Hj Hne; [done|]. by destruct j.
Qed.

Lemma init_inv : Inv init.
Proof. exists 0. split; [done | apply init_mode]. Qed.

Lemma inv_connect st s :
  Inv st → enabled st (EvConnect s) = true → Inv (step st (EvConnect s)).
Proof.
  intros (k & Hk & M) He. simpl in He.
  apply bool_decide_eq_true, phase_of_Some in He as (c & Hs & Hp).
  destruct (healthy_mode st k s c M Hs) as (Ho & Hi & Ht & Hr & Hv & _); [by left|].
  exists 0. split.
  - assert (backoffLog (step st (EvConnect s)) = backoffLog st ++ [Succeeded]) as ->
      by (unfold backoffLog; simpl; by rewrite omap_app).
    by rewrite follows_schedule_app, Hk.
  - eapply (Up _ 0 s); simpl; try done.
    + rewrite (lookup_alter_Some _ _ _ _ (lookup_alter_Some _ _ _ _ Hs)). done.
    + by do 2 apply others_closed_alter.
    + by left.
    + done.
    + split; apply elem_of_app; [left; apply elem_of_app|]; right; by apply list_elem_of_singleton.
Qed.

Ltac fields :=
  cbn [vmixConnection reconnectScheduled tree clients timers written updates console
       set_vmixConnection set_reconnectScheduled set_clients set_timers log write
       s_update setTimeout set_delayIndex set_dataBuffer set_phase connectToVMix
       on_timeout] in *.

Ltac backoff_log :=
  unfold backoffLog; fields; rewrite ?omap_app; cbn [omap list_omap]; by rewrite ?app_nil_r.

Lemma inv_data st s data :
  Inv st → enabled st (EvData s data) = true → Inv (step st (EvData s data)).
Proof.
  intros (k & Hk & M) He. simpl in He.
  apply bool_decide_eq_true, phase_of_Some in He as (c & Hs & Hp).
  destruct (healthy_mode st k s c M Hs) as (Ho & Hi & Ht & Hr & _ & Hv);
    [right; by left|].
  destruct Hv as (Hv & -> & Hsub); [congruence|].
  destruct (on_data_control s data st) as (E1 & E2 & E3 & E4 & E5 & E6 & b & E7).
  exists 0. simpl. split; [by rewrite E6|].
  eapply (Up _ 0 s); try congruence.
  - rewrite E7. by apply lookup_alter_Some.
  - rewrite E7. by apply others_closed_alter.
  - by left.
  - exact Hi.
  - unfold subscribed. by rewrite E4.
Qed.

Lemma inv_end st s :
  Inv st → enabled st (EvEnd s) = true → Inv (step st (EvEnd s)).
Proof.
  intros (k & Hk & M) He. simpl in He.
  apply bool_decide_eq_true, phase_of_Some in He as (c & Hs & Hp).
  destruct (healthy_mode st k s c M Hs) as (Ho & Hi & Ht & Hr & _ & Hv);
    [right; by left|].
  destruct Hv as (Hv & -> & Hsub); [congruence|].
  exists 0. split; [done|].
  change (step st (EvEnd s)) with (set_phase s HalfClosed st).
  apply (Up _ 0 s {| delayIndex := delayIndex c; dataBuffer := dataBuffer c;
                     phase := HalfClosed |}); fields; try done.
  - by rewrite (lookup_alter_Some _ _ _ _ Hs).
  - by apply others_closed_alter.
  - by right.
Qed.

Lemma inv_error st s code :
  Inv st → enabled st (EvError s code) = true → Inv (step st (EvError s code)).
Proof.
  intros (k & Hk & M) He. simpl in He. apply bool_decide_eq_true in He.
  eapply enabled_healthy in He as (c & Hs & Hh);
    [|repeat constructor; eexists; (split; [done|]); unfold healthy; tauto].
  destruct (healthy_mode st k s c M Hs Hh) as (Ho & Hi & Ht & Hr & _ & _).
  destruct (decide (code = ECONNREFUSED)) as [->|Hcode].
  - rewrite (step_error_refused _ _ _ Hs).
    rewrite scheduleReconnect_unscheduled by done.
    rewrite Hi, retryDelay_index_after, nextIndex_index_after.
    exists (S k). split.
    + assert (backoffLog (st |> set_phase s Errored |> set_vmixConnection None
                |> log LogRefused |> set_reconnectScheduled true
                |> log (LogRetrying (expected_delay k))
                |> s_update (Handle VmixConnectedNode) (VBool false)
                |> setTimeout (expected_delay k) (index_after (S k)))
              = backoffLog st ++ [Retried (expected_delay k)]) as -> by backoff_log.
      rewrite follows_schedule_app, Hk. simpl. by rewrite decide_True.
    + apply (FailingScheduled _ _ s {| delayIndex := delayIndex c;
               dataBuffer := dataBuffer c; phase := Errored |} k); fields; try done.
      * by rewrite (lookup_alter_Some _ _ _ _ Hs).
      * by apply others_closed_alter.
      * by rewrite Ht.
  - rewrite (step_error_other _ _ _ _ Hs Hcode).
    exists k. split.
    + assert (backoffLog (st |> set_phase s Errored |> set_vmixConnection None
                |> log (LogConnectionError code)) = backoffLog st) as -> by backoff_log.
      done.
    + apply (Failing _ _ s {| delayIndex := delayIndex c;
               dataBuffer := dataBuffer c; phase := Errored |}); fields; try done.
      * by rewrite (lookup_alter_Some _ _ _ _ Hs).
      * by apply others_closed_alter.
Qed.

Lemma inv_close st s :
  Inv st → enabled st (EvClose s) = true → Inv (step st (EvClose s)).
Proof.
  intros (k & Hk & M) He. simpl in He. apply bool_decide_eq_true in He.
  assert (∃ c, clients st !! s = Some c ∧ phase c ≠ Closed) as (c & Hs & Hp).
  { rewrite !elem_of_cons, elem_of_nil in He.
    destruct He as [He|[He|[He|[He|[]]]]];
      apply phase_of_Some in He as (c & Hc & Hp); exists c; split; congruence. }
  rewrite (step_close _ _ _ Hs).
  assert (unscheduled : ∀ k0,
    follows_schedule 0 (backoffLog st) = Some k0 → others_closed (clients st) s →
    delayIndex c = index_after k0 → timers st = [] → reconnectScheduled st = false →
    Inv (st |> set_phase s Closed |> set_vmixConnection None |> log LogClosed
            |> scheduleReconnect (retryDelay (delayIndex c)) (nextIndex (delayIndex c)))).
  { intros k0 Hk0 Ho Hi Ht Hr.
    rewrite scheduleReconnect_unscheduled by done.
    rewrite Hi, retryDelay_index_after, nextIndex_index_after.
    exists (S k0). split.
    - assert (backoffLog (st |> set_phase s Closed |> set_vmixConnection None
                |> log LogClosed |> set_reconnectScheduled true
                |> log (LogRetrying (expected_delay k0))
                |> s_update (Handle VmixConnectedNode) (VBool false)
                |> setTimeout (expected_delay k0) (index_after (S k0)))
              = backoffLog st ++ [Retried (expected_delay k0)]) as -> by backoff_log.
      rewrite follows_schedule_app, Hk0. simpl. by rewrite decide_True.
    - eapply (Waiting _ _ k0); fields; try done.
      + by eapply all_closed_alter.
      + by rewrite Ht. }
  destruct M as [s0 c0 H0 Ho Hp0 Hi Ht Hr Hv|s0 c0 H0 Ho Hp0 Hi Hk0 Hsub Ht Hr Hv
                |s0 c0 H0 Ho Hp0 Hi Ht Hr Hv|s0 c0 k' H0 Ho Hp0 Hk0 Ht Hr Hv
                |k' Ha Hk0 Ht Hr Hv];
    try (destruct (sole_client _ _ _ _ _ H0 Ho Hs Hp) as [-> ->]).
  - by apply (unscheduled k).
  - subst k. by apply (unscheduled 0).
  - by apply (unscheduled k).
  - rewrite scheduleReconnect_scheduled by done.
    exists k. split.
    + assert (backoffLog (st |> set_phase s0 Closed |> set_vmixConnection None
                |> log LogClosed) = backoffLog st) as -> by backoff_log.
      done.
    + eapply (Waiting _ _ k'); fields; try done.
      by eapply all_closed_alter.
  - by specialize (Ha _ _ Hs).
Qed.

Lemma awaiting_close_errored st s c :
  clients st !! s = Some c → phase c = Errored → awaiting_close st = true.
Proof.
  intros Hs Hp. apply bool_decide_eq_true, Exists_exists. exists c.
  split; [by eapply list_elem_of_lookup_2 | done].
Qed.

Lemma inv_timer st j :
  Inv st → enabled st (EvTimer j) = true → Inv (step st (EvTimer j)).
Proof.
  intros (k & Hk & M) He. simpl in He.
  apply andb_true_iff in He as [He Hq].
  apply bool_decide_eq_true in He as [[d i] Hj]. apply negb_true_iff in Hq.
  destruct M as [s0 c0 H0 Ho Hp0 Hi Ht Hr Hv|s0 c0 H0 Ho Hp0 Hi Hk0 Hsub Ht Hr Hv
                |s0 c0 H0 Ho Hp0 Hi Ht Hr Hv|s0 c0 k' H0 Ho Hp0 Hk0 Ht Hr Hv
                |k' Ha Hk0 Ht Hr Hv];
    try (rewrite Ht in Hj; done).
  - rewrite (awaiting_close_errored _ _ _ H0 Hp0) in Hq. done.
  - rewrite (step_timer _ _ _ _ Hj). rewrite Ht in Hj.
    destruct j as [|j]; [|done]. simpl in Hj. simplify_eq.
    exists (S k'). split.
    + assert (backoffLog (st |> set_timers (delete 0 (timers st))
                |> set_reconnectScheduled false |> connectToVMix (index_after (S k')))
              = backoffLog st) as -> by backoff_log.
      done.
    + apply (Attempting _ _ (length (clients st))
               {| delayIndex := index_after (S k'); dataBuffer := []; phase := Connecting |});
        fields; try done.
      * apply lookup_snoc.
      * by apply others_closed_snoc.
      * by rewrite Ht.
Qed.

(** A change that leaves the clients, the timers, the guard flag and the
    connection alone, and only adds to the socket writes, keeps the mode. *)
Lemma mode_ext st st' k more :
  clients st' = clients st → timers st' = timers st →
  reconnectScheduled st' = reconnectScheduled st →
  vmixConnection st' = vmixConnection st →
  written st' = written st ++ more →
  Mode st k → Mode st' k.
Proof.
  intros Ec Et Er Ev Ew M.
  destruct M as [s0 c0 H0 Ho Hp0 Hi Ht Hr Hv|s0 c0 H0 Ho Hp0 Hi Hk0 Hsub Ht Hr Hv
                |s0 c0 H0 Ho Hp0 Hi Ht Hr Hv|s0 c0 k' H0 Ho Hp0 Hk0 Ht Hr Hv
                |k' Ha Hk0 Ht Hr Hv].
  - eapply (Attempting _ _ s0); rewrite ?Ec, ?Et, ?Er, ?Ev; done.
  - eapply (Up _ _ s0); rewrite ?Ec, ?Et, ?Er, ?Ev; try done.
    by eapply subscribed_mono.
  - eapply (Failing _ _ s0); rewrite ?Ec, ?Et, ?Er, ?Ev; done.
  - eapply (FailingScheduled _ _ s0); rewrite ?Ec, ?Et, ?Er, ?Ev; done.
  - eapply (Waiting _ _ k'); rewrite ?Ec, ?Et, ?Er, ?Ev; done.
Qed.

Lemma inv_invocation st f i : Inv st → Inv (step st (EvInvocation f i)).
Proof.
  intros (k & Hk & M).
  destruct (onInvocation_control f i st) as (E1 & E2 & E3 & E4 & E5 & E6 & more & E7).
  exists k. simpl. split; [by rewrite E6|]. by eapply mode_ext.
Qed.

Lemma inv_setvalue st n v : Inv st → Inv (step st (EvSetValue n v)).
Proof.
  intros (k & Hk & M). exists k. split.
  - assert (backoffLog (step st (EvSetValue n v)) = backoffLog st) as ->
      by (simpl; backoff_log).
    done.
  - eapply (mode_ext st _ k []); try done. simpl. by rewrite app_nil_r.
Qed.

Lemma step_inv st e : Inv st → enabled st e = true → Inv (step st e).
Proof.
  intros H He. destruct e.
  - by apply inv_connect.
  - by apply inv_data.
  - by apply inv_end.
  - by apply inv_error.
  - by apply inv_close.
  - by apply inv_timer.
  - by apply inv_invocation.
  - by apply inv_setvalue.
Qed.

Lemma exec_inv tr : ∀ st, Inv st → admissible st tr = true → Inv (exec st tr).
Proof.
  induction tr as [|e tr IH]; intros st H Ha; [done|].
  simpl in Ha. apply andb_true_iff in Ha as [He Ha].
  simpl. apply IH; [by apply step_inv | done].
Qed.

(** *** The "vMix Connected" parameter *)

Lemma inv_timers_scheduled st :
  Inv st → length (timers st) ≤ 1 ∧ (reconnectScheduled st = true ↔ timers st ≠ []).
Proof.
  intros (k & _ & M).
  destruct M as [s0 c0 H0 Ho Hp0 Hi Ht Hr Hv|s0 c0 H0 Ho Hp0 Hi Hk0 Hsub Ht Hr Hv
                |s0 c0 H0 Ho Hp0 Hi Ht Hr Hv|s0 c0 k' H0 Ho Hp0 Hk0 Ht Hr Hv
                |k' Ha Hk0 Ht Hr Hv];
    rewrite Ht, Hr; simpl; split; try lia; split; done.
Qed.

Lemma inv_connection st s :
  Inv st → vmixConnection st = Some s →
  subscribed st s ∧ ∃ c, clients st !! s = Some c ∧ (phase c = Open ∨ phase c = HalfClosed).
Proof.
  intros (k & _ & M) Hs.
  destruct M as [s0 c0 H0 Ho Hp0 Hi Ht Hr Hv|s0 c0 H0 Ho Hp0 Hi Hk0 Hsub Ht Hr Hv
                |s0 c0 H0 Ho Hp0 Hi Ht Hr Hv|s0 c0 k' H0 Ho Hp0 Hk0 Ht Hr Hv
                |k' Ha Hk0 Ht Hr Hv];
    try congruence.
  assert (s = s0) as -> by congruence. split; [done|]. by exists c0.
Qed.

Lemma init_flag : FlagInv init.
Proof.
  unfold FlagInv. split_and!; try done.
  - by right.
  - by intros [? ?].
Qed.

Lemma step_flag st e :
  Inv st → FlagInv st → enabled st e = true → no_flag_write e = true →
  FlagInv (step st e).
Proof.
  intros HI (F1 & F2 & F3 & F4 & F5) He Hw.
  pose proof HI as (k & Hk & M).
  destruct e as [s|s data|s|s code|s|j|f i|n v]; simpl in He.
  - (* connect *)
    unfold FlagInv.
    assert (connectedFlag (step st (EvConnect s)) = VBool true) as ->
      by (unfold connectedFlag; simpl; apply fn_lookup_insert).
    assert (backoffLog (step st (EvConnect s)) = backoffLog st ++ [Succeeded]) as ->
      by (unfold backoffLog; simpl; by rewrite omap_app).
    simpl. split_and!; try done; try by left.
    intros _. apply elem_of_app. right. by apply list_elem_of_singleton.
  - (* data *)
    apply bool_decide_eq_true, phase_of_Some in He as (c & Hs & Hp).
    destruct (healthy_mode st k s c M Hs) as (_ & _ & _ & _ & _ & Hv);
      [right; by left|].
    destruct Hv as (Hv & _ & _); [congruence|].
    destruct (on_data_control s data st) as (E1 & E2 & E3 & E4 & E5 & E6 & _).
    unfold FlagInv. simpl. rewrite E1, E2, E5, E6.
    split_and!; try done; try (intros _ _; by rewrite Hv).
  - (* end *)
    apply bool_decide_eq_true, phase_of_Some in He as (c & Hs & Hp).
    destruct (healthy_mode st k s c M Hs) as (_ & _ & _ & _ & _ & Hv);
      [right; by left|].
    destruct Hv as (Hv & _ & _); [congruence|].
    unfold FlagInv. simpl.
    split_and!; try done; try (intros _ _; by rewrite Hv).
  - (* error *)
    apply bool_decide_eq_true in He.
    eapply enabled_healthy in He as (c & Hs & Hh);
      [|repeat constructor; eexists; (split; [done|]); unfold healthy; tauto].
    destruct (healthy_mode st k s c M Hs Hh) as (_ & _ & _ & Hr & _ & _).
    destruct (decide (code = ECONNREFUSED)) as [->|Hcode].
    + rewrite (step_error_refused _ _ _ Hs), scheduleReconnect_unscheduled by done.
      unfold FlagInv, connectedFlag. fields.
      rewrite fn_lookup_insert.
      split_and!; try done; try (by right); try (by intros [? ?]).
    + rewrite (step_error_other _ _ _ _ Hs Hcode).
      unfold FlagInv.
      assert (awaiting_close (st |> set_phase s Errored |> set_vmixConnection None
                |> log (LogConnectionError code)) = true) as ->.
      { eapply (awaiting_close_errored _ s); fields;
          [by rewrite (lookup_alter_Some _ _ _ _ Hs)|done]. }
      assert (backoffLog (st |> set_phase s Errored |> set_vmixConnection None
                |> log (LogConnectionError code)) = backoffLog st) as -> by backoff_log.
      unfold connectedFlag in *. fields.
      split_and!; try done; try (by intros [? ?]); try (by rewrite Hr).
  - (* close *)
    apply bool_decide_eq_true in He.
    assert (∃ c, clients st !! s = Some c) as (c & Hs).
    { rewrite !elem_of_cons, elem_of_nil in He.
      destruct He as [He|[He|[He|[He|[]]]]];
        apply phase_of_Some in He as (c & Hc & Hp); by exists c. }
    rewrite (step_close _ _ _ Hs).
    destruct (reconnectScheduled st) eqn:Hr.
    + rewrite scheduleReconnect_scheduled by done.
      specialize (F3 eq_refl).
      assert (backoffLog (st |> set_phase s Closed |> set_vmixConnection None
                |> log LogClosed) = backoffLog st) as E by backoff_log.
      unfold FlagInv. rewrite E. unfold connectedFlag in *. fields.
      rewrite F3.
      split_and!; try done; try (by right); try (by intros [? ?]).
    + rewrite scheduleReconnect_unscheduled by done.
      unfold FlagInv, connectedFlag. fields.
      rewrite fn_lookup_insert.
      split_and!; try done; try (by right); try (by intros [? ?]).
  - (* timer *)
    apply andb_true_iff in He as [He Hq].
    apply bool_decide_eq_true in He as [[d i] Hj].
    destruct (inv_timers_scheduled st HI) as [_ Hsch].
    assert (reconnectScheduled st = true) as Hr.
    { apply Hsch. intros E. by rewrite E in Hj. }
    specialize (F3 Hr).
    rewrite (step_timer _ _ _ _ Hj).
    assert (backoffLog (st |> set_timers (delete j (timers st))
              |> set_reconnectScheduled false |> connectToVMix i) = backoffLog st) as E
      by backoff_log.
    unfold FlagInv. rewrite E. unfold connectedFlag in *. fields.
    rewrite F3 in *. split_and!; try done; try (by right).
  - (* invocation *)
    destruct (onInvocation_control f i st) as (E1 & E2 & E3 & E4 & E5 & E6 & _).
    unfold FlagInv, awaiting_close, connectedFlag in *. simpl.
    rewrite E1, E2, E3, E5, E6. by split_and!.
  - (* set-value *)
    assert (n ≠ VmixConnectedNode) as Hn by (intros ->; done).
    assert (backoffLog (step st (EvSetValue n v)) = backoffLog st) as E
      by (simpl; backoff_log).
    unfold FlagInv. rewrite E. unfold awaiting_close, connectedFlag in *. simpl.
    rewrite fn_lookup_insert_ne by done. by split_and!.
Qed.

Lemma exec_flag tr : ∀ st,
  Inv st → FlagInv st → admissible st tr = true → forallb no_flag_write tr = true →
  FlagInv (exec st tr).
Proof.
  induction tr as [|e tr IH]; intros st HI HF Ha Hw; [done|].
  simpl in Ha, Hw. apply andb_true_iff in Ha as [He Ha]. apply andb_true_iff in Hw as [Hw1 Hw].
  simpl. apply IH; try done; [by apply step_inv | by apply step_flag].
Qed.

(** *** The parameter after a write of a client

    A set-value request aimed at the parameter is echoed; what the bridge
    writes next (the connect callback, or a retry being scheduled) puts
    the parameter right again, whatever the client had written. *)

Lemma flagWrites_log e st :
  flagWrites (log e st) = flagWrites st ++ from_option (λ b, [b]) [] (flag_writer e).
Proof.
  unfold flagWrites. fields. rewrite omap_app. cbn [omap list_omap].
  by destruct (flag_writer e).
Qed.

Lemma flagWrites_tally_step t st i : flagWrites (tally_step t st i) = flagWrites st.
Proof.
  unfold tally_step.
  destruct (programTallyNodes !! (i + 1)), (previewTallyNodes !! (i + 1));
    unfold flagWrites; fields; rewrite ?omap_app; cbn [omap list_omap flag_writer];
    by rewrite ?app_nil_r.
Qed.

Lemma flagWrites_handle_line line st : flagWrites (handle_line line st) = flagWrites st.
Proof.
  unfold handle_line. destruct (startsWith _ line).
  - transitivity (flagWrites (log (LogTallyString (substring_from 9 line)) st));
      [|by rewrite flagWrites_log, app_nil_r].
    generalize (log (LogTallyString (substring_from 9 line)) st).
    generalize (seq 0 (length (substring_from 9 line) `min` 32)).
    intros l. induction l as [|i l IH]; intros st0; simpl; [done|].
    by rewrite IH, flagWrites_tally_step.
  - destruct (startsWith _ line); [|by rewrite flagWrites_log, app_nil_r].
    destruct (split 32 line) as [|? [|? [|category [|valueStr ?]]]];
      try by rewrite flagWrites_log, app_nil_r.
    destruct (JS.get actsStatusNodes category);
      unfold flagWrites; fields; rewrite ?omap_app; cbn [omap list_omap flag_writer];
      by rewrite ?app_nil_r.
Qed.

Lemma flagWrites_on_data s data st : flagWrites (on_data s data st) = flagWrites st.
Proof.
  unfold on_data. destruct (clients st !! s) as [c|]; [|done].
  fold (drain (dataBuffer c ++ Utf8.toString data) st).
  assert (H : flagWrites (snd (drain (dataBuffer c ++ Utf8.toString data) st)) = flagWrites st).
  { apply (drain_ind (λ st0 st1, flagWrites st1 = flagWrites st0)); [done|].
    intros st0 line st' ->. by rewrite flagWrites_handle_line, flagWrites_log, app_nil_r. }
  by destruct (drain (dataBuffer c ++ Utf8.toString data) st) as [b st1].
Qed.

Lemma flagWrites_onInvocation f i st :
  flagWrites (snd (onInvocation f i st)) = flagWrites st.
Proof.
  unfold onInvocation.
  destruct (truthy _); [destruct (writableConnection _)|]; simpl;
    unfold flagWrites; fields; rewrite ?omap_app; cbn [omap list_omap flag_writer];
    by rewrite ?app_nil_r.
Qed.

Lemma client_set_flag_snoc st st' b :
  flagWrites st' = flagWrites st ++ [b] → client_set_flag st' = b.
Proof. unfold client_set_flag. intros ->. by rewrite last_snoc. Qed.

Lemma client_set_flag_same st st' :
  flagWrites st' = flagWrites st → client_set_flag st' = client_set_flag st.
Proof. unfold client_set_flag. by intros ->. Qed.

(** The connect callback sets the parameter right. *)
Lemma flag_connect st s :
  Inv st → enabled st (EvConnect s) = true → FlagInv (step st (EvConnect s)).
Proof.
  intros (k & Hk & M) He.
  unfold FlagInv.
  assert (connectedFlag (step st (EvConnect s)) = VBool true) as ->
    by (unfold connectedFlag; simpl; apply fn_lookup_insert).
  assert (backoffLog (step st (EvConnect s)) = backoffLog st ++ [Succeeded]) as ->
    by (unfold backoffLog; simpl; by rewrite omap_app).
  simpl. split_and!; try done; try by left.
  intros _. apply elem_of_app. right. by apply list_elem_of_singleton.
Qed.

(** So does [scheduleReconnect] when it schedules, after the handlers
    have cleared the connection. *)
Lemma flag_scheduled st d i e :
  reconnectScheduled st = false →
  FlagInv (st |> set_vmixConnection None |> log e |> scheduleReconnect d i).
Proof.
  intros Hr. rewrite scheduleReconnect_unscheduled by done.
  unfold FlagInv, connectedFlag. fields. rewrite fn_lookup_insert.
  split_and!; try done; try (by right); try (by intros [? ?]).
Qed.

Lemma step_flag_owned st e :
  Inv st → (client_set_flag st = false → FlagInv st) → enabled st e = true →
  client_set_flag (step st e) = false → FlagInv (step st e).
Proof.
  intros HI HF He Hc.
  destruct (no_flag_write e) eqn:Hw; cycle 1.
  { destruct e as [| | | | | | |n v]; try done. destruct n; try done.
    rewrite (client_set_flag_snoc st _ true) in Hc; [done|].
    simpl. unfold flagWrites. simpl. by rewrite omap_app. }
  destruct (client_set_flag st) eqn:Hs; [|by apply step_flag; [| apply HF | |]].
  pose proof HI as (k & Hk & M).
  destruct e as [s|s data|s|s code|s|j|f i|n v].
  - by apply flag_connect.
  - rewrite (client_set_flag_same st) in Hc; [congruence|]. apply flagWrites_on_data.
  - rewrite (client_set_flag_same st) in Hc; [congruence|done].
  - simpl in He. apply bool_decide_eq_true in He.
    eapply enabled_healthy in He as (c & Hcl & Hh);
      [|repeat constructor; eexists; (split; [done|]); unfold healthy; tauto].
    destruct (healthy_mode st k s c M Hcl Hh) as (_ & _ & _ & Hr & _ & _).
    destruct (decide (code = ECONNREFUSED)) as [->|Hcode].
    + rewrite (step_error_refused _ _ _ Hcl).
      change (st |> set_phase s Errored |> set_vmixConnection None)
        with (st |> set_phase s Errored |> set_vmixConnection None).
      by apply (flag_scheduled (set_phase s Errored st)).
    + rewrite (step_error_other _ _ _ _ Hcl Hcode) in Hc.
      rewrite (client_set_flag_same st) in Hc; [congruence|].
      unfold flagWrites. fields. rewrite omap_app. cbn [omap list_omap flag_writer].
      by rewrite app_nil_r.
  - simpl in He. apply bool_decide_eq_true in He.
    assert (∃ c, clients st !! s = Some c) as (c & Hcl).
    { rewrite !elem_of_cons, elem_of_nil in He.
      destruct He as [He|[He|[He|[He|[]]]]];
        apply phase_of_Some in He as (c & Hcl & Hp); by exists c. }
    rewrite (step_close _ _ _ Hcl) in *.
    destruct (reconnectScheduled st) eqn:Hr.
    + rewrite scheduleReconnect_scheduled in Hc by done.
      rewrite (client_set_flag_same st) in Hc; [congruence|].
      unfold flagWrites. fields. rewrite omap_app. cbn [omap list_omap flag_writer].
      by rewrite app_nil_r.
    + by apply (flag_scheduled (set_phase s Closed st)).
  - rewrite (client_set_flag_same st) in Hc; [congruence|].
    simpl. destruct (timers st !! j) as [[d i]|]; [|done].
    unfold flagWrites. fields. rewrite omap_app. cbn [omap list_omap flag_writer].
    by rewrite app_nil_r.
  - rewrite (client_set_flag_same st) in Hc; [congruence|]. apply flagWrites_onInvocation.
  - rewrite (client_set_flag_same st) in Hc; [congruence|].
    simpl. unfold flagWrites. simpl. rewrite omap_app. cbn [omap list_omap flag_writer].
    destruct n; try done; by rewrite app_nil_r.
Qed.

Lemma exec_flag_owned tr : ∀ st,
  Inv st → (client_set_flag st = false → FlagInv st) → admissible st tr = true →
  client_set_flag (exec st tr) = false → FlagInv (exec st tr).
Proof.
  induction tr as [|e tr IH]; intros st HI HF Ha; [done|].
  simpl in Ha. apply andb_true_iff in Ha as [He Ha].
  simpl. apply IH; try done; [by apply step_inv | by apply step_flag_owned].
Qed.

(** A run without any set-value request on the parameter is one of those
    in which the bridge wrote it last. *)
Lemma no_flag_write_owned tr : ∀ st,
  client_set_flag st = false → forallb no_flag_write tr = true →
  client_set_flag (exec st tr) = false.
Proof.
  induction tr as [|e tr IH]; intros st Hs Hw; [done|].
  simpl in Hw. apply andb_true_iff in Hw as [Hw1 Hw].
  simpl. apply IH; [|done].
  destruct (client_set_flag (step st e)) eqn:Hc; [|done].
  exfalso. revert Hc. unfold client_set_flag in *.
  assert (H : flagWrites (step st e) = flagWrites st
              ∨ flagWrites (step st e) = flagWrites st ++ [false]).
  { destruct e as [s|s data|s|s code|s|j|f i|n v]; simpl.
    - right. unfold flagWrites. simpl. by rewrite omap_app.
    - left. apply flagWrites_on_data.
    - by left.
    - unfold on_error. destruct (clients (set_phase s Errored st) !! s); [|by left].
      case_decide; [|left; unfold flagWrites; fields; rewrite omap_app; simpl;
                     by rewrite app_nil_r].
      unfold scheduleReconnect. fields. destruct (reconnectScheduled st);
        [left|right]; unfold flagWrites; fields; rewrite ?omap_app; simpl;
        by rewrite ?app_nil_r.
    - unfold on_close. destruct (clients (set_phase s Closed st) !! s); [|by left].
      unfold scheduleReconnect. fields. destruct (reconnectScheduled st);
        [left|right]; unfold flagWrites; fields; rewrite ?omap_app; simpl;
        by rewrite ?app_nil_r.
    - left. destruct (timers st !! j) as [[d i]|]; [|done].
      unfold flagWrites. fields. rewrite omap_app. simpl. by rewrite app_nil_r.
    - left. apply flagWrites_onInvocation.
    - left. unfold flagWrites. simpl. rewrite omap_app. simpl.
      destruct n; try done; by rewrite app_nil_r. }
  destruct H as [-> | ->]; [congruence|]. by rewrite last_snoc.
Qed.

Lemma settled_not_awaiting st : settled st = true → awaiting_close st = false.
Proof.
  unfold settled, awaiting_close. intros H%bool_decide_eq_true.
  apply bool_decide_eq_false. rewrite Exists_exists. intros (c & Hc & Hp).
  rewrite Forall_forall in H. by destruct (H c Hc).
Qed.

Lemma settled_phase st s c :
  settled st = true → clients st !! s = Some c → phase c ≠ HalfClosed ∧ phase c ≠ Errored.
Proof.
  unfold settled. intros H%bool_decide_eq_true Hs.
  rewrite Forall_forall in H. apply H. by eapply list_elem_of_lookup_2.
Qed.

(** C1, as the code has it.  Along every run of the program, whenever the
    last write to the "vMix Connected" parameter was made by the bridge
    (no set-value request has been aimed at the parameter since):
    - the parameter is [true] or [false];
    - whenever no socket is between its [end] or [error] event and its
      [close], it is [true] if and only if a connection is active, that
      is stored and writable, and the two subscriptions have been written
      to it;
    - whenever no socket is between its [error] event and its [close], it
      is [true] if and only if a connection is stored as active and the
      two subscriptions have been written to it;
    - whenever a connection is stored as active it is [true];
    - throughout every back-off window (a reconnect is scheduled) it is
      [false];
    - it is [false] until the first successful connection. *)
Theorem connected_flag (tr : list Event) :
  admissible init tr = true → client_set_flag (exec init tr) = false →
  let st := exec init tr in
  (connectedFlag st = VBool true ∨ connectedFlag st = VBool false)
  ∧ (settled st = true →
       (connectedFlag st = VBool true ↔ ∃ s, writableConnection st = Some s ∧ subscribed st s))
  ∧ (awaiting_close st = false →
       (connectedFlag st = VBool true ↔ ∃ s, vmixConnection st = Some s ∧ subscribed st s))
  ∧ (is_Some (vmixConnection st) → connectedFlag st = VBool true)
  ∧ (reconnectScheduled st = true → connectedFlag st = VBool false)
  ∧ (Succeeded ∉ backoffLog st → connectedFlag st = VBool false).
Proof.
  intros Ha Hw. cbv zeta.
  pose proof (exec_inv tr init init_inv Ha) as HI.
  pose proof (exec_flag_owned tr init init_inv (λ _, init_flag) Ha Hw) as (F1 & F2 & F3 & F4 & F5).
  assert (Hstored : ∀ s, writableConnection (exec init tr) = Some s →
            vmixConnection (exec init tr) = Some s).
  { intros s. unfold writableConnection.
    destruct (vmixConnection (exec init tr)) as [s'|]; [|done]. simpl.
    destruct (clients (exec init tr) !! s'); [|done]. simpl.
    destruct (socket_writable _); by intros [= ->]. }
  split_and!; try done.
  - intros Hq. split.
    + intros Hf. destruct (F4 (settled_not_awaiting _ Hq) Hf) as [s Hs]. exists s.
      destruct (inv_connection _ _ HI Hs) as (Hsub & c & Hc & Hp). split; [|done].
      destruct (settled_phase _ _ _ Hq Hc) as [Hh _].
      unfold writableConnection. rewrite Hs. simpl. rewrite Hc. simpl.
      destruct Hp as [-> | Hp]; [done|congruence].
    + intros (s & Hs & _). apply F2. rewrite (Hstored _ Hs). by eexists.
  - intros Hq. split.
    + intros Hf. destruct (F4 Hq Hf) as [s Hs]. exists s. split; [done|].
      by apply inv_connection.
    + intros (s & Hs & _). apply F2. by rewrite Hs.
  - intros Hn. destruct F1 as [Ht|Hf]; [|done]. by apply F5 in Ht.
Qed.

(** A client sets the parameter while the first attempt is under way; the
    attempt is refused, a retry succeeds, a tally report arrives, the
    device ends the stream and the socket closes.  The parameter is
    [false] once the retry is scheduled, [true] exactly while the
    connection is up, and [false] again once it is lost. *)
Lemma connected_flag_witness :
  let refused := [EvSetValue VmixConnectedNode (VBool true);
                  EvError 0 ECONNREFUSED; EvClose 0] in
  let up := refused ++ [EvTimer 0; EvConnect 1;
              EvData 1 (Utf8.ascii_bytes "TALLY OK 10" ++ [Byte.x0d; Byte.x0a])] in
  let lost := up ++ [EvEnd 1; EvClose 1] in
  (admissible init lost = true ∧ client_set_flag (exec init lost) = false)
  ∧ connectedFlag (exec init refused) = VBool false
  ∧ (connectedFlag (exec init up) = VBool true
     ∧ writableConnection (exec init up) = Some 1)
  ∧ connectedFlag (exec init lost) = VBool false.
Proof.
  cbv zeta. split; [split; vm_compute; reflexivity|].
  split_and!.
  - destruct (connected_flag [EvSetValue VmixConnectedNode (VBool true);
                              EvError 0 ECONNREFUSED; EvClose 0])
      as (_ & _ & _ & _ & H & _); [vm_compute; reflexivity..|].
    apply H. vm_compute. reflexivity.
  - destruct (connected_flag ([EvSetValue VmixConnectedNode (VBool true);
                               EvError 0 ECONNREFUSED; EvClose 0] ++ [EvTimer 0; EvConnect 1;
              EvData 1 (Utf8.ascii_bytes "TALLY OK 10" ++ [Byte.x0d; Byte.x0a])]))
      as (_ & _ & _ & H & _); [vm_compute; reflexivity..|].
    apply H. vm_compute. by eexists.
  - vm_compute. reflexivity.
  - destruct (connected_flag (([EvSetValue VmixConnectedNode (VBool true);
                                EvError 0 ECONNREFUSED; EvClose 0] ++ [EvTimer 0; EvConnect 1;
              EvData 1 (Utf8.ascii_bytes "TALLY OK 10" ++ [Byte.x0d; Byte.x0a])])
              ++ [EvEnd 1; EvClose 1]))
      as (_ & _ & _ & _ & H & _); [vm_compute; reflexivity..|].
    apply H. vm_compute. reflexivity.
Defined.

(** C1 as stated fails in three ways.  After a transport error other than
    a refused connection the active connection has been cleared while the
    parameter still reads [true], until the [close] event of the socket
    is handled.  After the device has ended the stream the socket is no
    longer writable, so no connection is active and an invocation fails,
    while the parameter still reads [true], again until [close].  And a
    set-value request on the parameter is echoed like any other: it reads
    [true] although nothing is connected. *)
Lemma connected_flag_not_always :
  (let tr := [EvConnect 0; EvError 0 (lit "ECONNRESET")] in
   admissible init tr = true
   ∧ connectedFlag (exec init tr) = VBool true
   ∧ vmixConnection (exec init tr) = None)
  ∧ (let tr := [EvConnect 0; EvEnd 0] in
     admissible init tr = true
     ∧ connectedFlag (exec init tr) = VBool true
     ∧ writableConnection (exec init tr) = None
     ∧ awaiting_close (exec init tr) = false
     ∧ success (fst (onInvocation {| identifier := lit "Stinger 2"; description := [] |}
                       {| invocation_id := None |} (exec init tr))) = false)
  ∧ (let tr := [EvSetValue VmixConnectedNode (VBool true)] in
     admissible init tr = true
     ∧ connectedFlag (exec init tr) = VBool true
     ∧ vmixConnection (exec init tr) = None
     ∧ awaiting_close (exec init tr) = false).
Proof. cbv zeta. split_and!; vm_compute; reflexivity. Qed.

(** C2.  Along every run, the history of scheduled retries and successful
    connections follows the schedule 2 s, 4 s, 16 s, then 30 s for ever,
    counted from the start or from the last success.  With [k] the number
    of consecutive failures so far, a failure of the live socket (its
    close, or a refused connection) schedules the retry after
    [expected_delay k] and leaves the index [index_after (S k)] for the
    next attempt; a pending timer carries the delay of the last failure;
    the connect callback sets the index of its client back to 0.  The
    delays of the schedule never decrease. *)
Theorem backoff_schedule (tr : list Event) :
  admissible init tr = true →
  let st := exec init tr in
  ∃ k, follows_schedule 0 (backoffLog st) = Some k
     ∧ (∀ s c, clients st !! s = Some c → healthy (phase c) →
          retryDelay (delayIndex c) = expected_delay k
          ∧ timers (step st (EvClose s)) = [(expected_delay k, index_after (S k))]
          ∧ timers (step st (EvError s ECONNREFUSED)) = [(expected_delay k, index_after (S k))]
          ∧ delayIndex <$> clients (step st (EvConnect s)) !! s = Some 0
          ∧ follows_schedule 0 (backoffLog (step st (EvConnect s))) = Some 0)
     ∧ (∀ d i, (d, i) ∈ timers st →
          ∃ k', k = S k' ∧ d = expected_delay k' ∧ retryDelay i = expected_delay k)
     ∧ (∀ j, (expected_delay j ≤ expected_delay (S j))%N)
     ∧ (expected_delay 0, expected_delay 1, expected_delay 2) = (2000, 4000, 16000)%N
     ∧ (∀ j, 3 ≤ j → expected_delay j = 30000%N).
Proof.
  intros Ha. cbv zeta.
  pose proof (exec_inv tr init init_inv Ha) as (k & Hk & M).
  exists k. split_and!; try done.
  - intros s c Hs Hh.
    destruct (healthy_mode _ k s c M Hs Hh) as (Ho & Hi & Ht & Hr & _ & _).
    split_and!.
    + by rewrite Hi, retryDelay_index_after.
    + rewrite (step_close _ _ _ Hs), scheduleReconnect_unscheduled by done.
      fields. by rewrite Ht, Hi, retryDelay_index_after, nextIndex_index_after.
    + rewrite (step_error_refused _ _ _ Hs), scheduleReconnect_unscheduled by done.
      fields. by rewrite Ht, Hi, retryDelay_index_after, nextIndex_index_after.
    + simpl. by rewrite (lookup_alter_Some _ _ _ _ (lookup_alter_Some _ _ _ _ Hs)).
    + assert (backoffLog (step (exec init tr) (EvConnect s))
              = backoffLog (exec init tr) ++ [Succeeded]) as ->
        by (unfold backoffLog; simpl; by rewrite omap_app).
      by rewrite follows_schedule_app, Hk.
  - intros d i Hin.
    destruct M as [s0 c0 H0 Ho Hp0 Hi Ht Hr Hv|s0 c0 H0 Ho Hp0 Hi Hk0 Hsub Ht Hr Hv
                  |s0 c0 H0 Ho Hp0 Hi Ht Hr Hv|s0 c0 k' H0 Ho Hp0 Hk0 Ht Hr Hv
                  |k' Ha' Hk0 Ht Hr Hv];
      rewrite Ht in Hin; try by apply elem_of_nil in Hin.
    all: apply list_elem_of_singleton in Hin as [= -> ->]; exists k';
      by rewrite retryDelay_index_after.
  - apply expected_delay_mono.
  - intros j Hj. do 3 (destruct j as [|j]; [lia|]). done.
Qed.

(** Five refused attempts in a row, a success, and the connection lost
    again: 2 s, 4 s, 16 s, 30 s, 30 s, then 2 s again. *)
Lemma backoff_schedule_witness :
  let fail s := [EvError s ECONNREFUSED; EvClose s; EvTimer 0] in
  let tr := fail 0 ++ fail 1 ++ fail 2 ++ fail 3 ++ fail 4 ++ [EvConnect 5; EvClose 5] in
  admissible init tr = true
  ∧ backoffLog (exec init tr)
    = [Retried 2000; Retried 4000; Retried 16000; Retried 30000; Retried 30000;
       Succeeded; Retried 2000]
  ∧ ∃ k, follows_schedule 0 (backoffLog (exec init tr)) = Some k.
Proof.
  cbv zeta. split; [vm_compute; reflexivity|]. split; [vm_compute; reflexivity|].
  destruct (backoff_schedule
    ([EvError 0 ECONNREFUSED; EvClose 0; EvTimer 0] ++ [EvError 1 ECONNREFUSED; EvClose 1; EvTimer 0]
     ++ [EvError 2 ECONNREFUSED; EvClose 2; EvTimer 0] ++ [EvError 3 ECONNREFUSED; EvClose 3; EvTimer 0]
     ++ [EvError 4 ECONNREFUSED; EvClose 4; EvTimer 0] ++ [EvConnect 5; EvClose 5])
    ltac:(vm_compute; reflexivity)) as (k & Hk & _).
  by exists k.
Defined.

(** *** Transport failures *)

(** The state right after a failure has been handled to its end, whether
    the retry was scheduled by the error handler or by the close handler. *)
Lemma failure_outcome st s c st' :
  clients st !! s = Some c → others_closed (clients st) s →
  clients st' = alter (λ c, {| delayIndex := delayIndex c; dataBuffer := dataBuffer c;
                               phase := Closed |}) s (clients st) →
  timers st' = [(retryDelay (delayIndex c), nextIndex (delayIndex c))] →
  tree st' = <[VmixConnectedNode := VBool false]> (tree st) →
  connectedFlag st' = VBool false
  ∧ (∀ n, n ≠ VmixConnectedNode → tree st' n = tree st n)
  ∧ admissible st' [EvTimer 0] = true
  ∧ phase_of (step st' (EvTimer 0)) (length (clients st)) = Some Connecting.
Proof.
  intros Hs Ho Ec Et Etree. unfold connectedFlag. rewrite Etree. split_and!.
  - apply fn_lookup_insert.
  - intros n Hn. by apply fn_lookup_insert_ne.
  - simpl. rewrite andb_true_r. apply andb_true_iff. split.
    + apply bool_decide_eq_true. rewrite Et. by eexists.
    + apply negb_true_iff, not_awaiting_close. rewrite Ec. intros j cj Hj.
      pose proof (all_closed_alter
        (λ c0, {| delayIndex := delayIndex c0; dataBuffer := dataBuffer c0; phase := Closed |})
        _ _ _ Hs Ho eq_refl) as Hall.
      by rewrite (Hall j cj Hj).
  - unfold step. rewrite Et. simpl. unfold phase_of. fields. rewrite Ec.
    rewrite <- (length_alter (λ c0, {| delayIndex := delayIndex c0;
                  dataBuffer := dataBuffer c0; phase := Closed |}) (clients st) s).
    by rewrite lookup_snoc.
Qed.

(** C7.  In every state the program can reach, let the live socket fail:
    with an error of any code followed by its [close], or with a [close]
    alone.  Both sequences can be delivered and handled; the error handler
    by itself already clears the active connection; once the failure has
    been handled the active connection is cleared, exactly one retry is
    pending, with the delay and next index of the current [delayIndex],
    the guard flag is set, and the "vMix Connected" parameter is [false].
    Nothing else shows: nothing is written to any socket, the only
    [s.update] is the one of the parameter, no other node changes.  The
    program goes on: the timer can fire and starts a new attempt. *)
Theorem transport_failure_recovery (tr : list Event) (s : nat) (c : Client)
    (code : jsstring) :
  admissible init tr = true →
  let st := exec init tr in
  clients st !! s = Some c → healthy (phase c) →
  admissible st [EvError s code; EvClose s] = true
  ∧ admissible st [EvClose s] = true
  ∧ vmixConnection (step st (EvError s code)) = None
  ∧ ∀ st', st' = exec st [EvError s code; EvClose s] ∨ st' = exec st [EvClose s] →
      vmixConnection st' = None
      ∧ timers st' = [(retryDelay (delayIndex c), nextIndex (delayIndex c))]
      ∧ reconnectScheduled st' = true
      ∧ connectedFlag st' = VBool false
      ∧ written st' = written st
      ∧ updates st' = updates st ++ [(Handle VmixConnectedNode, VBool false)]
      ∧ (∀ n, n ≠ VmixConnectedNode → tree st' n = tree st n)
      ∧ admissible st' [EvTimer 0] = true
      ∧ phase_of (step st' (EvTimer 0)) (length (clients st)) = Some Connecting.
Proof.
  intros Ha. cbv zeta. set (st := exec init tr). intros Hs Hh.
  pose proof (exec_inv tr init init_inv Ha) as (k & Hk & M). fold st in Hk, M.
  destruct (healthy_mode st k s c M Hs Hh) as (Ho & Hi & Ht & Hr & _ & _).
  assert (Hph : phase_of st s = Some (phase c)) by (apply phase_of_Some; by exists c).
  assert (He1 : enabled st (EvError s code) = true).
  { simpl. apply bool_decide_eq_true. rewrite Hph, !elem_of_cons.
    destruct Hh as [->|[->| ->]]; tauto. }
  assert (He2 : enabled st (EvClose s) = true).
  { simpl. apply bool_decide_eq_true. rewrite Hph, !elem_of_cons.
    destruct Hh as [->|[->| ->]]; tauto. }
  assert (Hs' : ∀ x, clients x = alter (λ c, {| delayIndex := delayIndex c;
                        dataBuffer := dataBuffer c; phase := Errored |}) s (clients st) →
                clients x !! s = Some {| delayIndex := delayIndex c;
                                         dataBuffer := dataBuffer c; phase := Errored |}).
  { intros x ->. by rewrite (lookup_alter_Some _ _ _ _ Hs). }
  assert (He3 : enabled (step st (EvError s code)) (EvClose s) = true).
  { simpl. apply bool_decide_eq_true.
    assert (phase_of (on_error s code (set_phase s Errored st)) s = Some Errored) as ->.
    { apply phase_of_Some.
      exists {| delayIndex := delayIndex c; dataBuffer := dataBuffer c; phase := Errored |}.
      split; [|reflexivity].
      destruct (decide (code = ECONNREFUSED)) as [->|Hc].
      - fold (step st (EvError s ECONNREFUSED)).
        rewrite (step_error_refused _ _ _ Hs), scheduleReconnect_unscheduled by done.
        by apply Hs'.
      - fold (step st (EvError s code)).
        rewrite (step_error_other _ _ _ _ Hs Hc). by apply Hs'. }
    rewrite !elem_of_cons. tauto. }
  split_and!.
  - cbn [admissible]. by rewrite He1, He3.
  - cbn [admissible]. by rewrite He2.
  - destruct (decide (code = ECONNREFUSED)) as [->|Hc].
    + by rewrite (step_error_refused _ _ _ Hs), scheduleReconnect_unscheduled.
    + by rewrite (step_error_other _ _ _ _ Hs Hc).
  - intros st' Hst'.
    assert (vmixConnection st' = None
            ∧ reconnectScheduled st' = true
            ∧ written st' = written st
            ∧ updates st' = updates st ++ [(Handle VmixConnectedNode, VBool false)]
            ∧ clients st' = alter (λ c, {| delayIndex := delayIndex c;
                                dataBuffer := dataBuffer c; phase := Closed |}) s (clients st)
            ∧ timers st' = [(retryDelay (delayIndex c), nextIndex (delayIndex c))]
            ∧ tree st' = <[VmixConnectedNode := VBool false]> (tree st))
      as (Hv & Hr' & Hw & Hu & Hc' & Ht' & Htree).
    { destruct Hst' as [-> | ->]; unfold exec; cbn [foldl].
      - destruct (decide (code = ECONNREFUSED)) as [->|Hc].
        + rewrite (step_error_refused _ _ _ Hs), scheduleReconnect_unscheduled by done.
          erewrite step_close by (by apply Hs').
          rewrite scheduleReconnect_scheduled by done.
          fields. rewrite Ht, list_alter_alter_eq. by split_and!.
        + rewrite (step_error_other _ _ _ _ Hs Hc).
          erewrite step_close by (by apply Hs').
          rewrite scheduleReconnect_unscheduled by done.
          fields. rewrite Ht, list_alter_alter_eq. by split_and!.
      - rewrite (step_close _ _ _ Hs), scheduleReconnect_unscheduled by done.
        fields. rewrite Ht. by split_and!. }
    destruct (failure_outcome st s c st' Hs Ho Hc' Ht' Htree) as (G1 & G2 & G3 & G4).
    by split_and!.
Qed.

(** An established connection is reset by the peer. *)
Lemma transport_failure_recovery_witness :
  let st := exec init [EvConnect 0] in
  let failed := exec st [EvError 0 (lit "ECONNRESET"); EvClose 0] in
  (admissible init [EvConnect 0] = true
   ∧ clients st !! 0 = Some {| delayIndex := 0; dataBuffer := []; phase := Open |}
   ∧ healthy Open)
  ∧ vmixConnection failed = None
  ∧ timers failed = [(2000%N, 1)]
  ∧ connectedFlag failed = VBool false
  ∧ admissible failed [EvTimer 0] = true.
Proof.
  cbv zeta.
  assert (Hh : healthy Open) by (right; by left).
  split; [by split_and!|].
  destruct (transport_failure_recovery [EvConnect 0] 0
              {| delayIndex := 0; dataBuffer := []; phase := Open |}
              (lit "ECONNRESET") eq_refl eq_refl Hh) as (_ & _ & _ & H).
  destruct (H _ (or_introl eq_refl)) as (H1 & H2 & _ & H4 & _ & _ & _ & H8 & _).
  by split_and!.
Defined.

(** *** The guard against double scheduling *)

Lemma guard_holds st s code :
  reconnectScheduled st = true →
  timers (step st (EvError s code)) = timers st
  ∧ timers (step st (EvClose s)) = timers st
  ∧ reconnectScheduled (step st (EvError s code)) = true
  ∧ reconnectScheduled (step st (EvClose s)) = true.
Proof.
  intros Hr. unfold step, on_error, on_close.
  destruct (clients (set_phase s Errored st) !! s) as [c1|];
    destruct (clients (set_phase s Closed st) !! s) as [c2|];
    try destruct (decide (code = ECONNREFUSED));
    rewrite ?scheduleReconnect_scheduled by done; by split_and!.
Qed.

(** C8.  In every state the program can reach at most one reconnect timer
    is pending, and the guard flag is set exactly while one is.  Whenever
    the guard flag is set, an error or close event of any socket schedules
    nothing and leaves the flag set.  The flag is cleared by no event but
    the firing of the timer and the connect callback. *)
Theorem single_reconnect_timer (tr : list Event) :
  admissible init tr = true →
  let st := exec init tr in
  length (timers st) ≤ 1
  ∧ (reconnectScheduled st = true ↔ timers st ≠ [])
  ∧ (∀ st0 s code, reconnectScheduled st0 = true →
       timers (step st0 (EvError s code)) = timers st0
       ∧ timers (step st0 (EvClose s)) = timers st0
       ∧ reconnectScheduled (step st0 (EvError s code)) = true
       ∧ reconnectScheduled (step st0 (EvClose s)) = true)
  ∧ (∀ st0 e, reconnectScheduled st0 = true → reconnectScheduled (step st0 e) = false →
       (∃ j, e = EvTimer j) ∨ (∃ s, e = EvConnect s)).
Proof.
  intros Ha. cbv zeta.
  destruct (inv_timers_scheduled _ (exec_inv tr init init_inv Ha)) as [H1 H2].
  split_and!; try done.
  - intros st0 s code. apply guard_holds.
  - intros st0 e Hr Hc. destruct e as [s|s data|s|s code|s|j|f i|n v].
    + right. by exists s.
    + destruct (on_data_control s data st0) as (_ & E & _).
      simpl in Hc. congruence.
    + simpl in Hc. congruence.
    + destruct (guard_holds st0 s code Hr) as (_ & _ & E & _). congruence.
    + destruct (guard_holds st0 s [] Hr) as (_ & _ & _ & E). congruence.
    + left. by exists j.
    + destruct (onInvocation_control f i st0) as (_ & E & _).
      simpl in Hc. congruence.
    + simpl in Hc. congruence.
Qed.

(** A refused attempt raises both an error and a close event: one timer. *)
Lemma single_reconnect_timer_witness :
  let tr := [EvError 0 ECONNREFUSED; EvClose 0] in
  admissible init tr = true
  ∧ timers (exec init [EvError 0 ECONNREFUSED]) = [(2000%N, 1)]
  ∧ timers (exec init tr) = [(2000%N, 1)]
  ∧ length (timers (exec init tr)) ≤ 1.
Proof.
  cbv zeta.
  destruct (single_reconnect_timer [EvError 0 ECONNREFUSED; EvClose 0] eq_refl)
    as (H1 & _ & H3 & _).
  destruct (H3 (exec init [EvError 0 ECONNREFUSED]) 0 [] eq_refl) as (_ & H & _).
  split_and!; [reflexivity | reflexivity | | exact H1].
  change (exec init [EvError 0 ECONNREFUSED; EvClose 0])
    with (step (exec init [EvError 0 ECONNREFUSED]) (EvClose 0)).
  rewrite H. reflexivity.
Defined.

(** * Part III: further properties of the code *)

(** ** Lines of the device *)

(** X1.  A chunk of data from the device is read-only for the link: the
    [data] handler never writes to a socket, never sets or clears the
    active connection, never touches the guard flag or the timers, never
    changes the "vMix Connected" parameter, and changes no client but by
    the buffer of the one the chunk arrived on. *)
Theorem data_leaves_the_link_alone (s : nat) (data : list Utf8.byte) (st : State) :
  let st' := on_data s data st in
  vmixConnection st' = vmixConnection st
  ∧ reconnectScheduled st' = reconnectScheduled st
  ∧ timers st' = timers st
  ∧ written st' = written st
  ∧ connectedFlag st' = connectedFlag st
  ∧ length (clients st') = length (clients st)
  ∧ (∀ j, j ≠ s → clients st' !! j = clients st !! j)
  ∧ phase <$> clients st' !! s = phase <$> clients st !! s
  ∧ delayIndex <$> clients st' !! s = delayIndex <$> clients st !! s.
Proof.
  cbv zeta.
  destruct (on_data_control s data st) as (E1 & E2 & E3 & E4 & E5 & _ & b & E7).
  rewrite E7. split_and!; try done.
  - apply length_alter.
  - intros j Hj. by apply list_lookup_alter_ne.
  - rewrite list_lookup_alter_eq. by destruct (clients st !! s).
  - rewrite list_lookup_alter_eq. by destruct (clients st !! s).
Qed.

Lemma reported_inputs_bound line : reported_inputs line ≤ 32.
Proof. unfold reported_inputs. lia. Qed.

Lemma tally_line_tree line st node :
  startsWith (lit "TALLY OK") line = true →
  tree (handle_line line st) node =
    match node with
    | ProgramTallyNode j =>
        if decide (0 < j ≤ reported_inputs line)
        then VBool (programValue (substring_from 9 line) (j - 1)) else tree st node
    | PreviewTallyNode j =>
        if decide (0 < j ≤ reported_inputs line)
        then VBool (previewValue (substring_from 9 line) (j - 1)) else tree st node
    | _ => tree st node
    end.
Proof.
  intros H. rewrite (tally_line_eq _ _ H).
  rewrite tally_loop_tree by (simpl; lia). simpl. done.
Qed.

(** What an activity line does to the tree does not depend on the tree:
    nothing, or one category set to one value. *)
Lemma acts_line_tree line :
  startsWith (lit "ACTS OK") line = true →
  (∀ st, tree (handle_line line st) = tree st)
  ∨ (∃ c v, ∀ st, tree (handle_line line st) = <[ActsNode c := VBool v]> (tree st)).
Proof.
  intros H.
  destruct (split 32 line) as [|p0 [|p1 [|p2 [|p3 ps]]]] eqn:E;
    try (left; intros st; rewrite (acts_line_eq _ _ H), E; done).
  destruct (JS.get actsStatusNodes p2) as [n|k|] eqn:G.
  - pose proof G as G0. apply get_own, actsStatusNodes_lookup in G0.
    right.
    assert (∃ c, n = ActsNode c) as [c ->]
      by (destruct G0 as [[_ ->]|[[_ ->]|[_ ->]]]; by eexists).
    exists c, (bool_decide (p3 = lit "1")). intros st.
    rewrite (acts_line_eq _ _ H), E. cbv zeta. by rewrite G.
  - left. intros st. rewrite (acts_line_eq _ _ H), E. cbv zeta. by rewrite G.
  - left. intros st. rewrite (acts_line_eq _ _ H), E. cbv zeta. by rewrite G.
Qed.

Lemma other_line_eq line st :
  startsWith (lit "TALLY OK") line = false → startsWith (lit "ACTS OK") line = false →
  handle_line line st = st |> log (LogOther line).
Proof. intros H1 H2. unfold handle_line. by rewrite H1, H2. Qed.

Lemma line_kinds line :
  startsWith (lit "TALLY OK") line = true
  ∨ (startsWith (lit "TALLY OK") line = false ∧ startsWith (lit "ACTS OK") line = true)
  ∨ (startsWith (lit "TALLY OK") line = false ∧ startsWith (lit "ACTS OK") line = false).
Proof.
  destruct (startsWith (lit "TALLY OK") line); [by left|].
  destruct (startsWith (lit "ACTS OK") line); right; [by left | by right].
Qed.

(** X2.  A line of the device changes only parameters of its own kind.  A
    node whose value differs after the line has been handled is the
    Program or Preview tally of an input the line reports (the line is a
    tally line), or the status of an activity category (the line is an
    activity line).  No line changes the "vMix Connected" parameter or any
    other element of the tree. *)
Theorem line_changes_only_its_parameters (line : jsstring) (st : State) (n : Node) :
  tree (handle_line line st) n ≠ tree st n →
  (startsWith (lit "TALLY OK") line = true
   ∧ ∃ i, 1 ≤ i ≤ reported_inputs line ∧ (n = ProgramTallyNode i ∨ n = PreviewTallyNode i))
  ∨ (startsWith (lit "ACTS OK") line = true ∧ ∃ c, n = ActsNode c).
Proof.
  intros Hne.
  destruct (line_kinds line) as [Ht|[[Ht Ha]|[Ht Ha]]].
  - left. split; [done|]. rewrite (tally_line_tree _ _ _ Ht) in Hne.
    destruct n as [j|j| | |]; try done; case_decide; try done;
      exists j; (split; [lia|]); [by left | by right].
  - right. split; [done|].
    destruct (acts_line_tree line Ha) as [E|(c & v & E)]; rewrite E in Hne; [done|].
    destruct (decide (n = ActsNode c)) as [->|Hn]; [by exists c|].
    by rewrite fn_lookup_insert_ne in Hne.
  - by rewrite (other_line_eq _ _ Ht Ha) in Hne.
Qed.

(** The report ["TALLY OK 1"] turns the Program tally of input 1 on. *)
Lemma line_changes_only_its_parameters_witness :
  tree (handle_line (lit "TALLY OK 1") init) (ProgramTallyNode 1)
    ≠ tree init (ProgramTallyNode 1)
  ∧ reported_inputs (lit "TALLY OK 1") = 1.
Proof.
  assert (H : tree (handle_line (lit "TALLY OK 1") init) (ProgramTallyNode 1)
              ≠ tree init (ProgramTallyNode 1)) by (vm_compute; discriminate).
  split; [exact H|].
  destruct (line_changes_only_its_parameters _ _ _ H) as [[_ (i & Hi & _)]|[Ha _]].
  - reflexivity.
  - vm_compute in Ha. discriminate.
Defined.

Lemma flat_map_tally_updates_length t l :
  length (flat_map (tally_updates t) l) = 2 * length l.
Proof. induction l as [|i l IH]; simpl; [done|]. rewrite IH. lia. Qed.

(** X3.  The number of [s.update] calls one line causes: a tally line,
    exactly two for each input it reports (so none for an empty tally
    string, and never more than 64 however long the line); any other
    line, at most one. *)
Theorem line_update_count (line : jsstring) (st : State) :
  let added := length (updates (handle_line line st)) - length (updates st) in
  length (updates st) ≤ length (updates (handle_line line st))
  ∧ (startsWith (lit "TALLY OK") line = true →
       added = 2 * reported_inputs line ∧ reported_inputs line = (length line - 9) `min` 32)
  ∧ (startsWith (lit "TALLY OK") line = false → added ≤ 1)
  ∧ added ≤ 64.
Proof.
  cbv zeta.
  destruct (line_kinds line) as [Ht|[[Ht Ha]|[Ht Ha]]].
  - rewrite (tally_line_eq _ _ Ht), tally_loop_updates by (simpl; lia).
    cbn [updates log].
    rewrite length_app, flat_map_tally_updates_length, length_seq.
    fold (reported_inputs line). pose proof (reported_inputs_bound line).
    split_and!; try lia; try (intros ?; congruence).
    intros _. split; [lia|]. unfold reported_inputs, substring_from.
    by rewrite length_drop.
  - assert (length (updates st) ≤ length (updates (handle_line line st))
            ≤ length (updates st) + 1) as Hb.
    { rewrite (acts_line_eq _ _ Ha).
      destruct (split 32 line) as [|p0 [|p1 [|p2 [|p3 ps]]]];
        try destruct (JS.get actsStatusNodes p2);
        cbv zeta; cbn [updates log s_update]; rewrite ?length_app; cbn [length]; lia. }
    split_and!; first [lia | intros ?; congruence].
  - rewrite (other_line_eq _ _ Ht Ha). cbn [updates log].
    split_and!; first [lia | intros ?; congruence].
Qed.

(** A tally line that ends with its prefix reports no input. *)
Lemma line_update_count_witness :
  startsWith (lit "TALLY OK") (lit "TALLY OK ") = true
  ∧ updates (handle_line (lit "TALLY OK ") init) = updates init
  ∧ length (updates (handle_line (lit "TALLY OK 012") init)) = 6.
Proof.
  split; [reflexivity|]. split; [reflexivity|].
  destruct (line_update_count (lit "TALLY OK 012") init) as (_ & H & _).
  destruct (H eq_refl) as [H1 _]. cbv zeta in H1.
  change (length (updates init)) with 0 in H1. rewrite Nat.sub_0_r in H1.
  rewrite H1. reflexivity.
Defined.

(** X4.  After a tally line no input it reports is on Program and on
    Preview at once. *)
Theorem tally_program_preview_exclusive (line : jsstring) (st : State) (i : nat) :
  startsWith (lit "TALLY OK") line = true →
  1 ≤ i ≤ reported_inputs line →
  ¬ (tree (handle_line line st) (ProgramTallyNode i) = VBool true
     ∧ tree (handle_line line st) (PreviewTallyNode i) = VBool true).
Proof.
  intros Ht Hi [H1 H2].
  rewrite (tally_line_tree _ _ _ Ht) in H1. rewrite (tally_line_tree _ _ _ Ht) in H2.
  rewrite decide_True in H1 by lia. rewrite decide_True in H2 by lia.
  unfold programValue, previewValue in *.
  injection H1 as H1. injection H2 as H2.
  apply bool_decide_eq_true in H1, H2. rewrite H1 in H2. discriminate.
Qed.

Lemma tally_program_preview_exclusive_witness :
  let st := handle_line (lit "TALLY OK 12") (handle_line (lit "TALLY OK 21") init) in
  (startsWith (lit "TALLY OK") (lit "TALLY OK 12") = true
   ∧ 1 ≤ 1 ≤ reported_inputs (lit "TALLY OK 12"))
  ∧ tree st (ProgramTallyNode 1) = VBool true
  ∧ tree st (PreviewTallyNode 1) ≠ VBool true.
Proof.
  cbv zeta.
  assert (H : 1 ≤ 1 ≤ reported_inputs (lit "TALLY OK 12")) by (vm_compute; lia).
  split; [by split|]. split; [reflexivity|]. intros Hp.
  apply (tally_program_preview_exclusive (lit "TALLY OK 12")
           (handle_line (lit "TALLY OK 21") init) 1 eq_refl H).
  split; [reflexivity | exact Hp].
Defined.

(** X5.  A tally report erases an earlier one that reported no more
    inputs: the tree after both is the tree after the later one alone.
    In particular handling the same report twice changes nothing more. *)
Theorem later_tally_report_overrides (l1 l2 : jsstring) (st : State) (n : Node) :
  startsWith (lit "TALLY OK") l1 = true → startsWith (lit "TALLY OK") l2 = true →
  reported_inputs l1 ≤ reported_inputs l2 →
  tree (handle_line l2 (handle_line l1 st)) n = tree (handle_line l2 st) n.
Proof.
  intros H1 H2 Hle.
  rewrite !(tally_line_tree l2) by done.
  destruct n as [j|j| | |]; try case_decide; try done;
    rewrite (tally_line_tree l1) by done; try done;
    by rewrite decide_False by lia.
Qed.

Lemma later_tally_report_overrides_witness :
  (startsWith (lit "TALLY OK") (lit "TALLY OK 11") = true
   ∧ startsWith (lit "TALLY OK") (lit "TALLY OK 020") = true
   ∧ reported_inputs (lit "TALLY OK 11") ≤ reported_inputs (lit "TALLY OK 020"))
  ∧ tree (handle_line (lit "TALLY OK 020") (handle_line (lit "TALLY OK 11") init))
         (ProgramTallyNode 1)
    = VBool false.
Proof.
  assert (H : reported_inputs (lit "TALLY OK 11") ≤ reported_inputs (lit "TALLY OK 020"))
    by (vm_compute; lia).
  split; [by split_and!|].
  rewrite (later_tally_report_overrides (lit "TALLY OK 11") (lit "TALLY OK 020") init
             (ProgramTallyNode 1) eq_refl eq_refl H).
  reflexivity.
Defined.

(** X6.  A value a client has set on the tally of an input lasts until
    the next report of that input: once a tally line that reports the
    input has been handled, the whole tree is as if the set-value request
    had never been made. *)
Theorem set_value_on_tally_erased_by_report (line : jsstring) (st : State)
    (i : nat) (v : EmberValue) (n : Node) :
  startsWith (lit "TALLY OK") line = true →
  1 ≤ i ≤ reported_inputs line →
  tree (handle_line line (snd (onSetValue (ProgramTallyNode i) v st))) n
    = tree (handle_line line st) n
  ∧ tree (handle_line line (snd (onSetValue (PreviewTallyNode i) v st))) n
    = tree (handle_line line st) n.
Proof.
  intros Ht Hi. rewrite !(tally_line_tree line) by done. simpl.
  split; destruct n as [j|j| | |]; try case_decide; try done;
    apply fn_lookup_insert_ne; intros [= ->]; lia.
Qed.

Lemma set_value_on_tally_erased_by_report_witness :
  let forced := snd (onSetValue (ProgramTallyNode 2) (VBool true) init) in
  (startsWith (lit "TALLY OK") (lit "TALLY OK 100") = true
   ∧ 1 ≤ 2 ≤ reported_inputs (lit "TALLY OK 100"))
  ∧ tree forced (ProgramTallyNode 2) = VBool true
  ∧ tree (handle_line (lit "TALLY OK 100") forced) (ProgramTallyNode 2) = VBool false.
Proof.
  cbv zeta.
  assert (H : 1 ≤ 2 ≤ reported_inputs (lit "TALLY OK 100")) by (vm_compute; lia).
  split; [by split|]. split; [reflexivity|].
  destruct (set_value_on_tally_erased_by_report (lit "TALLY OK 100") init 2 (VBool true)
              (ProgramTallyNode 2) eq_refl H) as [-> _].
  reflexivity.
Defined.

(** X7.  Tally lines and activity lines do not interfere: handled in
    either order they leave the same tree. *)
Theorem tally_and_acts_commute (tally acts : jsstring) (st : State) (n : Node) :
  startsWith (lit "TALLY OK") tally = true → startsWith (lit "ACTS OK") acts = true →
  tree (handle_line acts (handle_line tally st)) n
    = tree (handle_line tally (handle_line acts st)) n.
Proof.
  intros Ht Ha. rewrite (tally_line_tree tally _ _ Ht).
  destruct (acts_line_tree acts Ha) as [E|(c & v & E)]; rewrite !E.
  - by rewrite (tally_line_tree tally _ _ Ht).
  - unfold insert, fn_insert. case_decide as Hn.
    + by subst n.
    + rewrite (tally_line_tree tally _ _ Ht).
      destruct n as [j|j| | |]; try case_decide; try done.
Qed.

Lemma tally_and_acts_commute_witness :
  (startsWith (lit "TALLY OK") (lit "TALLY OK 12") = true
   ∧ startsWith (lit "ACTS OK") (lit "ACTS OK Streaming 1") = true)
  ∧ tree (handle_line (lit "TALLY OK 12") (handle_line (lit "ACTS OK Streaming 1") init))
         (ActsNode Streaming) = VBool true.
Proof.
  split; [by split|].
  rewrite <- (tally_and_acts_commute (lit "TALLY OK 12") (lit "ACTS OK Streaming 1") init
                (ActsNode Streaming) eq_refl eq_refl).
  reflexivity.
Defined.

(** ** The Line Decoder, continued *)

Lemma indexOf_terminator_here l x :
  unterminated l → indexOf CRLF (l ++ CRLF ++ x) = Some (length l).
Proof.
  unfold unterminated. induction l as [|b l IH]; intros H; [done|].
  cbn [indexOf] in H.
  destruct (startsWith CRLF (b :: l)) eqn:E; [done|].
  destruct (indexOf CRLF l) as [j|] eqn:Ej; [done|].
  cbn [indexOf app].
  assert (startsWith CRLF (b :: l ++ CRLF ++ x) = false) as ->.
  { unfold CRLF in *. destruct (decide (13%N = b)) as [<-|Hb].
    - destruct l as [|c l]; [reflexivity|].
      simpl in E.
      destruct (decide (10%N = c)) as [|Hc]; [done|].
      simpl. by rewrite decide_False.
    - simpl. by rewrite decide_False. }
  by rewrite IH.
Qed.

Lemma reassemble_cons l raw rest :
  reassemble (l :: raw) rest = l ++ CRLF ++ reassemble raw rest.
Proof. unfold reassemble. simpl. by rewrite <- !app_assoc. Qed.

Lemma receivedLines_line line st :
  receivedLines (st |> log (LogReceivedLine line) |> handle_line line)
  = receivedLines st ++ [line].
Proof.
  destruct (line_frame_handle_line line (log (LogReceivedLine line) st)) as [_ ->].
  unfold receivedLines. simpl. by rewrite omap_app.
Qed.

Lemma receivedLines_report lines : ∀ st,
  receivedLines (foldl report_line st lines) = receivedLines st ++ lines.
Proof.
  induction lines as [|l lines IH]; intros st; simpl; [by rewrite app_nil_r|].
  unfold report_line at 2. by rewrite IH, receivedLines_line, <- app_assoc.
Qed.

Lemma drain_reassemble raw rest : ∀ st,
  Forall unterminated raw → unterminated rest →
  drain (reassemble raw rest) st = (rest, foldl report_line st (map trim raw)).
Proof.
  induction raw as [|l raw IH]; intros st Hraw Hrest.
  - unfold reassemble. simpl. by rewrite drain_eq, Hrest.
  - apply Forall_cons in Hraw as [Hl Hraw].
    rewrite reassemble_cons, drain_eq, indexOf_terminator_here by done. cbv zeta.
    unfold substring, substring_from. rewrite drop_0, Nat.sub_0_r.
    rewrite take_app_length.
    replace (length l + 2) with (length (l ++ CRLF)) by (rewrite length_app; done).
    rewrite (app_assoc l CRLF), drop_app_length.
    by rewrite IH.
Qed.

(** X8.  Decoding undoes framing, and the lines are handled one at a
    time in the order they arrived.  When the buffer of a client followed
    by the text of a chunk is a sequence of lines, each without a
    terminator inside and each followed by CR LF, and then a rest without
    terminator, the handler does exactly this: it reports and handles
    each of these lines, trimmed, in order, and keeps the rest in the
    buffer. *)
Theorem line_decoder_inverts_framing (s : nat) (data : list Utf8.byte) (st : State)
    (c : Client) (raw : list jsstring) (rest : jsstring) :
  clients st !! s = Some c →
  dataBuffer c ++ Utf8.toString data = reassemble raw rest →
  Forall unterminated raw → unterminated rest →
  on_data s data st = foldl report_line st (map trim raw) |> set_dataBuffer s rest
  ∧ receivedLines (on_data s data st) = receivedLines st ++ map trim raw
  ∧ dataBuffer <$> clients (on_data s data st) !! s = Some rest.
Proof.
  intros Ec Hd Hraw Hrest.
  assert (E : on_data s data st
              = foldl report_line st (map trim raw) |> set_dataBuffer s rest).
  { unfold on_data. rewrite Ec, Hd.
    fold (drain (reassemble raw rest) st). by rewrite drain_reassemble. }
  pose proof (same_control_drain (reassemble raw rest) st) as (_&_&Hc&_).
  rewrite drain_reassemble in Hc by done. simpl in Hc.
  rewrite E. split_and!; [done| |].
  - change (receivedLines (set_dataBuffer s rest ?x)) with (receivedLines x).
    apply receivedLines_report.
  - simpl. by rewrite list_lookup_alter_eq, Hc, Ec.
Qed.

(** The end of one report is already buffered when the chunk arrives. *)
Lemma line_decoder_inverts_framing_witness :
  let st := exec init [EvConnect 0; EvData 0 (Utf8.ascii_bytes "TALLY OK 1")] in
  let data := Utf8.ascii_bytes "2" ++ [Byte.x0d; Byte.x0a]
              ++ Utf8.ascii_bytes " ACTS OK Streaming 1 " ++ [Byte.x0d; Byte.x0a]
              ++ Utf8.ascii_bytes "TAL" in
  let raw := [lit "TALLY OK 12"; lit " ACTS OK Streaming 1 "] in
  (clients st !! 0 = Some {| delayIndex := 0; dataBuffer := lit "TALLY OK 1"; phase := Open |}
   ∧ lit "TALLY OK 1" ++ Utf8.toString data = reassemble raw (lit "TAL")
   ∧ Forall unterminated raw ∧ unterminated (lit "TAL"))
  ∧ receivedLines (on_data 0 data st) = [lit "TALLY OK 12"; lit "ACTS OK Streaming 1"]
  ∧ dataBuffer <$> clients (on_data 0 data st) !! 0 = Some (lit "TAL").
Proof.
  cbv zeta.
  assert (H3 : Forall unterminated [lit "TALLY OK 12"; lit " ACTS OK Streaming 1 "])
    by (repeat constructor).
  split; [split_and!; try reflexivity; exact H3|].
  destruct (line_decoder_inverts_framing 0
    (Utf8.ascii_bytes "2" ++ [Byte.x0d; Byte.x0a]
       ++ Utf8.ascii_bytes " ACTS OK Streaming 1 " ++ [Byte.x0d; Byte.x0a]
       ++ Utf8.ascii_bytes "TAL")
    (exec init [EvConnect 0; EvData 0 (Utf8.ascii_bytes "TALLY OK 1")])
    {| delayIndex := 0; dataBuffer := lit "TALLY OK 1"; phase := Open |}
    [lit "TALLY OK 12"; lit " ACTS OK Streaming 1 "] (lit "TAL")
    eq_refl eq_refl H3 eq_refl) as (_ & H1 & H2).
  split; [|exact H2]. rewrite H1. reflexivity.
Defined.

(** *** The buffers along a run *)

Lemma clients_scheduleReconnect d i st : clients (scheduleReconnect d i st) = clients st.
Proof. unfold scheduleReconnect. by destruct (reconnectScheduled st). Qed.

Lemma clients_on_error s code st : clients (on_error s code st) = clients st.
Proof.
  unfold on_error. destruct (clients st !! s); [|done].
  case_decide; [by rewrite clients_scheduleReconnect | done].
Qed.

Lemma clients_on_close s st : clients (on_close s st) = clients st.
Proof.
  unfold on_close. destruct (clients st !! s); [|done].
  by rewrite clients_scheduleReconnect.
Qed.

Lemma bufinv_alter (f : Client → Client) (cs : list Client) (s : nat) st st' :
  clients st = cs → clients st' = alter f s cs →
  (∀ c, dataBuffer (f c) = dataBuffer c) →
  (∀ c, phase (f c) = Connecting → phase c = Connecting) →
  BufInv st → BufInv st'.
Proof.
  intros E E' Hb Hp H j c Hj. rewrite E' in Hj.
  destruct (decide (j = s)) as [->|Hne].
  - rewrite list_lookup_alter_eq in Hj. apply fmap_Some in Hj as (c0 & Hc0 & ->).
    rewrite <- E in Hc0. destruct (H _ _ Hc0) as [H1 H2].
    rewrite Hb. split; [done|]. intros Hc. apply H2. by apply Hp.
  - rewrite list_lookup_alter_ne in Hj by done. rewrite <- E in Hj. exact (H _ _ Hj).
Qed.

Lemma bufinv_step st e : BufInv st → enabled st e = true → BufInv (step st e).
Proof.
  intros H He. destruct e as [s|s data|s|s code|s|j|f i|n v]; simpl in He.
  - eapply (bufinv_alter (λ c, {| delayIndex := 0; dataBuffer := dataBuffer c; phase := Open |}));
      [reflexivity| | | |exact H]; try done.
    simpl. by rewrite list_alter_alter_eq.
  - apply bool_decide_eq_true, phase_of_Some in He as (c & Hs & Hp).
    destruct (on_data_spec s data st c Hs) as (raw & rest & H1 & _ & H3 & _).
    destruct (on_data_control s data st) as (_ & _ & _ & _ & _ & _ & b & E7).
    intros j cj Hj. simpl in Hj. destruct (decide (j = s)) as [->|Hne].
    + simpl in H1. rewrite H1 in Hj. simplify_eq. simpl. split; [done|].
      intros Hc. congruence.
    + rewrite E7, list_lookup_alter_ne in Hj by done. exact (H _ _ Hj).
  - by eapply (bufinv_alter (λ c, {| delayIndex := delayIndex c; dataBuffer := dataBuffer c;
                                     phase := HalfClosed |})).
  - eapply (bufinv_alter (λ c, {| delayIndex := delayIndex c; dataBuffer := dataBuffer c;
                                  phase := Errored |})); [reflexivity| | | |exact H]; try done.
    simpl. by rewrite clients_on_error.
  - eapply (bufinv_alter (λ c, {| delayIndex := delayIndex c; dataBuffer := dataBuffer c;
                                  phase := Closed |})); [reflexivity| | | |exact H]; try done.
    simpl. by rewrite clients_on_close.
  - simpl. destruct (timers st !! j) as [[d i]|]; [|done].
    intros k c Hk. simpl in Hk.
    apply lookup_app_Some in Hk as [Hk|[_ Hk]]; [exact (H _ _ Hk)|].
    destruct (k - length (clients st)) as [|m]; [|by destruct m].
    simpl in Hk. by simplify_eq.
  - destruct (onInvocation_control f i st) as (_ & _ & E & _).
    intros k c Hk. simpl in Hk. rewrite E in Hk. exact (H _ _ Hk).
  - exact H.
Qed.

Lemma bufinv_init : BufInv init.
Proof. intros [|[|s]] c Hs; [|done..]. simpl in Hs. by simplify_eq. Qed.

(** X9.  Between two events no receive buffer holds a complete line: the
    buffer of every client is free of the terminator, so every line is
    reported by the event that completes it; and the buffer of a socket
    that has not connected yet is empty, so nothing buffered on an
    earlier connection reaches a later one. *)
Theorem buffers_hold_no_complete_line (tr : list Event) (s : nat) (c : Client) :
  admissible init tr = true →
  clients (exec init tr) !! s = Some c →
  indexOf CRLF (dataBuffer c) = None
  ∧ (phase c = Connecting → dataBuffer c = []).
Proof.
  intros Ha. revert s c.
  change (BufInv (exec init tr)).
  assert (G : ∀ st, BufInv st → admissible st tr = true → BufInv (exec st tr)).
  { clear Ha. induction tr as [|e tr IH]; intros st H Hadm; [done|].
    simpl in Hadm. apply andb_true_iff in Hadm as [He Hadm].
    simpl. apply IH; [by apply bufinv_step | done]. }
  apply G; [apply bufinv_init | done].
Qed.

(** A partial line is left behind by a connection that closes; the next
    connection starts from an empty buffer. *)
Lemma buffers_hold_no_complete_line_witness :
  let tr := [EvConnect 0; EvData 0 (Utf8.ascii_bytes "TALLY OK 1"); EvClose 0; EvTimer 0] in
  (admissible init tr = true
   ∧ clients (exec init tr) !! 1
     = Some {| delayIndex := 1; dataBuffer := []; phase := Connecting |})
  ∧ dataBuffer <$> clients (exec init tr) !! 0 = Some (lit "TALLY OK 1")
  ∧ indexOf CRLF (lit "TALLY OK 1") = None.
Proof.
  cbv zeta. split; [by split|]. split; [reflexivity|].
  destruct (buffers_hold_no_complete_line
    [EvConnect 0; EvData 0 (Utf8.ascii_bytes "TALLY OK 1"); EvClose 0; EvTimer 0]
    0 {| delayIndex := 0; dataBuffer := lit "TALLY OK 1"; phase := Closed |}
    eq_refl eq_refl) as [H _].
  exact H.
Defined.

(** ** The Connection Supervisor, continued *)

(** X10.  The bridge holds one device connection at a time.  In every
    state it can reach, at most one socket is not closed; the active
    connection, when set, is a socket that has connected and has not
    failed or closed; a socket that is open is the active connection; and
    while a socket is connecting or connected no retry is scheduled. *)
Theorem one_live_socket (tr : list Event) :
  admissible init tr = true →
  let st := exec init tr in
  (∀ i j ci cj, clients st !! i = Some ci → clients st !! j = Some cj →
     phase ci ≠ Closed → phase cj ≠ Closed → i = j)
  ∧ (∀ s, vmixConnection st = Some s →
       ∃ c, clients st !! s = Some c ∧ (phase c = Open ∨ phase c = HalfClosed))
  ∧ (∀ s c, clients st !! s = Some c → phase c = Open ∨ phase c = HalfClosed →
       vmixConnection st = Some s)
  ∧ (∀ s c, clients st !! s = Some c → healthy (phase c) →
       timers st = [] ∧ reconnectScheduled st = false).
Proof.
  intros Ha. cbv zeta.
  pose proof (exec_inv tr init init_inv Ha) as HI.
  pose proof HI as (k & _ & M).
  split_and!.
  - intros i j ci cj Hi Hj Hpi Hpj.
    destruct M as [s0 c0 H0 Ho Hp0 Hx Ht Hr Hv|s0 c0 H0 Ho Hp0 Hx Hk0 Hsub Ht Hr Hv
                  |s0 c0 H0 Ho Hp0 Hx Ht Hr Hv|s0 c0 k' H0 Ho Hp0 Hk0 Ht Hr Hv
                  |k' Hall Hk0 Ht Hr Hv];
      try (destruct (sole_client _ _ _ _ _ H0 Ho Hi Hpi) as [-> _];
           destruct (sole_client _ _ _ _ _ H0 Ho Hj Hpj) as [-> _]; done).
    by specialize (Hall _ _ Hi).
  - intros s Hs. by apply inv_connection.
  - intros s c Hs Hp.
    destruct (healthy_mode _ k s c M Hs) as (_ & _ & _ & _ & _ & Hv).
    { destruct Hp as [->| ->]; [right; by left | right; by right]. }
    apply Hv. destruct Hp; congruence.
  - intros s c Hs Hh.
    by destruct (healthy_mode _ k s c M Hs Hh) as (_ & _ & Ht & Hr & _).
Qed.

Lemma one_live_socket_witness :
  let tr := [EvError 0 (lit "ETIMEDOUT"); EvClose 0; EvTimer 0; EvConnect 1] in
  admissible init tr = true
  ∧ phase <$> clients (exec init tr) = [Closed; Open]
  ∧ vmixConnection (exec init tr) = Some 1.
Proof.
  cbv zeta. split; [reflexivity|]. split; [reflexivity|].
  destruct (one_live_socket
    [EvError 0 (lit "ETIMEDOUT"); EvClose 0; EvTimer 0; EvConnect 1] eq_refl)
    as (_ & _ & H & _).
  apply (H 1 {| delayIndex := 0; dataBuffer := []; phase := Open |} eq_refl).
  by left.
Defined.

(** X11.  The supervisor never comes to rest.  In every state it can
    reach either some socket is alive, and its [close] can be delivered,
    or the retry timer is pending and can fire; when every socket is
    closed it is the timer. *)
Theorem never_stuck (tr : list Event) :
  admissible init tr = true →
  let st := exec init tr in
  ((∃ s, enabled st (EvClose s) = true) ∨ enabled st (EvTimer 0) = true)
  ∧ (all_closed (clients st) →
       enabled st (EvTimer 0) = true
       ∧ ∃ i, step st (EvTimer 0)
              = st |> set_timers [] |> set_reconnectScheduled false |> connectToVMix i).
Proof.
  intros Ha. cbv zeta.
  pose proof (exec_inv tr init init_inv Ha) as (k & _ & M).
  assert (closable : ∀ s c, clients (exec init tr) !! s = Some c → phase c ≠ Closed →
            enabled (exec init tr) (EvClose s) = true).
  { intros s c Hs Hp. simpl. apply bool_decide_eq_true.
    assert (phase_of (exec init tr) s = Some (phase c)) as ->
      by (apply phase_of_Some; by exists c).
    rewrite !elem_of_cons. destruct (phase c); tauto. }
  assert (waiting : ∀ d i, all_closed (clients (exec init tr)) →
            timers (exec init tr) = [(d, i)] →
            enabled (exec init tr) (EvTimer 0) = true).
  { intros d i Hall Ht. simpl. rewrite Ht. apply andb_true_iff. split.
    - apply bool_decide_eq_true. by eexists.
    - apply negb_true_iff, not_awaiting_close. intros j c Hj.
      by rewrite (Hall _ _ Hj). }
  destruct M as [s0 c0 H0 Ho Hp0 Hx Ht Hr Hv|s0 c0 H0 Ho Hp0 Hx Hk0 Hsub Ht Hr Hv
                |s0 c0 H0 Ho Hp0 Hx Ht Hr Hv|s0 c0 k' H0 Ho Hp0 Hk0 Ht Hr Hv
                |k' Hall Hk0 Ht Hr Hv].
  1-4: assert (phase c0 ≠ Closed)
         by (lazymatch type of Hp0 with
             | _ ∨ _ => destruct Hp0 as [Hp0|Hp0]
             | _ => idtac
             end; congruence);
       (split; [left; exists s0; by apply (closable _ _ H0)|]);
       intros Hall; by specialize (Hall _ _ H0).
  split; [right; by eapply waiting|].
  intros _. split; [by eapply waiting|].
  eexists. unfold step. rewrite Ht. simpl. reflexivity.
Qed.

Lemma never_stuck_witness :
  let tr := [EvConnect 0; EvEnd 0; EvClose 0] in
  admissible init tr = true
  ∧ enabled (exec init tr) (EvTimer 0) = true
  ∧ phase <$> clients (exec init (tr ++ [EvTimer 0])) = [Closed; Connecting].
Proof.
  cbv zeta. split; [reflexivity|].
  destruct (never_stuck [EvConnect 0; EvEnd 0; EvClose 0] eq_refl) as [_ H].
  destruct H as [H _].
  - intros [|[|j]] c Hj; [|done..]. simpl in Hj. by simplify_eq.
  - split; [exact H | reflexivity].
Defined.

(** X12.  What an invocation reports agrees with the "vMix Connected"
    parameter.  Along every run, whenever the last write to that
    parameter was made by the bridge, and for every function of the
    mapping: if the invocation succeeds, the parameter reads [true] and
    the mapped command followed by CR LF was written, once, to the open
    socket stored as the active connection; if the parameter reads
    [false], the invocation fails with "vMix connection not available."
    and nothing is written. *)
Theorem invocation_agrees_with_flag (tr : list Event) (f : EmberFunction) (i : Invocation)
    (command : jsstring) :
  admissible init tr = true → client_set_flag (exec init tr) = false →
  functionCommandMapping !! identifier f = Some command →
  let st := exec init tr in
  let r := onInvocation f i st in
  (success (fst r) = true →
     connectedFlag st = VBool true
     ∧ ∃ s, vmixConnection st = Some s ∧ phase_of st s = Some Open
            ∧ written (snd r) = written st ++ [(s, command ++ CRLF)])
  ∧ (connectedFlag st = VBool false →
       success (fst r) = false ∧ error (fst r) = Some notAvailable
       ∧ written (snd r) = written st).
Proof.
  intros Ha Hw Hc. cbv zeta.
  pose proof (exec_inv tr init init_inv Ha) as HI.
  pose proof (exec_flag_owned tr init init_inv (λ _, init_flag) Ha Hw) as (_ & F2 & _).
  set (st := exec init tr) in *.
  assert (Hg : JS.get functionCommandMapping (identifier f) = Own command)
    by by apply get_own.
  assert (Htr : truthy (Own command) = true).
  { simpl. apply bool_decide_eq_true. by eapply commands_truthy. }
  unfold onInvocation. rewrite Hg, Htr.
  change (writableConnection (log LogInvocation st)) with (writableConnection st).
  destruct (writableConnection st) as [s|] eqn:Hwc; simpl.
  - unfold writableConnection in Hwc.
    destruct (vmixConnection st) as [s'|] eqn:Hv; [|done]. simpl in Hwc.
    destruct (clients st !! s') as [c|] eqn:Hs; [|done]. simpl in Hwc.
    destruct (socket_writable (phase c)) eqn:Hp; [|done]. simplify_eq.
    destruct (inv_connection st s HI Hv) as (_ & c' & Hs' & Hp').
    assert (c' = c) as -> by congruence.
    assert (phase c = Open) as Ho by (destruct Hp' as [?|E]; [done|by rewrite E in Hp]).
    assert (Hf : connectedFlag st = VBool true) by (apply F2; by eexists).
    split.
    + intros _. split; [done|]. exists s. split_and!; try done.
      apply phase_of_Some. by exists c.
    + intros Hff. congruence.
  - split; [done|]. by intros _.
Qed.

(** Both outcomes, on a run in which a client had set the parameter
    before the bridge wrote it: with the connection up the command of
    "Stinger 2" goes to the socket; once the connection is lost the
    invocation fails. *)
Lemma invocation_agrees_with_flag_witness :
  let stinger := {| identifier := lit "Stinger 2"; description := lit "Stinger 2" |} in
  let call := {| invocation_id := None |} in
  let up := [EvSetValue VmixConnectedNode (VBool false); EvConnect 0] in
  let lost := up ++ [EvClose 0] in
  (admissible init up = true ∧ client_set_flag (exec init up) = false
   ∧ admissible init lost = true ∧ client_set_flag (exec init lost) = false
   ∧ functionCommandMapping !! identifier stinger = Some (lit "FUNCTION STINGER2"))
  ∧ (success (fst (onInvocation stinger call (exec init up))) = true
     ∧ connectedFlag (exec init up) = VBool true
     ∧ written (snd (onInvocation stinger call (exec init up)))
       = written (exec init up) ++ [(0, lit "FUNCTION STINGER2" ++ CRLF)])
  ∧ (connectedFlag (exec init lost) = VBool false
     ∧ success (fst (onInvocation stinger call (exec init lost))) = false).
Proof.
  cbv zeta.
  assert (H : functionCommandMapping !! lit "Stinger 2" = Some (lit "FUNCTION STINGER2"))
    by (vm_compute; reflexivity).
  split; [split_and!; try exact H; vm_compute; reflexivity|]. split.
  - destruct (invocation_agrees_with_flag
                [EvSetValue VmixConnectedNode (VBool false); EvConnect 0]
                {| identifier := lit "Stinger 2"; description := lit "Stinger 2" |}
                {| invocation_id := None |} (lit "FUNCTION STINGER2")
                eq_refl eq_refl H) as [G _].
    assert (Hs : success (fst (onInvocation
                   {| identifier := lit "Stinger 2"; description := lit "Stinger 2" |}
                   {| invocation_id := None |}
                   (exec init [EvSetValue VmixConnectedNode (VBool false); EvConnect 0])))
                 = true) by (vm_compute; reflexivity).
    destruct (G Hs) as (Hf & s & Hv & _ & Hw).
    assert (s = 0) as -> by (vm_compute in Hv; congruence).
    by split_and!.
  - split; [vm_compute; reflexivity|].
    destruct (invocation_agrees_with_flag
                ([EvSetValue VmixConnectedNode (VBool false); EvConnect 0] ++ [EvClose 0])
                {| identifier := lit "Stinger 2"; description := lit "Stinger 2" |}
                {| invocation_id := None |} (lit "FUNCTION STINGER2")
                eq_refl eq_refl H) as [_ G].
    by destruct (G eq_refl) as [-> _].
Defined.

(** *** Bounds of the schedule *)

Lemma retryDelay_cases i :
  (i = 0 ∧ retryDelay i = 2000%N) ∨ (i = 1 ∧ retryDelay i = 4000%N)
  ∨ (i = 2 ∧ retryDelay i = 16000%N) ∨ (3 ≤ i ∧ retryDelay i = 30000%N).
Proof.
  do 3 (destruct i as [|i]; [tauto|]).
  do 3 right. split; [lia|]. unfold retryDelay. by rewrite decide_False by (simpl; lia).
Qed.

Lemma retryDelay_possible i : retryDelay i ∈ possible_delays.
Proof.
  destruct (retryDelay_cases i) as [[_ ->]|[[_ ->]|[[_ ->]|[_ ->]]]];
    vm_compute; set_solver.
Qed.

Lemma nextIndex_bound i : i ≤ length retryDelays → nextIndex i ≤ length retryDelays.
Proof. unfold nextIndex. case_decide; lia. Qed.

Lemma retryDelay_mono i j : i ≤ j → (retryDelay i ≤ retryDelay j)%N.
Proof.
  intros H.
  destruct (retryDelay_cases i) as [[? ->]|[[? ->]|[[? ->]|[? ->]]]];
    destruct (retryDelay_cases j) as [[? ->]|[[? ->]|[[? ->]|[? ->]]]]; lia.
Qed.

Lemma idxinv_clients st st' f s :
  clients st' = alter f s (clients st) → timers st' = timers st →
  (∀ c, delayIndex c ≤ length retryDelays → delayIndex (f c) ≤ length retryDelays) →
  IdxInv st → IdxInv st'.
Proof.
  intros Ec Et Hf [H1 H2]. split; [|by rewrite Et].
  rewrite Ec. apply Forall_alter; [done|]. intros c _. apply Hf.
Qed.

Lemma idxinv_schedule d i st :
  d ∈ possible_delays → i ≤ length retryDelays →
  IdxInv st → IdxInv (scheduleReconnect d i st).
Proof.
  intros Hd Hi [H1 H2]. unfold scheduleReconnect.
  destruct (reconnectScheduled st); [done|]. split; [done|].
  fields. apply Forall_app. split; [done|]. by apply Forall_singleton.
Qed.

Lemma idxinv_step st e : IdxInv st → IdxInv (step st e).
Proof.
  intros H. destruct e as [s|s data|s|s code|s|j|f i|n v].
  - eapply (idxinv_clients st _
              (λ c, {| delayIndex := 0; dataBuffer := dataBuffer c; phase := Open |}));
      [|done| |done].
    + simpl. by rewrite list_alter_alter_eq.
    + intros c _. simpl. lia.
  - destruct (on_data_control s data st) as (_ & _ & Et & _ & _ & _ & b & Ec).
    by eapply (idxinv_clients st _ _ s Ec Et).
  - by eapply (idxinv_clients st _
                 (λ c, {| delayIndex := delayIndex c; dataBuffer := dataBuffer c;
                          phase := HalfClosed |})).
  - assert (H' : IdxInv (set_phase s Errored st))
      by by eapply (idxinv_clients st _
                      (λ c, {| delayIndex := delayIndex c; dataBuffer := dataBuffer c;
                               phase := Errored |})).
    unfold step, on_error.
    destruct (clients (set_phase s Errored st) !! s) as [c|] eqn:Ec; [|done].
    case_decide; [|done].
    apply idxinv_schedule; [apply retryDelay_possible| |done].
    apply nextIndex_bound. destruct H' as [H1 _].
    apply (Forall_lookup_1 _ _ _ _ H1 Ec).
  - assert (H' : IdxInv (set_phase s Closed st))
      by by eapply (idxinv_clients st _
                      (λ c, {| delayIndex := delayIndex c; dataBuffer := dataBuffer c;
                               phase := Closed |})).
    unfold step, on_close.
    destruct (clients (set_phase s Closed st) !! s) as [c|] eqn:Ec; [|done].
    apply idxinv_schedule; [apply retryDelay_possible| |done].
    apply nextIndex_bound. destruct H' as [H1 _].
    apply (Forall_lookup_1 _ _ _ _ H1 Ec).
  - simpl. destruct (timers st !! j) as [[d i]|] eqn:Ej; [|done].
    destruct H as [H1 H2]. split; fields.
    + apply Forall_app. split; [done|]. apply Forall_singleton. simpl.
      by destruct (Forall_lookup_1 _ _ _ _ H2 Ej).
    + by apply Forall_delete.
  - destruct (onInvocation_control f i st) as (_ & _ & Ec & Et & _).
    destruct H as [H1 H2]. split; simpl; by rewrite ?Ec, ?Et.
  - done.
Qed.

(** X13.  The retry index saturates and the delays stay on the schedule,
    whatever events arrive and in whatever order: the [delayIndex] of
    every client and the index kept by every pending timer is at most 3,
    and every pending timer was set with 2000, 4000, 16000 or 30000 ms.
    The delay the code computes never decreases with the index and lies
    between 2000 and 30000 ms. *)
Theorem delay_index_saturates (tr : list Event) :
  let st := exec init tr in
  (∀ s c, clients st !! s = Some c → delayIndex c ≤ 3)
  ∧ (∀ d i, (d, i) ∈ timers st → d ∈ [2000; 4000; 16000; 30000]%N ∧ i ≤ 3)
  ∧ (∀ i j, i ≤ j → (2000 ≤ retryDelay i ≤ retryDelay j ∧ retryDelay j ≤ 30000)%N)
  ∧ (∀ i, i ≤ nextIndex i ∧ (i ≤ 3 → nextIndex i ≤ 3)).
Proof.
  cbv zeta.
  assert (G : ∀ st, IdxInv st → IdxInv (exec st tr)).
  { induction tr as [|e tr IH]; intros st H; [done|].
    simpl. by apply IH, idxinv_step. }
  destruct (G init) as [H1 H2].
  { split; [|by apply Forall_nil]. repeat constructor. }
  split_and!.
  - intros s c Hs. apply (Forall_lookup_1 _ _ _ _ H1 Hs).
  - intros d i Hin. rewrite Forall_forall in H2. apply (H2 _ Hin).
  - intros i j Hij. split_and!.
    + destruct (retryDelay_cases i) as [[? ->]|[[? ->]|[[? ->]|[? ->]]]]; lia.
    + by apply retryDelay_mono.
    + destruct (retryDelay_cases j) as [[? ->]|[[? ->]|[[? ->]|[? ->]]]]; lia.
  - intros i. unfold nextIndex. simpl. case_decide; lia.
Qed.

(** *** What is written to the device *)

Lemma writes_to_app s st st' more :
  written st' = written st ++ more →
  writes_to s st' =
    writes_to s st
    ++ omap (λ w : nat * jsstring, if decide (w.1 = s) then Some w.2 else None) more.
Proof. intros H. unfold writes_to. by rewrite H, omap_app. Qed.

Lemma writes_to_same s st st' : written st' = written st → writes_to s st' = writes_to s st.
Proof. intros H. unfold writes_to. by rewrite H. Qed.

Lemma onInvocation_written f i st :
  written (snd (onInvocation f i st)) = written st
  ∨ ∃ s, writableConnection st = Some s
         ∧ truthy (JS.get functionCommandMapping (identifier f)) = true
         ∧ written (snd (onInvocation f i st))
           = written st ++ [(s, toText (JS.get functionCommandMapping (identifier f)) ++ CRLF)].
Proof.
  unfold onInvocation.
  destruct (truthy _) eqn:Ht; [|by left].
  change (writableConnection (log LogInvocation st)) with (writableConnection st).
  destruct (writableConnection st) as [s|] eqn:Hw; [|by left].
  right. by exists s.
Qed.

Lemma written_scheduleReconnect d i st : written (scheduleReconnect d i st) = written st.
Proof. unfold scheduleReconnect. by destruct (reconnectScheduled st). Qed.

Lemma written_on_error s code st : written (on_error s code st) = written st.
Proof.
  unfold on_error. destruct (clients st !! s); [|done].
  case_decide; [by rewrite written_scheduleReconnect | done].
Qed.

Lemma written_on_close s st : written (on_close s st) = written st.
Proof.
  unfold on_close. destruct (clients st !! s); [|done].
  by rewrite written_scheduleReconnect.
Qed.

(** A change of phase that is not a connection, with nothing written. *)
Lemma winv_phase st st' s p :
  clients st' = alter (λ c, {| delayIndex := delayIndex c; dataBuffer := dataBuffer c;
                               phase := p |}) s (clients st) →
  written st' = written st →
  p ≠ Connecting →
  (p = Open ∨ p = HalfClosed →
   ∀ c, clients st !! s = Some c → phase c = Open ∨ phase c = HalfClosed) →
  WInv st → WInv st'.
Proof.
  intros Ec Ew Hp Hopen H j. destruct (H j) as (H1 & H2 & H3 & H4).
  rewrite (writes_to_same j st st' Ew), Ec.
  destruct (decide (j = s)) as [->|Hne].
  - rewrite list_lookup_alter_eq. split_and!; try done.
    + intros Hn. apply H1. by destruct (clients st !! s).
    + intros c Hc. apply fmap_Some in Hc as (c0 & Hc0 & ->). done.
    + intros c Hc Hph. apply fmap_Some in Hc as (c0 & Hc0 & ->). simpl in Hph.
      apply (H4 c0 Hc0). by apply Hopen.
  - by rewrite list_lookup_alter_ne.
Qed.

Lemma winv_step st e : Inv st → WInv st → enabled st e = true → WInv (step st e).
Proof.
  intros HI H He. destruct e as [s|s data|s|s code|s|j|f i|n v]; simpl in He.
  - (* connect *)
    apply bool_decide_eq_true, phase_of_Some in He as (c & Hs & Hp).
    intros j. destruct (H j) as (H1 & H2 & H3 & H4).
    assert (Hw : writes_to j (step st (EvConnect s))
                 = writes_to j st ++ if decide (s = j) then subscriptions else []).
    { rewrite (writes_to_app j st _ [(s, lit "SUBSCRIBE TALLY" ++ CRLF);
                                      (s, lit "SUBSCRIBE ACTS" ++ CRLF)])
        by (simpl; by rewrite <- app_assoc).
      f_equal. simpl. by case_decide. }
    rewrite Hw. simpl. rewrite list_alter_alter_eq.
    destruct (decide (s = j)) as [<-|Hne].
    + rewrite (H2 c Hs Hp). rewrite list_lookup_alter_eq, Hs. simpl.
      split_and!; try done.
      * intros c' [= <-]. done.
      * right. exists []. split; [by rewrite ?app_nil_r | constructor].
    + rewrite app_nil_r, list_lookup_alter_ne by done. done.
  - (* data *)
    destruct (on_data_control s data st) as (_ & _ & _ & Ew & _ & _ & b & Ec).
    intros j. destruct (H j) as (H1 & H2 & H3 & H4).
    simpl. rewrite (writes_to_same j st _ Ew), Ec.
    destruct (decide (j = s)) as [->|Hne]; [|by rewrite list_lookup_alter_ne].
    rewrite list_lookup_alter_eq. split_and!; try done.
    + intros Hn. apply H1. by destruct (clients st !! s).
    + intros c Hc. apply fmap_Some in Hc as (c0 & Hc0 & ->). exact (H2 c0 Hc0).
    + intros c Hc. apply fmap_Some in Hc as (c0 & Hc0 & ->). exact (H4 c0 Hc0).
  - (* end *)
    apply bool_decide_eq_true, phase_of_Some in He as (c & Hs & Hp).
    eapply (winv_phase st _ s HalfClosed); try done.
    intros _ c' Hc'. left. congruence.
  - (* error *)
    eapply (winv_phase st _ s Errored); try done.
    + simpl. by rewrite clients_on_error.
    + simpl. by rewrite written_on_error.
    + by intros [?|?].
  - (* close *)
    eapply (winv_phase st _ s Closed); try done.
    + simpl. by rewrite clients_on_close.
    + simpl. by rewrite written_on_close.
    + by intros [?|?].
  - (* timer *)
    simpl. destruct (timers st !! j) as [[d i]|]; [|done].
    intros k. destruct (H k) as (H1 & H2 & H3 & H4).
    change (writes_to k _) with (writes_to k st). fields.
    split_and!; try done.
    + intros Hn. apply H1. apply lookup_ge_None in Hn. apply lookup_ge_None.
      rewrite length_app in Hn. lia.
    + intros c Hc Hp. apply lookup_app_Some in Hc as [Hc|[Hge Hc]]; [by eapply H2|].
      apply H1, lookup_ge_None. lia.
    + intros c Hc Hp. apply lookup_app_Some in Hc as [Hc|[Hge Hc]]; [by eapply H4|].
      destruct (k - length (clients st)) as [|m]; [|by destruct m].
      simpl in Hc. simplify_eq. simpl in Hp. by destruct Hp.
  - (* invocation *)
    destruct (onInvocation_control f i st) as (_ & _ & Ec & _).
    intros k. destruct (H k) as (H1 & H2 & H3 & H4).
    simpl. rewrite Ec.
    destruct (onInvocation_written f i st) as [Ew|(s & Hwc & Htr & Ew)].
    + by rewrite (writes_to_same k st _ Ew).
    + rewrite (writes_to_app k st _ _ Ew). simpl.
      destruct (decide (s = k)) as [->|Hne]; [|by rewrite app_nil_r].
      unfold writableConnection in Hwc.
      destruct (vmixConnection st) as [s'|] eqn:Hv; [|done]. simpl in Hwc.
      destruct (clients st !! s') as [c|] eqn:Hs; [|done]. simpl in Hwc.
      destruct (socket_writable (phase c)); [|done]. simplify_eq.
      destruct (inv_connection st k HI Hv) as (_ & c' & Hs' & Hp').
      specialize (H4 c' Hs' Hp').
      split_and!.
      * intros Hn. congruence.
      * intros c0 Hc0 Hp0. assert (c0 = c') as -> by congruence.
        destruct Hp'; congruence.
      * right. destruct H3 as [?|(cmds & -> & Hall)]; [done|].
        exists (cmds ++ [toText (JS.get functionCommandMapping (identifier f)) ++ CRLF]).
        split; [first [done | by rewrite <- app_assoc]|].
        apply Forall_app. split; [done|]. apply Forall_singleton.
        by exists (identifier f).
      * intros _ _ _. by destruct (writes_to k st).
  - (* set-value *)
    exact H.
Qed.

Lemma winv_init : WInv init.
Proof.
  intros s. split_and!; try done. by left.
  intros c Hc Hp. destruct s as [|[|s]]; simpl in Hc; simplify_eq. simpl in Hp.
  by destruct Hp.
Qed.

Lemma command_line_not_subscription w : is_command_line w → w ∉ subscriptions.
Proof.
  intros (k & Ht & ->) Hin. unfold JS.get in *.
  destruct (functionCommandMapping !! k) as [v|] eqn:Hk.
  - apply elem_of_list_to_map_2 in Hk.
    repeat (apply elem_of_cons in Hk as [Hk|Hk];
            [injection Hk as _ ->; vm_compute in Hin;
             repeat (apply elem_of_cons in Hin as [Hin|Hin]; [discriminate|]);
             by apply elem_of_nil in Hin|]).
    by apply elem_of_nil in Hk.
  - case_decide; [|done]. simpl in Hin.
    repeat case_decide;
      repeat (apply elem_of_cons in Hin as [Hin|Hin]; [discriminate|]);
      by apply elem_of_nil in Hin.
Qed.

Lemma exec_winv tr : ∀ st,
  Inv st → WInv st → admissible st tr = true → WInv (exec st tr).
Proof.
  induction tr as [|e tr IH]; intros st HI H Hadm; [done|].
  simpl in Hadm. apply andb_true_iff in Hadm as [He Hadm].
  simpl. apply IH; [by apply step_inv | by apply winv_step | done].
Qed.

(** X14.  The device hears the subscriptions first, and once.  In every
    state the bridge can reach, what has been written to a socket is
    nothing at all, or the two subscription commands, ["SUBSCRIBE TALLY"]
    and ["SUBSCRIBE ACTS"], each ended by CR LF, followed only by lines
    that invocations wrote, none of which is a subscription.  A socket
    that has not connected yet has been written nothing; the active
    connection has been written its subscriptions. *)
Theorem subscriptions_come_first (tr : list Event) (s : nat) :
  admissible init tr = true →
  let st := exec init tr in
  (writes_to s st = []
   ∨ ∃ cmds, writes_to s st = subscriptions ++ cmds
             ∧ Forall (λ w, is_command_line w ∧ w ∉ subscriptions) cmds)
  ∧ (phase_of st s = None ∨ phase_of st s = Some Connecting → writes_to s st = [])
  ∧ (vmixConnection st = Some s → writes_to s st ≠ []).
Proof.
  intros Ha. cbv zeta.
  pose proof (exec_inv tr init init_inv Ha) as HI.
  destruct (exec_winv tr init init_inv winv_init Ha s) as (H1 & H2 & H3 & H4).
  split_and!.
  - destruct H3 as [?|(cmds & E & Hall)]; [by left|]. right. exists cmds. split; [done|].
    eapply Forall_impl; [exact Hall|]. intros w Hw. split; [done|].
    by apply command_line_not_subscription.
  - intros [Hn|Hc].
    + apply H1. unfold phase_of in Hn. by destruct (clients (exec init tr) !! s).
    + apply phase_of_Some in Hc as (c & Hc & Hp). by eapply H2.
  - intros Hv. destruct (inv_connection _ s HI Hv) as (_ & c & Hc & Hp). by eapply H4.
Qed.

Lemma subscriptions_come_first_witness :
  let stinger := {| identifier := lit "Stinger 3"; description := lit "Stinger 3" |} in
  let tr := [EvConnect 0; EvInvocation stinger {| invocation_id := Some 1%Z |}] in
  admissible init tr = true
  ∧ writes_to 0 (exec init tr) = subscriptions ++ [lit "FUNCTION STINGER3" ++ CRLF]
  ∧ writes_to 0 (exec init tr) ≠ [].
Proof.
  cbv zeta. split; [reflexivity|]. split; [reflexivity|].
  destruct (subscriptions_come_first
    [EvConnect 0; EvInvocation {| identifier := lit "Stinger 3"; description := lit "Stinger 3" |}
                    {| invocation_id := Some 1%Z |}] 0 eq_refl) as (_ & _ & H).
  by apply H.
Defined.

(** X15.  An invocation is fire-and-forget.  It never changes the tree
    (no [s.update]), the clients, the timers, the guard flag or the active
    connection; it writes at most one line, to the active connection and
    to no other socket, and it does so exactly when it reports success
    for an identifier the lookup finds. *)
Theorem invocation_only_writes (f : EmberFunction) (i : Invocation) (st : State) :
  let r := onInvocation f i st in
  tree (snd r) = tree st
  ∧ updates (snd r) = updates st
  ∧ clients (snd r) = clients st
  ∧ timers (snd r) = timers st
  ∧ reconnectScheduled (snd r) = reconnectScheduled st
  ∧ vmixConnection (snd r) = vmixConnection st
  ∧ (written (snd r) = written st
     ∨ ∃ s w, vmixConnection st = Some s ∧ success (fst r) = true
              ∧ written (snd r) = written st ++ [(s, w)])
  ∧ (success (fst r) = false → written (snd r) = written st)
  ∧ (truthy (JS.get functionCommandMapping (identifier f)) = true →
     success (fst r) = true →
     ∃ s, vmixConnection st = Some s
          ∧ written (snd r)
            = written st ++ [(s, toText (JS.get functionCommandMapping (identifier f)) ++ CRLF)]).
Proof.
  cbv zeta. unfold onInvocation.
  destruct (truthy _); [|by split_and!; try left].
  change (writableConnection (log LogInvocation st)) with (writableConnection st).
  destruct (writableConnection st) as [s|] eqn:Hw; simpl.
  - assert (Hs : vmixConnection st = Some s).
    { unfold writableConnection in Hw.
      destruct (vmixConnection st) as [s'|]; [|done]. simpl in Hw.
      destruct (clients st !! s'); [|done]. simpl in Hw.
      destruct (socket_writable _); by simplify_eq. }
    split_and!; try done.
    + right. exists s. eexists. by split_and!.
    + intros _ _. by exists s.
  - split_and!; try done. by left.
Qed.

(** ** The tables *)

(** The loop started at [i] with tables [t]: it ends, and its tables hold
    the keys from [i] to the bound, each with its own node, over what [t]
    held. *)
Lemma tally_table_loop_spec bound : ∀ fuel i t,
  S bound - i < fuel →
  ∃ t', tally_table_loop fuel bound i t = Some t'
        ∧ (∀ k, programTable t' !! k
                = if decide (i ≤ k ≤ bound) then Some (ProgramTallyNode k)
                  else programTable t !! k)
        ∧ (∀ k, previewTable t' !! k
                = if decide (i ≤ k ≤ bound) then Some (PreviewTallyNode k)
                  else previewTable t !! k).
Proof.
  induction fuel as [|fuel IH]; intros i t Hf; [lia|].
  cbn [tally_table_loop]. case_decide as Hi.
  - destruct (IH (S i) (tally_table_turn i t)) as (t' & -> & Hp & Hq); [lia|].
    exists t'. split; [done|]. split; intros k.
    + rewrite Hp. cbn [tally_table_turn programTable].
      destruct (decide (k = i)) as [->|Hk].
      * rewrite lookup_insert_eq. repeat case_decide; (done || lia).
      * rewrite lookup_insert_ne by done. repeat case_decide; (done || lia).
    + rewrite Hq. cbn [tally_table_turn previewTable].
      destruct (decide (k = i)) as [->|Hk].
      * rewrite lookup_insert_eq. repeat case_decide; (done || lia).
      * rewrite lookup_insert_ne by done. repeat case_decide; (done || lia).
  - exists t. split; [done|]. split; intros k; case_decide; (done || lia).
Qed.

Lemma tally_tables_closed_form (k : nat) :
  programTallyNodes !! k = (if decide (1 ≤ k ≤ 32) then Some (ProgramTallyNode k) else None)
  ∧ previewTallyNodes !! k = (if decide (1 ≤ k ≤ 32) then Some (PreviewTallyNode k) else None).
Proof.
  case_decide as Hk.
  - replace k with (k - 1 + 1) by lia.
    rewrite programTallyNodes_lookup, previewTallyNodes_lookup by lia. done.
  - split.
    + destruct (programTallyNodes !! k) as [m|] eqn:E; [|done].
      apply elem_of_list_to_map_2, list_elem_of_fmap in E as (j & [= -> ->] & Hj).
      apply elem_of_seq in Hj. lia.
    + destruct (previewTallyNodes !! k) as [m|] eqn:E; [|done].
      apply elem_of_list_to_map_2, list_elem_of_fmap in E as (j & [= -> ->] & Hj).
      apply elem_of_seq in Hj. lia.
Qed.

(** X16.  The loop that builds the tally tables ends, for every bound,
    with exactly the keys 1 to the bound in both tables alike, each key
    with the node of its own input; run to the bound 32 of the source it
    ends with the two tables the line interpreter looks inputs up in, so
    a tally line can address inputs 1 to 32 and no other. *)
Theorem tally_tables (bound fuel : nat) :
  bound < fuel →
  ∃ t, tally_table_loop fuel bound 1 no_tables = Some t
       ∧ (∀ k n, programTable t !! k = Some n ↔ 1 ≤ k ≤ bound ∧ n = ProgramTallyNode k)
       ∧ (∀ k n, previewTable t !! k = Some n ↔ 1 ≤ k ≤ bound ∧ n = PreviewTallyNode k)
       ∧ (∀ k, is_Some (programTable t !! k) ↔ is_Some (previewTable t !! k))
       ∧ (bound = 32 → programTable t = programTallyNodes ∧ previewTable t = previewTallyNodes).
Proof.
  intros Hf.
  destruct (tally_table_loop_spec bound fuel 1 no_tables) as (t & Ht & Hp & Hq); [lia|].
  exists t. split; [done|]. split_and!.
  - intros k n. rewrite Hp. case_decide as Hk.
    + split; [by intros [= <-] | by intros [_ ->]].
    + cbn [no_tables programTable]. rewrite lookup_empty. split; [done | by intros [? _]].
  - intros k n. rewrite Hq. case_decide as Hk.
    + split; [by intros [= <-] | by intros [_ ->]].
    + cbn [no_tables previewTable]. rewrite lookup_empty. split; [done | by intros [? _]].
  - intros k. rewrite Hp, Hq. case_decide; [by split; eexists|].
    cbn [no_tables programTable previewTable]. by rewrite !lookup_empty.
  - intros ->. split; apply map_eq; intros k;
      destruct (tally_tables_closed_form k) as [E1 E2].
    + rewrite Hp, E1. by case_decide.
    + rewrite Hq, E2. by case_decide.
Qed.

Lemma tally_tables_witness :
  32 < 33
  ∧ tally_table_loop 33 32 1 no_tables
    = Some {| programTable := programTallyNodes; previewTable := previewTallyNodes |}.
Proof.
  split; [lia|].
  destruct (tally_tables 32 33 ltac:(lia)) as (t & -> & _ & _ & _ & H).
  destruct (H eq_refl) as [E1 E2]. destruct t as [p q]. simpl in *. by rewrite E1, E2.
Defined.

(** X17.  The command mapping and the functions of the tree agree, and
    commands are distinct single lines.  The keys of the mapping are
    exactly the identifiers of the functions of the tree; no key is the
    name of an inherited member; two functions never send the same
    command; and no command holds a line terminator, so one invocation
    writes one line of the device protocol. *)
Theorem command_table_matches_tree :
  (∀ id, is_Some (functionCommandMapping !! id)
         ↔ ∃ n f, (n, f) ∈ functionsTree ∧ identifier f = id)
  ∧ (∀ id, is_Some (functionCommandMapping !! id) → id ∉ objectPrototypeKeys)
  ∧ (∀ id1 id2 command, functionCommandMapping !! id1 = Some command →
       functionCommandMapping !! id2 = Some command → id1 = id2)
  ∧ (∀ id command, functionCommandMapping !! id = Some command →
       startsWith (lit "FUNCTION ") command = true ∧ unterminated command)
  ∧ NoDup (fst <$> functionsTree).
Proof.
  split_and!.
  - intros id. split.
    + intros [command H].
      assert (Hall : map_Forall (λ k _, k ∈ (λ nf, identifier nf.2) <$> functionsTree)
                                functionCommandMapping) by compute_done.
      apply Hall in H. apply list_elem_of_fmap in H as ([n f] & -> & Hin).
      by exists n, f.
    + intros (n & f & Hin & <-). by eapply functionsTree_mapped.
  - intros id [command H].
    assert (Hall : map_Forall (λ k _, k ∉ objectPrototypeKeys) functionCommandMapping)
      by compute_done.
    by apply Hall in H.
  - intros id1 id2 command H1 H2.
    assert (Hall : map_Forall (λ k1 c1, map_Forall (λ k2 c2, c1 = c2 → k1 = k2)
                                          functionCommandMapping)
                              functionCommandMapping) by compute_done.
    by apply (Hall _ _ H1 _ _ H2).
  - intros id command H.
    assert (Hall : map_Forall (λ _ c, startsWith (lit "FUNCTION ") c = true
                                      ∧ indexOf CRLF c = None)
                              functionCommandMapping) by compute_done.
    by apply Hall in H.
  - compute_done.
Qed.

(** ** Losing the connection and getting it back *)

(** X18.  A lost connection is fully recovered by one retry that
    succeeds.  From every state the bridge can reach with a live socket
    [s]: the socket closes, the retry timer fires, and the new socket
    connects.  This sequence can always be delivered, and after it the new
    socket is the active connection, it has been written the two
    subscriptions and nothing else, its retry index is 0 and its buffer
    empty, the "vMix Connected" parameter is [true], no timer is pending
    and the guard flag is clear; the old socket is closed. *)
Theorem reconnect_cycle (tr : list Event) (s : nat) (c : Client) :
  admissible init tr = true →
  let st := exec init tr in
  clients st !! s = Some c → healthy (phase c) →
  let s' := length (clients st) in
  let cycle := [EvClose s; EvTimer 0; EvConnect s'] in
  admissible st cycle = true
  ∧ vmixConnection (exec st cycle) = Some s'
  ∧ clients (exec st cycle) !! s' = Some {| delayIndex := 0; dataBuffer := []; phase := Open |}
  ∧ writes_to s' (exec st cycle) = subscriptions
  ∧ connectedFlag (exec st cycle) = VBool true
  ∧ timers (exec st cycle) = []
  ∧ reconnectScheduled (exec st cycle) = false
  ∧ phase <$> clients (exec st cycle) !! s = Some Closed.
Proof.
  intros Ha. cbv zeta. set (st := exec init tr). intros Hs Hh.
  pose proof (exec_inv tr init init_inv Ha) as HI. fold st in HI.
  pose proof HI as (k & Hk & M).
  destruct (healthy_mode st k s c M Hs Hh) as (Ho & Hi & Ht & Hr & _ & _).
  destruct (exec_winv tr init init_inv winv_init Ha (length (clients st))) as (Hw & _).
  fold st in Hw. specialize (Hw ltac:(by apply lookup_ge_None)).
  assert (Hlt : s < length (clients st)) by (by eapply lookup_lt_Some).
  set (closed := alter (λ c, {| delayIndex := delayIndex c; dataBuffer := dataBuffer c;
                                phase := Closed |}) s (clients st)).
  assert (Hlen : length closed = length (clients st)) by apply length_alter.
  (* the close *)
  assert (E1 : step st (EvClose s)
               = st |> set_phase s Closed |> set_vmixConnection None |> log LogClosed
                    |> set_reconnectScheduled true
                    |> log (LogRetrying (retryDelay (delayIndex c)))
                    |> s_update (Handle VmixConnectedNode) (VBool false)
                    |> setTimeout (retryDelay (delayIndex c)) (nextIndex (delayIndex c)))
    by (by rewrite (step_close _ _ _ Hs), scheduleReconnect_unscheduled).
  assert (He1 : enabled st (EvClose s) = true).
  { simpl. apply bool_decide_eq_true.
    assert (phase_of st s = Some (phase c)) as -> by (apply phase_of_Some; by exists c).
    rewrite !elem_of_cons. destruct Hh as [->|[->| ->]]; tauto. }
  destruct (failure_outcome st s c (step st (EvClose s)) Hs Ho) as (_ & _ & He2 & Hph);
    [rewrite E1; fields; by rewrite ?Ht..|].
  (* the timer *)
  assert (E2 : step (step st (EvClose s)) (EvTimer 0)
               = step st (EvClose s) |> set_timers [] |> set_reconnectScheduled false
                   |> connectToVMix (nextIndex (delayIndex c))).
  { erewrite step_timer; [|rewrite E1; fields; by rewrite Ht]. rewrite E1. fields.
    by rewrite Ht. }
  assert (He3 : enabled (step (step st (EvClose s)) (EvTimer 0))
                  (EvConnect (length (clients st))) = true)
    by (simpl; by apply bool_decide_eq_true).
  split_and!.
  - cbn [admissible] in *. rewrite andb_true_r in He2. by rewrite He1, He2, He3.
  - done.
  - unfold exec. cbn [foldl]. rewrite E2, E1. unfold step, on_connect. fields.
    fold closed. rewrite !list_alter_alter_eq, <- Hlen.
    rewrite (lookup_alter_Some _ _ _ _ (lookup_snoc closed _)). done.
  - unfold exec. cbn [foldl].
    rewrite (writes_to_app _ (step (step st (EvClose s)) (EvTimer 0)) _
               [(length (clients st), lit "SUBSCRIBE TALLY" ++ CRLF);
                (length (clients st), lit "SUBSCRIBE ACTS" ++ CRLF)])
      by (simpl; by rewrite <- app_assoc).
    rewrite (writes_to_same _ st) by (rewrite E2, E1; reflexivity).
    rewrite Hw. cbn [omap list_omap fst snd app]. by rewrite !decide_True.
  - unfold exec, connectedFlag. cbn [foldl]. simpl. apply fn_lookup_insert.
  - unfold exec. cbn [foldl]. rewrite E2. done.
  - done.
  - unfold exec. cbn [foldl]. rewrite E2, E1. unfold step, on_connect. fields.
    fold closed. rewrite !list_alter_alter_eq.
    rewrite list_lookup_alter_ne by lia.
    rewrite lookup_app_l by lia. unfold closed.
    by rewrite (lookup_alter_Some _ _ _ _ Hs).
Qed.

Lemma reconnect_cycle_witness :
  let tr := [EvConnect 0; EvData 0 (Utf8.ascii_bytes "TALLY OK 1")] in
  (admissible init tr = true
   ∧ clients (exec init tr) !! 0
     = Some {| delayIndex := 0; dataBuffer := lit "TALLY OK 1"; phase := Open |}
   ∧ healthy Open)
  ∧ vmixConnection (exec (exec init tr) [EvClose 0; EvTimer 0; EvConnect 1]) = Some 1
  ∧ writes_to 1 (exec (exec init tr) [EvClose 0; EvTimer 0; EvConnect 1]) = subscriptions.
Proof.
  cbv zeta.
  assert (Hh : healthy Open) by (right; by left).
  split; [by split_and!|].
  destruct (reconnect_cycle [EvConnect 0; EvData 0 (Utf8.ascii_bytes "TALLY OK 1")] 0
              {| delayIndex := 0; dataBuffer := lit "TALLY OK 1"; phase := Open |}
              eq_refl eq_refl Hh) as (_ & H1 & _ & H2 & _).
  split; [exact H1 | exact H2].
Defined.

(** ** The lines handed to the interpreter *)

Lemma trimStart_no_lead x : no_lead (trimStart x).
Proof.
  induction x as [|c x IH]; simpl; [done|].
  destruct (isWhiteSpace c) eqn:E; [done|]. simpl. done.
Qed.

Lemma no_lead_trimStart x : no_lead x → trimStart x = x.
Proof. destruct x as [|c x]; simpl; [done|]. by intros ->. Qed.

Lemma trimStart_drop x : ∃ k, trimStart x = drop k x.
Proof.
  induction x as [|c x [k IH]]; simpl; [by exists 0|].
  destruct (isWhiteSpace c); [by exists (S k) | by exists 0].
Qed.

Lemma no_lead_take n x : no_lead x → no_lead (take n x).
Proof. destruct x as [|c x], n as [|n]; simpl; done. Qed.

(** Trimming cuts a window out of the text. *)
Lemma trim_window x : ∃ k n, trim x = take n (drop k x) ∧ trimStart x = drop k x.
Proof.
  destruct (trimStart_drop x) as [k Hk].
  destruct (trimStart_drop (rev (trimStart x))) as [m Hm].
  exists k, (length (trimStart x) - m). split; [|done].
  unfold trim. rewrite Hm, skipn_rev, rev_involutive. by rewrite Hk.
Qed.

Lemma trim_idempotent x : trim (trim x) = trim x.
Proof.
  destruct (trim_window x) as (k & n & E & Ek).
  assert (Hl : no_lead (trim x)).
  { rewrite E, <- Ek. apply no_lead_take, trimStart_no_lead. }
  unfold trim at 1. rewrite (no_lead_trimStart _ Hl).
  unfold trim. rewrite rev_involutive.
  by rewrite (no_lead_trimStart _ (trimStart_no_lead _)).
Qed.

Lemma unterminated_drop k x : unterminated x → unterminated (drop k x).
Proof.
  unfold unterminated. revert x. induction k as [|k IH]; intros x H; [done|].
  destruct x as [|b x]; [done|]. simpl. apply IH.
  cbn [indexOf] in H. destruct (startsWith CRLF (b :: x)); [done|].
  by destruct (indexOf CRLF x).
Qed.

Lemma unterminated_take n x : unterminated x → unterminated (take n x).
Proof.
  unfold unterminated. intros H.
  destruct (indexOf CRLF (take n x)) as [i|] eqn:E; [|done].
  apply (indexOf_app _ _ (drop n x)) in E. rewrite take_drop in E. congruence.
Qed.

Lemma unterminated_trim x : unterminated x → unterminated (trim x).
Proof.
  intros H. destruct (trim_window x) as (k & n & -> & _).
  by apply unterminated_take, unterminated_drop.
Qed.

Lemma startsWith_take p n s : startsWith p (take n s) = true → startsWith p s = true.
Proof.
  intros H. rewrite <- (take_drop n s). by apply startsWith_app_true.
Qed.

(** What comes before the first terminator holds none. *)
Lemma unterminated_before_first s i :
  indexOf CRLF s = Some i → unterminated (take i s).
Proof.
  unfold unterminated. revert i. induction s as [|b s IH]; intros i.
  - simpl. by intros [= <-].
  - cbn [indexOf]. destruct (startsWith CRLF (b :: s)) eqn:E.
    + by intros [= <-].
    + destruct (indexOf CRLF s) as [j|] eqn:Ej; [|done]. intros [= <-].
      cbn [take indexOf].
      destruct (startsWith CRLF (b :: take j s)) eqn:E'.
      * apply (startsWith_take CRLF (S j) (b :: s)) in E'. congruence.
      * by rewrite (IH j).
Qed.

Lemma clean_trim_before_first s i :
  indexOf CRLF s = Some i → clean_line (trim (substring 0 i s)).
Proof.
  intros H. unfold substring. rewrite drop_0, Nat.sub_0_r. split.
  - by apply unterminated_trim, unterminated_before_first.
  - apply trim_idempotent.
Qed.

Lemma drain_lines_clean buf : ∀ st,
  ∃ lines, receivedLines (snd (drain buf st)) = receivedLines st ++ lines
           ∧ Forall clean_line lines.
Proof.
  remember (length buf) as n eqn:Hn. revert buf Hn.
  induction n as [n IH] using lt_wf_ind. intros buf -> st.
  rewrite drain_eq. destruct (indexOf CRLF buf) as [i|] eqn:E.
  - apply indexOf_bound in E as Hb. simpl in Hb. cbv zeta.
    edestruct (IH (length (substring_from (i + 2) buf))) as (lines & Hl & Hc);
      [unfold substring_from; rewrite length_drop; lia | done |].
    exists (trim (substring 0 i buf) :: lines). split.
    + rewrite Hl, receivedLines_line. by rewrite <- app_assoc.
    + constructor; [by apply clean_trim_before_first | done].
  - exists []. by rewrite app_nil_r.
Qed.

Lemma receivedLines_step st e :
  ∃ lines, receivedLines (step st e) = receivedLines st ++ lines
           ∧ Forall clean_line lines.
Proof.
  assert (same : ∀ st', receivedLines st' = receivedLines st →
            ∃ lines, receivedLines st' = receivedLines st ++ lines ∧ Forall clean_line lines).
  { intros st' ->. exists []. by rewrite app_nil_r. }
  assert (sched : ∀ d i x, receivedLines (scheduleReconnect d i x) = receivedLines x).
  { intros d i x. unfold scheduleReconnect. destruct (reconnectScheduled x); [done|].
    unfold receivedLines. fields. rewrite omap_app. simpl. by rewrite app_nil_r. }
  destruct e as [s|s data|s|s code|s|j|f i|n v].
  - apply same. unfold receivedLines. simpl. rewrite omap_app. simpl. by rewrite app_nil_r.
  - unfold step, on_data. destruct (clients st !! s) as [c|]; [|by apply same].
    fold (drain (dataBuffer c ++ Utf8.toString data) st).
    destruct (drain_lines_clean (dataBuffer c ++ Utf8.toString data) st) as (lines & Hl & Hc).
    destruct (drain (dataBuffer c ++ Utf8.toString data) st) as [b st1]. simpl in *.
    by exists lines.
  - by apply same.
  - apply same. unfold step, on_error.
    destruct (clients (set_phase s Errored st) !! s); [|done].
    case_decide; rewrite ?sched; unfold receivedLines; fields; rewrite omap_app; simpl;
      by rewrite app_nil_r.
  - apply same. unfold step, on_close.
    destruct (clients (set_phase s Closed st) !! s); [|done].
    rewrite sched. unfold receivedLines. fields. rewrite omap_app. simpl.
    by rewrite app_nil_r.
  - apply same. simpl. destruct (timers st !! j) as [[d i]|]; [|done].
    unfold receivedLines. fields. rewrite omap_app. simpl. by rewrite app_nil_r.
  - apply same. simpl. unfold onInvocation.
    destruct (truthy _); [destruct (writableConnection _)|]; simpl;
      unfold receivedLines; fields; rewrite ?omap_app; simpl; by rewrite ?app_nil_r.
  - apply same. unfold receivedLines. simpl. rewrite omap_app. simpl. by rewrite app_nil_r.
Qed.

(** X19.  Every line handed to the interpreter is clean: whatever events
    arrive, each line the decoder has reported holds no CR LF and has no
    white space at its start or end (trimming it again changes nothing),
    so the prefix tests of the interpreter see the first character of the
    report itself. *)
Theorem reported_lines_are_clean (tr : list Event) (l : jsstring) :
  l ∈ receivedLines (exec init tr) →
  indexOf CRLF l = None ∧ trim l = l ∧ no_lead l.
Proof.
  assert (G : ∀ st, Forall clean_line (receivedLines st) →
                    Forall clean_line (receivedLines (exec st tr))).
  { induction tr as [|e tr IH]; intros st H; [done|].
    simpl. apply IH. destruct (receivedLines_step st e) as (lines & -> & Hc).
    by apply Forall_app. }
  intros Hin. specialize (G init ltac:(by apply Forall_nil)).
  rewrite Forall_forall in G. destruct (G _ Hin) as [H1 H2].
  split_and!; try done.
  rewrite <- H2. destruct (trim_window l) as (k & n & -> & <-).
  apply no_lead_take, trimStart_no_lead.
Qed.

Lemma reported_lines_are_clean_witness :
  let data := Utf8.ascii_bytes "  TALLY OK 01 " ++ [Byte.x0d; Byte.x0d; Byte.x0a] in
  lit "TALLY OK 01" ∈ receivedLines (exec init [EvConnect 0; EvData 0 data])
  ∧ trim (lit "TALLY OK 01") = lit "TALLY OK 01".
Proof.
  cbv zeta.
  assert (H : lit "TALLY OK 01"
              ∈ receivedLines (exec init [EvConnect 0;
                  EvData 0 (Utf8.ascii_bytes "  TALLY OK 01 " ++ [Byte.x0d; Byte.x0d; Byte.x0a])]))
    by (vm_compute; apply list_elem_of_singleton; reflexivity).
  split; [exact H|].
  by destruct (reported_lines_are_clean _ _ H) as (_ & H2 & _).
Defined.
